(** * IPC AI Combat Extended: the defender spawn point component

    A shallow embedding of the modded [IPC_DefenderSpawnPointComponent]
    (reinforcement coordinator election, combat detection, the wave
    escalation state machine, wave spawning and clean-up, and the frontline
    lifecycle guard), with the properties of the design document checked
    against it.

    Conventions of the embedding:
    - object references (factions, bases, entities) are natural numbers and
      are compared by identity; a nullable reference is an [option];
    - a [WorldTimestamp] is a number of milliseconds ([Z]); the script's
      [a.DiffMilliseconds(b) / 1000.0] is the rational [(a - b) / 1000];
    - a [float] is an IEEE 754 binary32 number and every operation on
      floats rounds to nearest, ties to even; positions are vectors of
      floats, and [vector.DistanceSq] and [vector.Distance] are computed in
      that arithmetic;
    - every engine query made during one callback is answered from one
      snapshot, the record [Game];
    - log output ([Print], [PrintFormat]) is not modelled, except for the
      group type that [SpawnReinforcementGroup] writes to its log, which is
      the only use the script makes of that argument. *)

From Stdlib Require Import ZArith QArith List Bool Lia Permutation Sorted String.
From Stdlib Require Import SpecFloat.
Import ListNotations.
Local Open Scope Z_scope.

(** ** Data model *)

Definition Faction := nat.
Definition BaseRef := nat.
Definition EntityRef := nat.
Definition WorldTimestamp := Z.

(** The script's [float]: binary32, that is 24 bits of precision and
    exponents below 128.  [float_of_Z] is the conversion of an integer, and
    [float_of_dyadic m e] the float nearest to [m * 2^e]. *)
Definition float := spec_float.

Definition float_of_dyadic (m e : Z) : float :=
  binary_normalize 24 128 m e false.

Definition float_of_Z (z : Z) : float := float_of_dyadic z 0.

Definition float_sub (x y : float) : float := SFsub 24 128 x y.
Definition float_add (x y : float) : float := SFadd 24 128 x y.
Definition float_mul (x y : float) : float := SFmul 24 128 x y.
Definition float_sqrt (x : float) : float := SFsqrt 24 128 x.

(** [x < y] on floats; false when either side is not a number. *)
Definition float_ltb (x y : float) : bool := SFltb x y.

(** The number a float stands for, when it is one. *)
Definition float_value (x : float) : option Q :=
  match x with
  | S754_zero _ => Some 0%Q
  | S754_finite s m e =>
      Some (inject_Z (if s then Z.neg m else Z.pos m) * Qpower 2 e)%Q
  | S754_infinity _ | S754_nan => None
  end.

Record vector := mkVector { vx : float; vy : float; vz : float }.

(** Fields of the component.  [m_ownerId] stands for [GetOwner().GetID()];
    [m_Faction], [m_nearBase], [m_bBaseReady] and [m_sPrefab] are inherited
    from [IPC_SpawnPointComponent]; [m_bIsNearTarget] and
    [m_bIsTargetChanged] are what [SetIsNearTarget] and [SetIsTargetChanged]
    write. *)
Record Component := mkComponent {
  m_ownerId : Z;
  m_Faction : option Faction;
  m_nearBase : option BaseRef;
  m_bBaseReady : bool;
  m_sPrefab : string;
  m_tCombatStartTime : option WorldTimestamp;
  m_bReinforcementActive : bool;
  m_iReinforcementWave : Z;
  m_tLastReinforcementTime : option WorldTimestamp;
  m_bIsReinforcementCoordinator : bool;
  m_bCoordinatorInitialized : bool;
  m_aReinforcementGroups : list EntityRef;
  m_aReinforcementHelicopters : list EntityRef;
  m_tInactiveSince : option WorldTimestamp;
  m_bIsNearTarget : bool;
  m_bIsTargetChanged : bool
}.

(** The component as its field initialisers leave it. *)
Definition newComponent (id : Z) (f : option Faction) (prefab : string)
  : Component :=
  mkComponent id f None false prefab None false 0 None false false [] []
              None false false.

Definition set_nearBase (v : option BaseRef) (c : Component) : Component :=
  mkComponent (m_ownerId c) (m_Faction c) v (m_bBaseReady c) (m_sPrefab c)
    (m_tCombatStartTime c) (m_bReinforcementActive c) (m_iReinforcementWave c)
    (m_tLastReinforcementTime c) (m_bIsReinforcementCoordinator c)
    (m_bCoordinatorInitialized c) (m_aReinforcementGroups c)
    (m_aReinforcementHelicopters c) (m_tInactiveSince c) (m_bIsNearTarget c)
    (m_bIsTargetChanged c).

Definition set_tCombatStartTime (v : option WorldTimestamp) (c : Component)
  : Component :=
  mkComponent (m_ownerId c) (m_Faction c) (m_nearBase c) (m_bBaseReady c)
    (m_sPrefab c) v (m_bReinforcementActive c) (m_iReinforcementWave c)
    (m_tLastReinforcementTime c) (m_bIsReinforcementCoordinator c)
    (m_bCoordinatorInitialized c) (m_aReinforcementGroups c)
    (m_aReinforcementHelicopters c) (m_tInactiveSince c) (m_bIsNearTarget c)
    (m_bIsTargetChanged c).

Definition set_bReinforcementActive (v : bool) (c : Component) : Component :=
  mkComponent (m_ownerId c) (m_Faction c) (m_nearBase c) (m_bBaseReady c)
    (m_sPrefab c) (m_tCombatStartTime c) v (m_iReinforcementWave c)
    (m_tLastReinforcementTime c) (m_bIsReinforcementCoordinator c)
    (m_bCoordinatorInitialized c) (m_aReinforcementGroups c)
    (m_aReinforcementHelicopters c) (m_tInactiveSince c) (m_bIsNearTarget c)
    (m_bIsTargetChanged c).

Definition set_iReinforcementWave (v : Z) (c : Component) : Component :=
  mkComponent (m_ownerId c) (m_Faction c) (m_nearBase c) (m_bBaseReady c)
    (m_sPrefab c) (m_tCombatStartTime c) (m_bReinforcementActive c) v
    (m_tLastReinforcementTime c) (m_bIsReinforcementCoordinator c)
    (m_bCoordinatorInitialized c) (m_aReinforcementGroups c)
    (m_aReinforcementHelicopters c) (m_tInactiveSince c) (m_bIsNearTarget c)
    (m_bIsTargetChanged c).

Definition set_tLastReinforcementTime (v : option WorldTimestamp)
  (c : Component) : Component :=
  mkComponent (m_ownerId c) (m_Faction c) (m_nearBase c) (m_bBaseReady c)
    (m_sPrefab c) (m_tCombatStartTime c) (m_bReinforcementActive c)
    (m_iReinforcementWave c) v (m_bIsReinforcementCoordinator c)
    (m_bCoordinatorInitialized c) (m_aReinforcementGroups c)
    (m_aReinforcementHelicopters c) (m_tInactiveSince c) (m_bIsNearTarget c)
    (m_bIsTargetChanged c).

Definition set_bIsReinforcementCoordinator (v : bool) (c : Component)
  : Component :=
  mkComponent (m_ownerId c) (m_Faction c) (m_nearBase c) (m_bBaseReady c)
    (m_sPrefab c) (m_tCombatStartTime c) (m_bReinforcementActive c)
    (m_iReinforcementWave c) (m_tLastReinforcementTime c) v
    (m_bCoordinatorInitialized c) (m_aReinforcementGroups c)
    (m_aReinforcementHelicopters c) (m_tInactiveSince c) (m_bIsNearTarget c)
    (m_bIsTargetChanged c).

Definition set_bCoordinatorInitialized (v : bool) (c : Component)
  : Component :=
  mkComponent (m_ownerId c) (m_Faction c) (m_nearBase c) (m_bBaseReady c)
    (m_sPrefab c) (m_tCombatStartTime c) (m_bReinforcementActive c)
    (m_iReinforcementWave c) (m_tLastReinforcementTime c)
    (m_bIsReinforcementCoordinator c) v (m_aReinforcementGroups c)
    (m_aReinforcementHelicopters c) (m_tInactiveSince c) (m_bIsNearTarget c)
    (m_bIsTargetChanged c).

Definition set_aReinforcementGroups (v : list EntityRef) (c : Component)
  : Component :=
  mkComponent (m_ownerId c) (m_Faction c) (m_nearBase c) (m_bBaseReady c)
    (m_sPrefab c) (m_tCombatStartTime c) (m_bReinforcementActive c)
    (m_iReinforcementWave c) (m_tLastReinforcementTime c)
    (m_bIsReinforcementCoordinator c) (m_bCoordinatorInitialized c) v
    (m_aReinforcementHelicopters c) (m_tInactiveSince c) (m_bIsNearTarget c)
    (m_bIsTargetChanged c).

Definition set_aReinforcementHelicopters (v : list EntityRef) (c : Component)
  : Component :=
  mkComponent (m_ownerId c) (m_Faction c) (m_nearBase c) (m_bBaseReady c)
    (m_sPrefab c) (m_tCombatStartTime c) (m_bReinforcementActive c)
    (m_iReinforcementWave c) (m_tLastReinforcementTime c)
    (m_bIsReinforcementCoordinator c) (m_bCoordinatorInitialized c)
    (m_aReinforcementGroups c) v (m_tInactiveSince c) (m_bIsNearTarget c)
    (m_bIsTargetChanged c).

Definition set_tInactiveSince (v : option WorldTimestamp) (c : Component)
  : Component :=
  mkComponent (m_ownerId c) (m_Faction c) (m_nearBase c) (m_bBaseReady c)
    (m_sPrefab c) (m_tCombatStartTime c) (m_bReinforcementActive c)
    (m_iReinforcementWave c) (m_tLastReinforcementTime c)
    (m_bIsReinforcementCoordinator c) (m_bCoordinatorInitialized c)
    (m_aReinforcementGroups c) (m_aReinforcementHelicopters c) v
    (m_bIsNearTarget c) (m_bIsTargetChanged c).

Definition SetIsNearTarget (v : bool) (c : Component) : Component :=
  mkComponent (m_ownerId c) (m_Faction c) (m_nearBase c) (m_bBaseReady c)
    (m_sPrefab c) (m_tCombatStartTime c) (m_bReinforcementActive c)
    (m_iReinforcementWave c) (m_tLastReinforcementTime c)
    (m_bIsReinforcementCoordinator c) (m_bCoordinatorInitialized c)
    (m_aReinforcementGroups c) (m_aReinforcementHelicopters c)
    (m_tInactiveSince c) v (m_bIsTargetChanged c).

Definition SetIsTargetChanged (v : bool) (c : Component) : Component :=
  mkComponent (m_ownerId c) (m_Faction c) (m_nearBase c) (m_bBaseReady c)
    (m_sPrefab c) (m_tCombatStartTime c) (m_bReinforcementActive c)
    (m_iReinforcementWave c) (m_tLastReinforcementTime c)
    (m_bIsReinforcementCoordinator c) (m_bCoordinatorInitialized c)
    (m_aReinforcementGroups c) (m_aReinforcementHelicopters c)
    (m_tInactiveSince c) (m_bIsNearTarget c) v.

(** What [IPC_AutonomousCaptureSystem.GetPatrols] hands out: spawn points of
    any class.  [IPC_DefenderSpawnPointComponent.Cast] succeeds on the
    defenders only. *)
Inductive IPC_SpawnPointComponent :=
| DefenderPoint (d : Component)
| OtherPoint (id : Z).

(** A player-controlled entity: its [CharacterControllerComponent] (if it has
    one, with the answer of [IsDead]), its faction when it is an
    [SCR_ChimeraCharacter] (the inner option is a null faction), and its
    origin. *)
Record IEntity := mkEntity {
  ent_controller : option bool;
  ent_character : option (option Faction);
  ent_origin : vector
}.

Record ChimeraWorld := mkWorld { GetServerTimestamp : WorldTimestamp }.

(** [SCR_GameModeCampaign] with its base manager; [GetBases] lists the bases
    the manager holds for a faction. *)
Record SCR_CampaignMilitaryBaseManager := mkBaseManager {
  GetBases : Faction -> list BaseRef
}.

Record SCR_GameModeCampaign := mkGameMode {
  GetBaseManager : option SCR_CampaignMilitaryBaseManager
}.

Record SCR_CampaignFactionManager := mkFactionManager {
  GetEnemyFaction : Faction -> option Faction
}.

(** One snapshot of everything a callback reads from the engine. *)
Record Game := mkGame {
  GetWorld : option ChimeraWorld;
  GetPlayerManager : option (list (option IEntity));
  GetAutonomousSystem : option (list IPC_SpawnPointComponent);
  GetGameMode : option SCR_GameModeCampaign;
  GetFactionManager : option SCR_CampaignFactionManager;
  isCampaignFaction : Faction -> bool;
  base_GetFaction : BaseRef -> option Faction;
  base_GetOrigin : BaseRef -> vector;
  (* the spawning side *)
  prefabValid : string -> bool;
  spawnSucceeds : nat -> bool;
  GetAgentsCount : EntityRef -> nat
}.

(** ** Coordinator election *)

Definition sameBase (a : option BaseRef) (b : BaseRef) : bool :=
  match a with
  | Some x => Nat.eqb x b
  | None => false
  end.

(** Body of the [foreach] of [InitializeReinforcementCoordinator]. *)
Definition lowestIdStep (nearBase : BaseRef) (lowestIdForBase : Z)
  (spawnPoint : IPC_SpawnPointComponent) : Z :=
  match spawnPoint with
  | OtherPoint _ => lowestIdForBase
  | DefenderPoint defenderPoint =>
      if negb (sameBase (m_nearBase defenderPoint) nearBase)
      then lowestIdForBase
      else
        let theirId := m_ownerId defenderPoint in
        if theirId <? lowestIdForBase then theirId else lowestIdForBase
  end.

Definition lowestIdForBase (nearBase : BaseRef) (myEntityId : Z)
  (allSpawnPoints : list IPC_SpawnPointComponent) : Z :=
  fold_left (lowestIdStep nearBase) allSpawnPoints myEntityId.

(** [InitializeReinforcementCoordinator]: the component afterwards, and
    whether the periodic [CheckReinforcements] was registered. *)
Definition InitializeReinforcementCoordinator (g : Game) (c : Component)
  : Component * bool :=
  match m_nearBase c with
  | None => (c, false)
  | Some nearBase =>
      match GetAutonomousSystem g with
      | None => (c, false)
      | Some allSpawnPoints =>
          match allSpawnPoints with
          | [] => (c, false)
          | _ :: _ =>
              let myEntityId := m_ownerId c in
              let lowest := lowestIdForBase nearBase myEntityId allSpawnPoints in
              let c' := set_bIsReinforcementCoordinator (myEntityId =? lowest) c in
              (c', m_bIsReinforcementCoordinator c')
          end
      end
  end.

(** The defenders of a registry that are bound to base [b]. *)
Definition isMember (b : BaseRef) (sp : IPC_SpawnPointComponent) : bool :=
  match sp with
  | DefenderPoint d => sameBase (m_nearBase d) b
  | OtherPoint _ => false
  end.

Definition memberIds (b : BaseRef) (l : list IPC_SpawnPointComponent)
  : list Z :=
  flat_map (fun sp => match sp with
                      | DefenderPoint d =>
                          if sameBase (m_nearBase d) b then [m_ownerId d] else []
                      | OtherPoint _ => []
                      end) l.

Definition elected (g : Game) (c : Component) : bool :=
  m_bIsReinforcementCoordinator (fst (InitializeReinforcementCoordinator g c)).

(** ** Time and distance *)

(** [a.DiffMilliseconds(b) / 1000.0]. *)
Definition DiffSeconds (a b : WorldTimestamp) : Q := (a - b) # 1000.

Definition Qltb (x y : Q) : bool := negb (Qle_bool y x).

(** [vector.DistanceSq(a, b)] and [vector.Distance(a, b)], in floats. *)
Definition DistanceSq (a b : vector) : float :=
  let dx := float_sub (vx a) (vx b) in
  let dy := float_sub (vy a) (vy b) in
  let dz := float_sub (vz a) (vz b) in
  float_add (float_add (float_mul dx dx) (float_mul dy dy))
            (float_mul dz dz).

Definition Distance (a b : vector) : float := float_sqrt (DistanceSq a b).

(** The comparison [vector.Distance(a, b) < r]. *)
Definition DistanceLt (a b : vector) (r : float) : bool :=
  float_ltb (Distance a b) r.

(** The squared distance of two positions in exact arithmetic, which is what
    the float computation approximates. *)
Definition exactDistanceSq (a b : vector) : option Q :=
  match float_value (vx a), float_value (vy a), float_value (vz a),
        float_value (vx b), float_value (vy b), float_value (vz b) with
  | Some ax, Some ay, Some az, Some bx, Some b_y, Some bz =>
      Some ((ax - bx) * (ax - bx) + (ay - b_y) * (ay - b_y)
            + (az - bz) * (az - bz))%Q
  | _, _, _, _, _, _ => None
  end.

(** ** Constants of the component *)

Definition INACTIVE_GRACE_PERIOD : Z := 600.
Definition FRONTLINE_RANGE : float := float_of_Z 2000.
Definition REINFORCEMENT_WAVE1_THRESHOLD : Z := 300.
Definition REINFORCEMENT_WAVE2_THRESHOLD : Z := 600.
Definition REINFORCEMENT_WAVE3_THRESHOLD : Z := 900.
Definition REINFORCEMENT_WAVE4_THRESHOLD : Z := 1200.
Definition COMBAT_DETECTION_RANGE : float := float_of_Z 300.
Definition REINFORCEMENT_GROUP_COUNT : nat := 1.
Definition DEBUG_WAVE_INTERVAL : Z := 60.
Definition COOLDOWN_SECONDS : Q := 10.
Definition HELICOPTER_PREFAB_MI8MT : string :=
  "{3C6B3ED0C3AC30D5}Prefabs/Vehicles/Helicopters/Mi8MT/Mi8MT_armed_gunship_HE.et".

(** The source fixes [DEBUG_MODE = false]. *)
Definition SHIPPED_DEBUG_MODE : bool := false.

(** ** Combat detection *)

Definition sameFaction (a b : option Faction) : bool :=
  match a, b with
  | Some x, Some y => Nat.eqb x y
  | None, None => true
  | _, _ => false
  end.

(** One iteration of the player loop of [DetectCombatAtBase]: [true] is the
    [return true], [false] is a [continue] or falling to the next player. *)
Definition attackerInRange (myFaction : option Faction) (basePos : vector)
  (p : option IEntity) : bool :=
  match p with
  | None => false
  | Some player =>
      match ent_controller player with
      | None => false
      | Some isDead =>
          if isDead then false
          else
            match ent_character player with
            | None => false
            | Some playerFaction =>
                match playerFaction with
                | None => false
                | Some _ =>
                    if sameFaction playerFaction myFaction then false
                    else
                      float_ltb
                        (DistanceSq (ent_origin player) basePos)
                        (float_mul COMBAT_DETECTION_RANGE
                                   COMBAT_DETECTION_RANGE)
                end
            end
      end
  end.

Fixpoint detectLoop (myFaction : option Faction) (basePos : vector)
  (players : list (option IEntity)) : bool :=
  match players with
  | [] => false
  | p :: rest =>
      if attackerInRange myFaction basePos p then true
      else detectLoop myFaction basePos rest
  end.

Definition DetectCombatAtBase (g : Game) (c : Component) : bool :=
  match m_nearBase c with
  | None => false
  | Some nearBase =>
      match base_GetFaction g nearBase with
      | None => false
      | Some baseFaction =>
          if negb (sameFaction (Some baseFaction) (m_Faction c)) then false
          else
            let basePos := base_GetOrigin g nearBase in
            match GetPlayerManager g with
            | None => false
            | Some players => detectLoop (m_Faction c) basePos players
            end
      end
  end.

(** What the detector looks for: a player-controlled entity that is alive,
    is a character of a faction other than the defenders', and whose squared
    distance to the base, as computed in floats, is below the float
    [r * r]. *)
Definition hostileAliveWithin (myFaction : option Faction)
  (basePos : vector) (r : float) (p : IEntity) : Prop :=
  ent_controller p = Some false
  /\ (exists f, ent_character p = Some (Some f) /\ Some f <> myFaction)
  /\ float_ltb (DistanceSq (ent_origin p) basePos) (float_mul r r) = true.

(** ** Spawned entities *)

Inductive SCR_EGroupType := FIRETEAM | SQUAD_RIFLE.

(** What a callback does to the world, in the order it does it.
    [SpawnedGroup group prefab loggedType] is a group entity spawned from
    the prefab [prefab]; [loggedType] is the [groupType] argument of the
    call, which [SpawnReinforcementGroup] writes to its log and uses for
    nothing else. *)
Inductive Effect :=
| DeleteRplEntity (e : EntityRef)
| WaveTriggered (wave : Z)
| SpawnedGroup (e : EntityRef) (prefab : string)
               (loggedType : SCR_EGroupType)
| SpawnedHelicopter (e : EntityRef)
| BroadcastReinforcementAlert (wave : Z).

(** The entities of the simulation: those that exist (a reference to any
    other entity is null or deleted) and the number of [SpawnEntityPrefab]
    calls made so far for groups and helicopters, which names the next
    entity. *)
Record Sim := mkSim { sim_alive : list EntityRef; sim_calls : nat }.

Definition isAlive (s : Sim) (e : EntityRef) : bool :=
  existsb (Nat.eqb e) (sim_alive s).

Definition removeEntity (e : EntityRef) (s : Sim) : Sim :=
  mkSim (filter (fun x => negb (Nat.eqb e x)) (sim_alive s)) (sim_calls s).

Definition SpawnEntityPrefab (g : Game) (s : Sim) : option EntityRef * Sim :=
  let n := sim_calls s in
  if spawnSucceeds g n
  then (Some n, mkSim (n :: sim_alive s) (S n))
  else (None, mkSim (sim_alive s) (S n)).

Definition State : Type := Component * Sim.
Definition Result : Type := Component * Sim * list Effect.

(** One of the two [foreach] loops of [DespawnPreviousWaveGroups]. *)
Fixpoint despawnLoop (tracked : list EntityRef) (s : Sim)
  : Sim * list Effect :=
  match tracked with
  | [] => (s, [])
  | e :: rest =>
      if isAlive s e
      then let '(s', effs) := despawnLoop rest (removeEntity e s) in
           (s', DeleteRplEntity e :: effs)
      else despawnLoop rest s
  end.

Definition DespawnPreviousWaveGroups (c : Component) (s : Sim) : Result :=
  let '(s1, e1) := despawnLoop (m_aReinforcementGroups c) s in
  let c1 := set_aReinforcementGroups [] c in
  let '(s2, e2) := despawnLoop (m_aReinforcementHelicopters c1) s1 in
  let c2 := set_aReinforcementHelicopters [] c1 in
  (c2, s2, e1 ++ e2).

Definition IsEmpty (s : string) : bool :=
  match s with
  | EmptyString => true
  | String _ _ => false
  end.

(** [SpawnReinforcementGroup]: the group, or null.  The group is spawned
    from [m_sPrefab] whatever [groupType] is; the argument only reaches the
    log line written before the function returns.  The tuning of the
    agents' skill is modelled apart ([configureAgents]); it reads the player
    count from the player manager, which is resolved whenever the function
    is reached from [CheckReinforcements], since the detector has answered
    [true] in the same callback.  The defend waypoint is a separate entity
    that the component does not track and is left out. *)
Definition SpawnReinforcementGroup (g : Game) (groupType : SCR_EGroupType)
  (c : Component) (s : Sim) : option EntityRef * Sim * list Effect :=
  if IsEmpty (m_sPrefab c) then (None, s, [])
  else
    match m_Faction c with
    | None => (None, s, [])
    | Some _ =>
        match m_nearBase c with
        | None => (None, s, [])
        | Some _ =>
            if negb (prefabValid g (m_sPrefab c)) then (None, s, [])
            else
              match SpawnEntityPrefab g s with
              | (Some group, s') =>
                  (Some group, s',
                   [SpawnedGroup group (m_sPrefab c) groupType])
              | (None, s') => (None, s', [])
              end
        end
    end.

(** [SpawnArmedHelicopter] tracks the helicopter itself. *)
Definition SpawnArmedHelicopter (g : Game) (c : Component) (s : Sim)
  : option EntityRef * Result :=
  match m_nearBase c with
  | None => (None, (c, s, []))
  | Some _ =>
      if negb (prefabValid g HELICOPTER_PREFAB_MI8MT) then (None, (c, s, []))
      else
        match SpawnEntityPrefab g s with
        | (Some helicopter, s') =>
            (Some helicopter,
             (set_aReinforcementHelicopters
                (m_aReinforcementHelicopters c ++ [helicopter]) c,
              s', [SpawnedHelicopter helicopter]))
        | (None, s') => (None, (c, s', []))
        end
  end.

(** Spawn one group and, when it exists, [Insert] it into the tracked
    groups; the count of successful spawns goes up with it. *)
Definition spawnAndTrack (g : Game) (groupType : SCR_EGroupType)
  (acc : Result * nat) : Result * nat :=
  let '((c, s, effs), successfulSpawns) := acc in
  match SpawnReinforcementGroup g groupType c s with
  | (Some group, s', e) =>
      ((set_aReinforcementGroups (m_aReinforcementGroups c ++ [group]) c,
        s', effs ++ e), S successfulSpawns)
  | (None, s', e) => ((c, s', effs ++ e), successfulSpawns)
  end.

Definition alertIfAny (wave : Z) (acc : Result * nat) : Result :=
  let '((c, s, effs), successfulSpawns) := acc in
  if (0 <? successfulSpawns)%nat
  then (c, s, effs ++ [BroadcastReinforcementAlert wave])
  else (c, s, effs).

(** [array.Remove(index)] of the script: the last element takes the place
    of the removed one and the array shrinks by one, so the order is not
    kept. *)
Definition Remove (index : nat) (l : list EntityRef) : list EntityRef :=
  match nth_error l index with
  | None => l
  | Some x => removelast (firstn index l ++ last l x :: skipn (S index) l)
  end.

(** The part of [TriggerReinforcements] that follows its bookkeeping: the
    helicopter of wave 4, the two groups of wave 3, or the single group type
    of waves 1 and 2, each followed by the alert when something spawned. *)
Definition spawnWave (g : Game) (wave : Z) (r : Result) : Result :=
  let '(c, s, e1) := r in
  if wave =? 4 then
    match SpawnArmedHelicopter g c s with
    | (Some _, (c', s', e)) => alertIfAny wave ((c', s', e1 ++ e), 1%nat)
    | (None, (c', s', e)) => alertIfAny wave ((c', s', e1 ++ e), 0%nat)
    end
  else if wave =? 3 then
    alertIfAny wave
      (spawnAndTrack g FIRETEAM
         (spawnAndTrack g SQUAD_RIFLE ((c, s, e1), 0%nat)))
  else
    let groupType := if wave =? 1 then FIRETEAM else SQUAD_RIFLE in
    alertIfAny wave
      (Nat.iter REINFORCEMENT_GROUP_COUNT (spawnAndTrack g groupType)
         ((c, s, e1), 0%nat)).

(** ** The escalation state machine and the wave orchestrator

    The source fixes [DEBUG_MODE] to [false]; the functions that branch on
    it are kept parametric in it. *)
Section Reinforcement.

Variable DEBUG_MODE : bool.

Definition GetWaveThreshold (waveNumber : Z) : Z :=
  if DEBUG_MODE then waveNumber * DEBUG_WAVE_INTERVAL
  else
    match waveNumber with
    | 1 => REINFORCEMENT_WAVE1_THRESHOLD
    | 2 => REINFORCEMENT_WAVE2_THRESHOLD
    | 3 => REINFORCEMENT_WAVE3_THRESHOLD
    | 4 => REINFORCEMENT_WAVE4_THRESHOLD
    | _ => 999999
    end.

Definition TriggerReinforcements (g : Game) (wave : Z) (st : State)
  : Result :=
  let '(c, s) := st in
  match GetWorld g with
  | None => (c, s, [])
  | Some world =>
      let '(c, s, e0) :=
        if DEBUG_MODE then DespawnPreviousWaveGroups c s else (c, s, []) in
      let c := set_tLastReinforcementTime (Some (GetServerTimestamp world)) c in
      let c := set_iReinforcementWave wave c in
      spawnWave g wave (c, s, e0 ++ [WaveTriggered wave])
  end.

Definition ResetReinforcementState (c : Component) (s : Sim) : Result :=
  let c := set_bReinforcementActive false c in
  let c := set_iReinforcementWave 0 c in
  if DEBUG_MODE then DespawnPreviousWaveGroups c s else (c, s, []).

(** The cooldown test: only made once a last reinforcement time exists. *)
Definition inCooldown (currentTime : WorldTimestamp)
  (last : option WorldTimestamp) : bool :=
  match last with
  | Some t => Qltb (DiffSeconds currentTime t) COOLDOWN_SECONDS
  | None => false
  end.

Definition thresholdReached (combatDuration : Q) (wave : Z) : bool :=
  Qle_bool (inject_Z (GetWaveThreshold wave)) combatDuration.

(** [UpdateReinforcementState].  The branch for wave 4 is commented out in
    the source.  A state that is active without a combat start time is not
    reachable; the script would stop there on the null timestamp, and the
    model leaves the state as it is. *)
Definition UpdateReinforcementState (g : Game) (combatActive : bool)
  (st : State) : Result :=
  let '(c, s) := st in
  match GetWorld g with
  | None => (c, s, [])
  | Some world =>
      let currentTime := GetServerTimestamp world in
      let c :=
        if combatActive && negb (m_bReinforcementActive c)
        then set_bReinforcementActive true
               (set_tCombatStartTime (Some currentTime) c)
        else c in
      if negb combatActive && m_bReinforcementActive c
      then ResetReinforcementState c s
      else if m_bReinforcementActive c then
        match m_tCombatStartTime c with
        | None => (c, s, [])
        | Some startTime =>
            let combatDuration := DiffSeconds currentTime startTime in
            if inCooldown currentTime (m_tLastReinforcementTime c)
            then (c, s, [])
            else if (m_iReinforcementWave c <? 3)
                    && thresholdReached combatDuration 3
            then TriggerReinforcements g 3 (c, s)
            else if (m_iReinforcementWave c <? 2)
                    && thresholdReached combatDuration 2
            then TriggerReinforcements g 2 (c, s)
            else if (m_iReinforcementWave c <? 1)
                    && thresholdReached combatDuration 1
            then TriggerReinforcements g 1 (c, s)
            else (c, s, [])
        end
      else (c, s, [])
  end.

(** [CleanupDeadReinforcementGroups] walks the array from its last index
    down and removes the groups that are null or have no agent left; [k] is
    the number of indices still to visit. *)
Fixpoint cleanupLoop (g : Game) (s : Sim) (k : nat)
  (groups : list EntityRef) : list EntityRef :=
  match k with
  | O => groups
  | S i =>
      match nth_error groups i with
      | None => groups
      | Some group =>
          if negb (isAlive s group) || (GetAgentsCount g group =? 0)%nat
          then cleanupLoop g s i (Remove i groups)
          else cleanupLoop g s i groups
      end
  end.

Definition CleanupDeadReinforcementGroups (g : Game) (st : State) : State :=
  let '(c, s) := st in
  match m_aReinforcementGroups c with
  | [] => (c, s)
  | _ :: _ =>
      (set_aReinforcementGroups
         (cleanupLoop g s (List.length (m_aReinforcementGroups c))
                      (m_aReinforcementGroups c)) c, s)
  end.

Definition CheckReinforcements (g : Game) (st : State) : Result :=
  let '(c, s) := st in
  if negb (m_bIsReinforcementCoordinator c) then (c, s, [])
  else
    match m_nearBase c with
    | None => (c, s, [])
    | Some _ =>
        let combatActive := DetectCombatAtBase g c in
        let '(st', effs) := UpdateReinforcementState g combatActive (c, s) in
        (CleanupDeadReinforcementGroups g st', effs)
    end.

(** The state update run over a sequence of ticks, each with its snapshot
    and its detector result; one result per tick. *)
Fixpoint runUpdates (ticks : list (Game * bool)) (st : State)
  : list Result :=
  match ticks with
  | [] => []
  | (g, combatActive) :: rest =>
      let r := UpdateReinforcementState g combatActive st in
      r :: runUpdates rest (fst r)
  end.

End Reinforcement.

Definition wavesTriggered (effs : list Effect) : list Z :=
  flat_map (fun e => match e with WaveTriggered w => [w] | _ => [] end) effs.

Definition isDelete (e : Effect) : bool :=
  match e with DeleteRplEntity _ => true | _ => false end.

Definition tickTime (g : Game) : option WorldTimestamp :=
  match GetWorld g with
  | Some world => Some (GetServerTimestamp world)
  | None => None
  end.

(** The waves the component configures: those with a threshold constant
    and a branch in [GetWaveThreshold] and [TriggerReinforcements]. *)
Definition configuredWaves : list Z := [1; 2; 3; 4].

(** The waves the state update tests; the test of wave 4 is commented out
    in the source. *)
Definition evaluatedWaves : list Z := [1; 2; 3].

(** A wave is applicable when its number exceeds the current wave and its
    threshold has been reached by the elapsed combat time. *)
Definition applicable (debug : bool) (currentWave : Z) (elapsed : Q)
  (w : Z) : Prop :=
  In w evaluatedWaves /\ currentWave < w
  /\ (inject_Z (GetWaveThreshold debug w) <= elapsed)%Q.

(** ** The lifecycle guard *)

Fixpoint friendlyLoop (baseFaction : Faction)
  (players : list (option IEntity)) : bool :=
  match players with
  | [] => false
  | None :: rest => friendlyLoop baseFaction rest
  | Some player :: rest =>
      match ent_character player with
      | None => friendlyLoop baseFaction rest
      | Some playerFaction =>
          if sameFaction playerFaction (Some baseFaction) then true
          else friendlyLoop baseFaction rest
      end
  end.

Definition IsBaseFriendly (g : Game) (base : BaseRef) : bool :=
  match base_GetFaction g base with
  | None => false
  | Some baseFaction =>
      match GetPlayerManager g with
      | None => false
      | Some players => friendlyLoop baseFaction players
      end
  end.

Fixpoint frontlineLoop (g : Game) (ourPos : vector)
  (enemyBases : list BaseRef) : bool :=
  match enemyBases with
  | [] => false
  | enemyBase :: rest =>
      if DistanceLt ourPos (base_GetOrigin g enemyBase) FRONTLINE_RANGE
      then true
      else frontlineLoop g ourPos rest
  end.

(** [SCR_CampaignFaction.Cast(m_Faction)]. *)
Definition castCampaignFaction (g : Game) (f : option Faction)
  : option Faction :=
  match f with
  | Some x => if isCampaignFaction g x then Some x else None
  | None => None
  end.

Definition IsBaseOnFrontline (g : Game) (c : Component) (base : BaseRef)
  : bool :=
  match GetGameMode g with
  | None => true
  | Some gameMode =>
      match GetBaseManager gameMode with
      | None => true
      | Some baseManager =>
          match GetFactionManager g with
          | None => true
          | Some factionManager =>
              match castCampaignFaction g (m_Faction c) with
              | None => true
              | Some ourFaction =>
                  match GetEnemyFaction factionManager ourFaction with
                  | None => true
                  | Some enemyFaction =>
                      frontlineLoop g (base_GetOrigin g base)
                        (GetBases baseManager enemyFaction)
                  end
              end
          end
      end
  end.

Definition ShouldKeepDefendersActive (g : Game) (c : Component)
  : bool * Component :=
  match m_nearBase c with
  | None => (false, c)
  | Some nearBase =>
      if negb (IsBaseFriendly g nearBase) then (true, c)
      else if IsBaseOnFrontline g c nearBase
      then (true, set_tInactiveSince None c)
      else
        match GetWorld g with
        | None => (true, c)
        | Some world =>
            let currentTime := GetServerTimestamp world in
            match m_tInactiveSince c with
            | None => (true, set_tInactiveSince (Some currentTime) c)
            | Some since =>
                let inactiveDuration := DiffSeconds currentTime since in
                if Qle_bool (inject_Z INACTIVE_GRACE_PERIOD) inactiveDuration
                then (false, c)
                else (true, c)
            end
        end
  end.

Section Lifecycle.

(** [super.PrepareBase()] of the base framework, which resolves
    [m_nearBase] and sets [m_bBaseReady]; it is not part of this mod. *)
Variable super_PrepareBase : Game -> Component -> Component.

(** [PrepareBase]: the component, and whether
    [InitializeReinforcementCoordinator] was scheduled. *)
Definition PrepareBase (g : Game) (c : Component) : Component * bool :=
  let c := super_PrepareBase g c in
  match m_nearBase c with
  | Some _ =>
      if negb (m_bCoordinatorInitialized c)
      then (set_bCoordinatorInitialized true c, true)
      else (c, false)
  | None => (c, false)
  end.

Definition UpdateTarget (g : Game) (c : Component) : Component :=
  let c := fst (PrepareBase g c) in
  if negb (m_bBaseReady c) then c
  else
    match m_nearBase c with
    | None => SetIsNearTarget false c
    | Some nearBase =>
        if negb (IsBaseFriendly g nearBase)
        then SetIsTargetChanged false (SetIsNearTarget true c)
        else
          let '(shouldKeepActive, c) := ShouldKeepDefendersActive g c in
          SetIsTargetChanged false (SetIsNearTarget shouldKeepActive c)
    end.

End Lifecycle.

(** The guard run over a sequence of snapshots: its answer and the
    component after each call. *)
Fixpoint runGuard (ticks : list Game) (c : Component)
  : list (bool * Component) :=
  match ticks with
  | [] => []
  | g :: rest =>
      let r := ShouldKeepDefendersActive g c in
      r :: runGuard rest (snd r)
  end.

(** A snapshot in which the guard classifies base [b] as frontline. *)
Definition observedFrontline (g : Game) (c : Component) (b : BaseRef) : bool :=
  IsBaseFriendly g b && IsBaseOnFrontline g c b.

(** ** Views used by the statements *)

Definition resComponent (r : Result) : Component := fst (fst r).
Definition resSim (r : Result) : Sim := snd (fst r).
Definition resEffects (r : Result) : list Effect := snd r.

(** The combat state of the component: combat start time, active flag,
    current wave, last wave time. *)
Definition combatState (c : Component)
  : option WorldTimestamp * bool * Z * option WorldTimestamp :=
  (m_tCombatStartTime c, m_bReinforcementActive c, m_iReinforcementWave c,
   m_tLastReinforcementTime c).

Definition spawnedGroups (effs : list Effect) : list EntityRef :=
  flat_map (fun e => match e with SpawnedGroup x _ _ => [x] | _ => [] end)
           effs.

Definition spawnedHelicopters (effs : list Effect) : list EntityRef :=
  flat_map (fun e => match e with SpawnedHelicopter x => [x] | _ => [] end)
           effs.

Definition isSpawnOrAlert (e : Effect) : bool :=
  match e with
  | SpawnedGroup _ _ _ | SpawnedHelicopter _
  | BroadcastReinforcementAlert _ =>
      true
  | _ => false
  end.

(** What one spawning step adds: [extra] effects, all spawns or alerts, whose
    groups and helicopters are appended to the tracked ones; nothing that
    exists stops existing. *)
Definition extends (c : Component) (s : Sim) (effs : list Effect)
  (r : Result) : Prop :=
  combatState (resComponent r) = combatState c
  /\ incl (sim_alive s) (sim_alive (resSim r))
  /\ exists extra,
       resEffects r = effs ++ extra
       /\ Forall (fun e => isSpawnOrAlert e = true) extra
       /\ m_aReinforcementGroups (resComponent r)
          = m_aReinforcementGroups c ++ spawnedGroups extra
       /\ m_aReinforcementHelicopters (resComponent r)
          = m_aReinforcementHelicopters c ++ spawnedHelicopters extra.

(** ** Runs of the state update *)

(** The state after a sequence of ticks. *)
Definition finalState (d : bool) (ticks : list (Game * bool)) (st : State)
  : State :=
  fold_left (fun st t => fst (UpdateReinforcementState d (fst t) (snd t) st))
            ticks st.

(** The states a run goes through, the initial one first. *)
Definition statesOf (d : bool) (ticks : list (Game * bool)) (st : State)
  : list State :=
  st :: map fst (runUpdates d ticks st).

(** The time and number of the wave a tick fired, if it fired one. *)
Definition fired (g : Game) (r : Result) : option (WorldTimestamp * Z) :=
  match tickTime g, wavesTriggered (resEffects r) with
  | Some now, w :: _ => Some (now, w)
  | _, _ => None
  end.

Fixpoint fireLog (d : bool) (ticks : list (Game * bool)) (st : State)
  : list (option (WorldTimestamp * Z)) :=
  match ticks with
  | [] => []
  | (g, combatActive) :: rest =>
      let r := UpdateReinforcementState d g combatActive st in
      fired g r :: fireLog d rest (fst r)
  end.

(** The coordinator's periodic callback run over a sequence of snapshots. *)
Fixpoint runChecks (d : bool) (games : list Game) (st : State)
  : list Result :=
  match games with
  | [] => []
  | g :: rest =>
      let r := CheckReinforcements d g st in
      r :: runChecks d rest (fst r)
  end.

(** The component after the guard has run over a sequence of snapshots. *)
Definition guardState (ticks : list Game) (c : Component) : Component :=
  fold_left (fun c g => snd (ShouldKeepDefendersActive g c)) ticks c.

(** ** Sample data

    Base 0 is held by faction 1, which the sample defender belongs to; the
    players are of faction 2. *)

Definition position (x y z : Z) : vector :=
  mkVector (float_of_Z x) (float_of_Z y) (float_of_Z z).

Definition origin : vector := position 0 0 0.

Definition sampleGame (now : Z) (players : list (option IEntity)) : Game :=
  mkGame (Some (mkWorld now)) (Some players) None None None
         (fun _ => true) (fun _ => Some 1%nat) (fun _ => origin)
         (fun _ => true) (fun _ => true) (fun _ => 4%nat).

Definition sampleDefender (id : Z) (base : BaseRef) : Component :=
  set_bIsReinforcementCoordinator true
    (set_nearBase (Some base) (newComponent id (Some 1%nat) "Group_OPFOR.et")).

Definition attacker : IEntity :=
  mkEntity (Some false) (Some (Some 2%nat)) (position 100 0 0).

Definition emptySim : Sim := mkSim [] 0.

(** Combat from second 0 on, seen at seconds 0, 301 and 601. *)
Definition siege : list (Game * bool) :=
  [(sampleGame 0 [Some attacker], true);
   (sampleGame 301000 [Some attacker], true);
   (sampleGame 601000 [Some attacker], true)].

(** Combat seen at second 0 and gone at second 30. *)
Definition skirmish : list (Game * bool) :=
  [(sampleGame 0 [Some attacker], true);
   (sampleGame 30000 [], false)].

(** A registry with three defenders of base 0, one of base 1, and a spawn
    point of another class. *)
Definition sampleRegistry : list IPC_SpawnPointComponent :=
  [DefenderPoint (sampleDefender 7 0%nat); OtherPoint 2;
   DefenderPoint (sampleDefender 3 0%nat);
   DefenderPoint (sampleDefender 1 1%nat);
   DefenderPoint (sampleDefender 9 0%nat)].

Definition registryGame : Game :=
  mkGame (Some (mkWorld 0)) (Some []) (Some sampleRegistry) None None
         (fun _ => true) (fun _ => Some 1%nat) (fun _ => origin)
         (fun _ => true) (fun _ => true) (fun _ => 4%nat).

(** The sample defender 625 seconds into an engagement begun at second 0,
    with no wave fired yet. *)
Definition engagedDefender : Component :=
  set_bReinforcementActive true
    (set_tCombatStartTime (Some 0) (sampleDefender 7 0%nat)).

(** An engagement that fires wave 1 at second 301 and ends at second 331,
    and a later one that begins at second 340. *)
Definition firstEngagement : list (Game * bool) :=
  [(sampleGame 0 [Some attacker], true);
   (sampleGame 301000 [Some attacker], true);
   (sampleGame 331000 [], false)].

Definition secondEngagement : list (Game * bool) :=
  [(sampleGame 340000 [Some attacker], true);
   (sampleGame 640000 [Some attacker], true)].

(** A player of the defenders' faction, which makes base 0 friendly-held,
    and a snapshot in which the only enemy base, base 5, is 5000 units
    away. *)
Definition garrison : IEntity :=
  mkEntity (Some false) (Some (Some 1%nat)) origin.

Definition rearGame (now : Z) : Game :=
  mkGame (Some (mkWorld now)) (Some [Some garrison]) None
         (Some (mkGameMode
                  (Some (mkBaseManager
                           (fun f => if Nat.eqb f 2 then [5%nat] else [])))))
         (Some (mkFactionManager (fun _ => Some 2%nat)))
         (fun _ => true) (fun _ => Some 1%nat)
         (fun b => if Nat.eqb b 0 then origin else position 5000 0 0)
         (fun _ => true) (fun _ => true) (fun _ => 4%nat).

(** Positions at the edge of a range.  [offsetPosition] lies at
    x = 0.25 + 3 * 2^-25; a position at x = 300.25 is less than 300 units
    from it, and one at x = 2000.25 less than 2000 units, by 3 * 2^-25, but
    in floats the differences round to 300 and to 2000. *)
Definition offsetPosition : vector :=
  mkVector (float_of_dyadic 8388611 (-25)) (float_of_Z 0) (float_of_Z 0).

Definition quarterPast (x : Z) : vector :=
  mkVector (float_of_dyadic (4 * x + 1) (-2)) (float_of_Z 0) (float_of_Z 0).

(** A hostile player exactly 300 units from the origin, and one at
    x = 300.25. *)
Definition rimPlayer : IEntity :=
  mkEntity (Some false) (Some (Some 2%nat)) (position 300 0 0).

Definition grazingPlayer : IEntity :=
  mkEntity (Some false) (Some (Some 2%nat)) (quarterPast 300).

(** The sample snapshot with base 0 at [offsetPosition]. *)
Definition offsetGame (now : Z) (players : list (option IEntity)) : Game :=
  mkGame (Some (mkWorld now)) (Some players) None None None
         (fun _ => true) (fun _ => Some 1%nat) (fun _ => offsetPosition)
         (fun _ => true) (fun _ => true) (fun _ => 4%nat).

(** The snapshot [rearGame] with base 0 at [here] and the enemy base at
    [there]. *)
Definition frontGame (here there : vector) (now : Z) : Game :=
  mkGame (Some (mkWorld now)) (Some [Some garrison]) None
         (Some (mkGameMode
                  (Some (mkBaseManager
                           (fun f => if Nat.eqb f 2 then [5%nat] else [])))))
         (Some (mkFactionManager (fun _ => Some 2%nat)))
         (fun _ => true) (fun _ => Some 1%nat)
         (fun b => if Nat.eqb b 0 then here else there)
         (fun _ => true) (fun _ => true) (fun _ => 4%nat).

(** The sample defender tracking group 0, which exists. *)
Definition trackingDefender : Component :=
  set_aReinforcementGroups [0%nat] (sampleDefender 7 0%nat).

Definition oneGroupSim : Sim := mkSim [0%nat] 1.

(** ** Further views and models *)

(** The waves a run fired, in order. *)
Definition firedWaves (d : bool) (ticks : list (Game * bool)) (st : State)
  : list Z :=
  flat_map (fun o => match o with Some (_, w) => [w] | None => [] end)
           (fireLog d ticks st).

(** A tracked group the periodic clean-up keeps: it exists and has an agent
    left. *)
Definition keepGroup (g : Game) (s : Sim) (group : EntityRef) : bool :=
  isAlive s group && negb (GetAgentsCount g group =? 0)%nat.

Definition isTracked (c : Component) (e : EntityRef) : bool :=
  existsb (Nat.eqb e)
          (m_aReinforcementGroups c ++ m_aReinforcementHelicopters c).

Definition isSpawned (e : Effect) : bool :=
  match e with
  | SpawnedGroup _ _ _ | SpawnedHelicopter _ => true
  | _ => false
  end.

(** The group types the spawns of some effects wrote to the log, and the
    prefabs their groups were spawned from. *)
Definition loggedGroupTypes (effs : list Effect) : list SCR_EGroupType :=
  flat_map (fun e => match e with SpawnedGroup _ _ t => [t] | _ => [] end)
           effs.

Definition spawnedPrefabs (effs : list Effect) : list string :=
  flat_map (fun e => match e with SpawnedGroup _ p _ => [p] | _ => [] end)
           effs.

(** The prerequisites [SpawnReinforcementGroup] validates before it asks
    the engine for an entity. *)
Definition canSpawnGroup (g : Game) (c : Component) : bool :=
  negb (IsEmpty (m_sPrefab c))
  && match m_Faction c with Some _ => true | None => false end
  && match m_nearBase c with Some _ => true | None => false end
  && prefabValid g (m_sPrefab c).

(** Every entity that exists was named by an earlier spawn call. *)
Definition simFresh (s : Sim) : Prop :=
  forall e, In e (sim_alive s) -> (e < sim_calls s)%nat.

Definition isAlert (e : Effect) : bool :=
  match e with BroadcastReinforcementAlert _ => true | _ => false end.

(** The [groupType] arguments [TriggerReinforcements] passes to
    [SpawnReinforcementGroup], by wave, in the order of the calls. *)
Definition waveGroupTypes (wave : Z) : list SCR_EGroupType :=
  if wave =? 4 then []
  else if wave =? 3 then [SQUAD_RIFLE; FIRETEAM]
  else if wave =? 1 then [FIRETEAM]
  else [SQUAD_RIFLE].

(** Two components that agree on what spawning reads and writes, and two
    results that left the same force behind: the same world, the same
    tracking arrays, the same groups spawned from the same prefabs. *)
Definition alike (c1 c2 : Component) : Prop :=
  m_sPrefab c1 = m_sPrefab c2
  /\ m_Faction c1 = m_Faction c2
  /\ m_nearBase c1 = m_nearBase c2
  /\ m_aReinforcementGroups c1 = m_aReinforcementGroups c2
  /\ m_aReinforcementHelicopters c1 = m_aReinforcementHelicopters c2.

Definition sameForce (r1 r2 : Result) : Prop :=
  resSim r1 = resSim r2
  /\ m_aReinforcementGroups (resComponent r1)
     = m_aReinforcementGroups (resComponent r2)
  /\ m_aReinforcementHelicopters (resComponent r1)
     = m_aReinforcementHelicopters (resComponent r2)
  /\ spawnedGroups (resEffects r1) = spawnedGroups (resEffects r2)
  /\ spawnedPrefabs (resEffects r1) = spawnedPrefabs (resEffects r2).

(** The tracking arrays hold no entity twice, and every entity that exists
    or is tracked was named by an earlier spawn call. *)
Definition trackingInv (st : State) : Prop :=
  simFresh (snd st)
  /\ NoDup (m_aReinforcementGroups (fst st)
            ++ m_aReinforcementHelicopters (fst st))
  /\ forall e,
       In e (m_aReinforcementGroups (fst st)
             ++ m_aReinforcementHelicopters (fst st)) ->
       (e < sim_calls (snd st))%nat.

(** A float that is a number, and a position made of numbers. *)
Definition isNumber (x : float) : bool :=
  match x with
  | S754_zero _ | S754_finite _ _ _ => true
  | S754_infinity _ | S754_nan => false
  end.

Definition finitePosition (v : vector) : bool :=
  isNumber (vx v) && isNumber (vy v) && isNumber (vz v).

(** A snapshot in which base [b] is friendly-held, is not classified
    frontline, and the world resolves. *)
Definition isRearSnapshot (c : Component) (b : BaseRef) (g : Game) : bool :=
  IsBaseFriendly g b && negb (IsBaseOnFrontline g c b)
  && match GetWorld g with Some _ => true | None => false end.

(** [UpdateTarget] called over a sequence of snapshots: whether the
    [PrepareBase] of each call scheduled
    [InitializeReinforcementCoordinator]. *)
Fixpoint runTarget (super_PrepareBase : Game -> Component -> Component)
  (games : list Game) (c : Component) : list bool :=
  match games with
  | [] => []
  | g :: rest =>
      snd (PrepareBase super_PrepareBase g c)
      :: runTarget super_PrepareBase rest (UpdateTarget super_PrepareBase g c)
  end.

(** A base framework that resolves base 0 and marks it ready. *)
Definition sampleSuper (g : Game) (c : Component) : Component :=
  mkComponent (m_ownerId c) (m_Faction c) (Some 0%nat) true (m_sPrefab c)
    (m_tCombatStartTime c) (m_bReinforcementActive c) (m_iReinforcementWave c)
    (m_tLastReinforcementTime c) (m_bIsReinforcementCoordinator c)
    (m_bCoordinatorInitialized c) (m_aReinforcementGroups c)
    (m_aReinforcementHelicopters c) (m_tInactiveSince c) (m_bIsNearTarget c)
    (m_bIsTargetChanged c).

(** ** The agents of a spawned group

    [SpawnReinforcementGroup] and [SpawnHelicopterCrewAtPosition] tune the
    agents of the group they spawned with the same loop; the override of
    [SpawnPatrol] in the base spawn point class re-tunes the agents of a
    patrol for a single player.  The calls made on the agents' combat
    components are recorded in order. *)

Definition CombatRef := nat.
Definition CompartmentAccessRef := nat.

Inductive EAISkill := EXPERT | CYLON.

Inductive ECompartmentType := PILOT | TURRET.

Record SCR_AIInfoComponent := mkInfo {
  GetCombatComponent : option CombatRef
}.

(** The entity an agent controls, with the two components the script looks
    up on it. *)
Record AgentEntity := mkAgentEntity {
  FindAIInfoComponent : option SCR_AIInfoComponent;
  FindCompartmentAccessComponent : option CompartmentAccessRef
}.

Record AIAgent := mkAgent { GetControlledEntity : option AgentEntity }.

Inductive AgentCall :=
| SetAISkill (combatComponent : CombatRef) (skill : EAISkill)
| SetPerceptionFactor (combatComponent : CombatRef) (factor : Q).

(** The three lookups that each loop makes before it tunes an agent. *)
Definition combatComponentOf (agent : AIAgent) : option CombatRef :=
  match GetControlledEntity agent with
  | None => None
  | Some agentEntity =>
      match FindAIInfoComponent agentEntity with
      | None => None
      | Some infoComponent => GetCombatComponent infoComponent
      end
  end.

(** Body of the tuning loop; [players] is
    [GetGame().GetPlayerManager().GetPlayerCount()]. *)
Definition configureAgent (players : Z) (agent : AIAgent) : list AgentCall :=
  match combatComponentOf agent with
  | None => []
  | Some combatComponent =>
      if players <? 5
      then [SetAISkill combatComponent EXPERT;
            SetPerceptionFactor combatComponent (3 # 2)]
      else if players <? 10
      then [SetAISkill combatComponent EXPERT;
            SetPerceptionFactor combatComponent (3 # 2)]
      else [SetAISkill combatComponent CYLON;
            SetPerceptionFactor combatComponent 2]
  end.

Definition configureAgents (players : Z) (agents : list AIAgent)
  : list AgentCall :=
  flat_map (configureAgent players) agents.

(** [SpawnPatrol] of the modded base class: the calls of
    [super.SpawnPatrol()] followed by those of the override; [m_Group] is the
    agent list of the spawned group, if there is one. *)
Definition SpawnPatrol (super_SpawnPatrol : list AgentCall) (players : Z)
  (m_Group : option (list AIAgent)) : list AgentCall :=
  super_SpawnPatrol
  ++ (if players =? 1 then
        match m_Group with
        | Some agents =>
            flat_map (fun agent =>
                        match combatComponentOf agent with
                        | None => []
                        | Some CombatComponent =>
                            [SetAISkill CombatComponent EXPERT;
                             SetPerceptionFactor CombatComponent 1]
                        end) agents
        | None => []
        end
      else []).

(** The setting a combat component is left with: the last call made on it. *)
Definition skillAfter (calls : list AgentCall) (cc : CombatRef)
  : option EAISkill :=
  fold_left (fun acc call =>
               match call with
               | SetAISkill cc' skill => if Nat.eqb cc' cc then Some skill else acc
               | SetPerceptionFactor _ _ => acc
               end) calls None.

Definition perceptionAfter (calls : list AgentCall) (cc : CombatRef)
  : option Q :=
  fold_left (fun acc call =>
               match call with
               | SetPerceptionFactor cc' f => if Nat.eqb cc' cc then Some f else acc
               | SetAISkill _ _ => acc
               end) calls None.

Definition touches (cc : CombatRef) (call : AgentCall) : bool :=
  match call with
  | SetAISkill cc' _ | SetPerceptionFactor cc' _ => Nat.eqb cc' cc
  end.

(** An agent with every component in place, and a group of three agents
    the second of which controls no entity. *)
Definition rifleman (cc : CombatRef) : AIAgent :=
  mkAgent (Some (mkAgentEntity (Some (mkInfo (Some cc))) (Some cc))).

Definition sampleAgents : list AIAgent :=
  [rifleman 0%nat; mkAgent None; rifleman 2%nat].

(** ** Boarding the helicopter *)

(** The two lookups [CrewHelicopter] makes before it seats an agent. *)
Definition compartmentAccessOf (agent : AIAgent)
  : option CompartmentAccessRef :=
  match GetControlledEntity agent with
  | None => None
  | Some agentEntity => FindCompartmentAccessComponent agentEntity
  end.

Definition canBoard (agent : AIAgent) : bool :=
  match compartmentAccessOf agent with
  | Some _ => true
  | None => false
  end.

Section Boarding.

Variable Vehicle : Type.

(** [compartmentAccess.MoveInVehicle(helicopter, compartmentType)] of the
    engine: the vehicle afterwards, and whether the agent got in. *)
Variable MoveInVehicle :
  CompartmentAccessRef -> Vehicle -> ECompartmentType -> Vehicle * bool.

(** The requests made so far: agent index, seat asked for, outcome. *)
Definition BoardingLog := list (nat * ECompartmentType * bool).

(** Body of the [foreach (int i, AIAgent agent : agents)] of
    [CrewHelicopter]. *)
Definition boardAgent (i : nat) (agent : AIAgent)
  (acc : Vehicle * nat * BoardingLog) : Vehicle * nat * BoardingLog :=
  let '(helicopter, successfulBoards, log) := acc in
  match GetControlledEntity agent with
  | None => acc
  | Some agentEntity =>
      match FindCompartmentAccessComponent agentEntity with
      | None => acc
      | Some compartmentAccess =>
          let compartmentType := if (i =? 0)%nat then PILOT else TURRET in
          let '(helicopter', ok) :=
            MoveInVehicle compartmentAccess helicopter compartmentType in
          (helicopter',
           if ok then S successfulBoards else successfulBoards,
           log ++ [(i, compartmentType, ok)])
      end
  end.

Fixpoint boardLoop (i : nat) (agents : list AIAgent)
  (acc : Vehicle * nat * BoardingLog) : Vehicle * nat * BoardingLog :=
  match agents with
  | [] => acc
  | agent :: rest => boardLoop (S i) rest (boardAgent i agent acc)
  end.

(** [CrewHelicopter]: its result, the vehicle afterwards and the requests
    it made. *)
Definition CrewHelicopter (helicopter : option Vehicle)
  (crewGroup : option (list AIAgent)) : bool * option Vehicle * BoardingLog :=
  match helicopter, crewGroup with
  | Some h, Some agents =>
      match agents with
      | [] => (false, helicopter, [])
      | _ :: _ =>
          let '(h', successfulBoards, log) := boardLoop 0 agents (h, 0%nat, []) in
          ((0 <? successfulBoards)%nat, Some h', log)
      end
  | _, _ => (false, helicopter, [])
  end.

End Boarding.

(** A helicopter with a number of free seats, counted down by each
    successful boarding. *)
Definition seatsLeft (compartmentAccess : CompartmentAccessRef)
  (free : nat) (t : ECompartmentType) : nat * bool :=
  match free with
  | O => (O, false)
  | S n => (n, true)
  end.

(** ** The variant that rides the spawn cycle

    [Modded_DefenderSpawnPointComponent.c] holds a variant of the defender
    component with two waves that does not spawn groups itself: a trigger
    changes the spawn parameters of the base class and lets its spawn cycle
    do the spawning.  The fields of the base class that the variant reads or
    writes are part of the state; [m_eGroupType] is [None] while it holds a
    value other than the two the variant assigns. *)
Module SpawnCycle.

Definition REINFORCEMENT_WAVE1_THRESHOLD : Z := 300.
Definition REINFORCEMENT_WAVE2_THRESHOLD : Z := 600.
Definition NORMAL_RESPAWN_TIME : Z := 180.
Definition NORMAL_GROUP_COUNT : Z := 2.
Definition REINFORCEMENT_GROUP_COUNT : Z := 2.
Definition REINFORCEMENT_SPAWN_RADIUS : Q := 200.

Record SpawnPoint := mkSpawnPoint {
  (* the base class *)
  m_bSpawned : bool;
  m_Group : option EntityRef;
  m_iNum : Z;
  m_iRespawnPeriod : Z;
  m_fSpawnDisperson : Q;
  m_eGroupType : option SCR_EGroupType;
  m_fRespawnTimestamp : option WorldTimestamp;
  (* the modded class *)
  m_tCombatStartTime : option WorldTimestamp;
  m_bReinforcementActive : bool;
  m_iReinforcementWave : Z;
  m_tLastReinforcementTime : option WorldTimestamp;
  m_bReinforcementSpawnPending : bool
}.

(** What a callback asks of the engine and of the base class. *)
Inductive Call :=
| BroadcastReinforcementAlert (wave : Z)
| DespawnPatrolCalled
| CallLaterCheckAndReset (delay : Z).

Definition EOnInit (sp : SpawnPoint) : SpawnPoint :=
  mkSpawnPoint (m_bSpawned sp) (m_Group sp) NORMAL_GROUP_COUNT
    NORMAL_RESPAWN_TIME (m_fSpawnDisperson sp) (m_eGroupType sp)
    (m_fRespawnTimestamp sp) (m_tCombatStartTime sp)
    (m_bReinforcementActive sp) (m_iReinforcementWave sp)
    (m_tLastReinforcementTime sp) (m_bReinforcementSpawnPending sp).

Definition ResetToNormalSpawn (sp : SpawnPoint) : SpawnPoint :=
  mkSpawnPoint (m_bSpawned sp) (m_Group sp) NORMAL_GROUP_COUNT
    (m_iRespawnPeriod sp) 50 (m_eGroupType sp)
    (m_fRespawnTimestamp sp) (m_tCombatStartTime sp)
    (m_bReinforcementActive sp) (m_iReinforcementWave sp)
    (m_tLastReinforcementTime sp) (m_bReinforcementSpawnPending sp).

Definition ResetReinforcementState (sp : SpawnPoint) : SpawnPoint :=
  ResetToNormalSpawn
    (mkSpawnPoint (m_bSpawned sp) (m_Group sp) (m_iNum sp)
       (m_iRespawnPeriod sp) (m_fSpawnDisperson sp) (m_eGroupType sp)
       (m_fRespawnTimestamp sp) (m_tCombatStartTime sp)
       false 0
       (m_tLastReinforcementTime sp) (m_bReinforcementSpawnPending sp)).

Definition CheckAndResetReinforcementParams (sp : SpawnPoint)
  : SpawnPoint * list Call :=
  if negb (m_bReinforcementSpawnPending sp) then (sp, [])
  else if m_bSpawned sp
          && match m_Group sp with Some _ => true | None => false end
  then
    (ResetToNormalSpawn
       (mkSpawnPoint (m_bSpawned sp) (m_Group sp) (m_iNum sp)
          (m_iRespawnPeriod sp) (m_fSpawnDisperson sp) (m_eGroupType sp)
          (m_fRespawnTimestamp sp) (m_tCombatStartTime sp)
          (m_bReinforcementActive sp) (m_iReinforcementWave sp)
          (m_tLastReinforcementTime sp) false), [])
  else (sp, [CallLaterCheckAndReset 5000]).

Section Framework.

(** [DespawnPatrol()] of the base class. *)
Variable DespawnPatrol : SpawnPoint -> SpawnPoint.

Definition TriggerReinforcements (g : Game) (wave : Z) (sp : SpawnPoint)
  : SpawnPoint * list Call :=
  match GetWorld g with
  | None => (sp, [])
  | Some world =>
      if m_bSpawned sp then (sp, [])
      else
        let sp :=
          mkSpawnPoint (m_bSpawned sp) (m_Group sp)
            REINFORCEMENT_GROUP_COUNT (m_iRespawnPeriod sp)
            REINFORCEMENT_SPAWN_RADIUS
            (if wave =? 1 then Some FIRETEAM else Some SQUAD_RIFLE)
            (m_fRespawnTimestamp sp) (m_tCombatStartTime sp)
            (m_bReinforcementActive sp) wave
            (Some (GetServerTimestamp world)) true in
        let '(sp, despawn) :=
          match m_Group sp with
          | Some _ => (DespawnPatrol sp, [DespawnPatrolCalled])
          | None => (sp, [])
          end in
        (mkSpawnPoint (m_bSpawned sp) (m_Group sp) (m_iNum sp)
           (m_iRespawnPeriod sp) (m_fSpawnDisperson sp) (m_eGroupType sp)
           (Some (GetServerTimestamp world)) (m_tCombatStartTime sp)
           (m_bReinforcementActive sp) (m_iReinforcementWave sp)
           (m_tLastReinforcementTime sp) (m_bReinforcementSpawnPending sp),
         BroadcastReinforcementAlert wave :: despawn
         ++ [CallLaterCheckAndReset 15000])
  end.

Definition UpdateReinforcementState (g : Game) (combatActive : bool)
  (sp : SpawnPoint) : SpawnPoint * list Call :=
  match GetWorld g with
  | None => (sp, [])
  | Some world =>
      let currentTime := GetServerTimestamp world in
      let sp :=
        if combatActive && negb (m_bReinforcementActive sp)
        then mkSpawnPoint (m_bSpawned sp) (m_Group sp) (m_iNum sp)
               (m_iRespawnPeriod sp) (m_fSpawnDisperson sp)
               (m_eGroupType sp) (m_fRespawnTimestamp sp)
               (Some currentTime) true (m_iReinforcementWave sp)
               (m_tLastReinforcementTime sp)
               (m_bReinforcementSpawnPending sp)
        else sp in
      if negb combatActive && m_bReinforcementActive sp
      then (ResetReinforcementState sp, [])
      else if m_bReinforcementActive sp then
        match m_tCombatStartTime sp with
        | None => (sp, [])
        | Some startTime =>
            let combatDuration := DiffSeconds currentTime startTime in
            if inCooldown currentTime (m_tLastReinforcementTime sp)
            then (sp, [])
            else if (m_iReinforcementWave sp <? 2)
                    && Qle_bool (inject_Z REINFORCEMENT_WAVE2_THRESHOLD)
                                combatDuration
            then TriggerReinforcements g 2 sp
            else if (m_iReinforcementWave sp <? 1)
                    && Qle_bool (inject_Z REINFORCEMENT_WAVE1_THRESHOLD)
                                combatDuration
            then TriggerReinforcements g 1 sp
            else (sp, [])
        end
      else (sp, [])
  end.

(** What can happen to a spawn point: the state update of the periodic
    check, the delayed parameter reset, or a step of the base class (its
    spawn cycle spawning or losing the patrol). *)
Inductive Callback :=
| OnUpdate (g : Game) (combatActive : bool)
| OnCheckAndReset
| BaseClass (step : SpawnPoint -> SpawnPoint).

Definition dispatch (cb : Callback) (sp : SpawnPoint)
  : SpawnPoint * list Call :=
  match cb with
  | OnUpdate g combatActive => UpdateReinforcementState g combatActive sp
  | OnCheckAndReset => CheckAndResetReinforcementParams sp
  | BaseClass step => (step sp, [])
  end.

Fixpoint run (cbs : list Callback) (sp : SpawnPoint)
  : SpawnPoint * list Call :=
  match cbs with
  | [] => (sp, [])
  | cb :: rest =>
      let '(sp1, calls1) := dispatch cb sp in
      let '(sp2, calls2) := run rest sp1 in
      (sp2, calls1 ++ calls2)
  end.

(** A step of the base class that keeps the parameters this variant
    manages. *)
Definition keepsParameters (step : SpawnPoint -> SpawnPoint) : Prop :=
  forall sp,
    m_iNum (step sp) = m_iNum sp
    /\ m_eGroupType (step sp) = m_eGroupType sp
    /\ m_fSpawnDisperson (step sp) = m_fSpawnDisperson sp
    /\ m_bReinforcementSpawnPending (step sp)
       = m_bReinforcementSpawnPending sp.

(** A step of the base class that leaves a spawned patrol spawned. *)
Definition keepsPatrol (cb : Callback) : Prop :=
  match cb with
  | BaseClass step =>
      forall sp, m_bSpawned sp = true -> m_bSpawned (step sp) = true
  | _ => True
  end.

Definition isAlertCall (call : Call) : bool :=
  match call with
  | BroadcastReinforcementAlert _ => true
  | _ => false
  end.

Definition wellBehaved (cb : Callback) : Prop :=
  match cb with
  | BaseClass step => keepsParameters step
  | _ => True
  end.

End Framework.

(** The group type a trigger assigns for a wave. *)
Definition groupTypeOfWave (wave : Z) : SCR_EGroupType :=
  if wave =? 1 then FIRETEAM else SQUAD_RIFLE.

(** How one callback can change the spawn parameters: the group count stays
    or becomes 2; the group type stays unless an alert was broadcast, and is
    then the type of that wave; the dispersion is 200 afterwards only if a
    spawn is pending or nothing about it changed. *)
Definition paramsStep (sp sp1 : SpawnPoint) (calls1 : list Call) : Prop :=
  (m_iNum sp1 = m_iNum sp \/ m_iNum sp1 = 2)
  /\ ((Forall (fun call => isAlertCall call = false) calls1
       /\ m_eGroupType sp1 = m_eGroupType sp)
      \/ exists wave rest,
           calls1 = BroadcastReinforcementAlert wave :: rest
           /\ Forall (fun call => isAlertCall call = false) rest
           /\ m_eGroupType sp1 = Some (groupTypeOfWave wave))
  /\ (m_fSpawnDisperson sp1 = 200%Q ->
      m_bReinforcementSpawnPending sp1 = true
      \/ (m_fSpawnDisperson sp = 200%Q
          /\ m_bReinforcementSpawnPending sp1
             = m_bReinforcementSpawnPending sp)).

(** The wave of the last alert among some calls, if any. *)
Definition lastAlert (calls : list Call) : option Z :=
  fold_left (fun acc call =>
               match call with
               | BroadcastReinforcementAlert wave => Some wave
               | _ => acc
               end) calls None.

(** A base class whose [DespawnPatrol] drops the group, and whose spawn
    cycle spawns group 1. *)
Definition sampleDespawnPatrol (sp : SpawnPoint) : SpawnPoint :=
  mkSpawnPoint false None (m_iNum sp) (m_iRespawnPeriod sp)
    (m_fSpawnDisperson sp) (m_eGroupType sp) (m_fRespawnTimestamp sp)
    (m_tCombatStartTime sp) (m_bReinforcementActive sp)
    (m_iReinforcementWave sp) (m_tLastReinforcementTime sp)
    (m_bReinforcementSpawnPending sp).

Definition sampleSpawnCycle (sp : SpawnPoint) : SpawnPoint :=
  mkSpawnPoint true (Some 1%nat) (m_iNum sp) (m_iRespawnPeriod sp)
    (m_fSpawnDisperson sp) (m_eGroupType sp) (m_fRespawnTimestamp sp)
    (m_tCombatStartTime sp) (m_bReinforcementActive sp)
    (m_iReinforcementWave sp) (m_tLastReinforcementTime sp)
    (m_bReinforcementSpawnPending sp).

(** A spawn point after [EOnInit], with no patrol spawned yet. *)
Definition samplePoint : SpawnPoint :=
  EOnInit (mkSpawnPoint false None 0 0 50 None None None false 0 None false).

End SpawnCycle.

(** * Properties *)

(** ** Arithmetic of the time comparisons *)

Lemma Qltb_true_iff (x y : Q) : Qltb x y = true <-> (x < y)%Q.
Proof.
  unfold Qltb. rewrite negb_true_iff.
  split; intro H.
  - apply Qnot_le_lt. intro Hle. apply Qle_bool_iff in Hle. congruence.
  - destruct (Qle_bool y x) eqn:E; [|reflexivity].
    apply Qle_bool_iff in E. exfalso. exact (Qlt_not_le _ _ H E).
Qed.

Lemma DiffSeconds_lt (a b n : Z) :
  (DiffSeconds a b < inject_Z n)%Q <-> a - b < 1000 * n.
Proof. unfold DiffSeconds, Qlt, inject_Z. cbn [Qnum Qden]. lia. Qed.

Lemma DiffSeconds_ge (a b n : Z) :
  (inject_Z n <= DiffSeconds a b)%Q <-> 1000 * n <= a - b.
Proof. unfold DiffSeconds, Qle, inject_Z. cbn [Qnum Qden]. lia. Qed.

Lemma inCooldown_false_iff (now : Z) (last : option Z) :
  inCooldown now last = false <->
  (forall t, last = Some t -> 10000 <= now - t).
Proof.
  unfold inCooldown. destruct last as [t|].
  - split.
    + intros H t' [= <-].
      destruct (Z_lt_le_dec (now - t) 10000) as [Hlt|Hge]; [|exact Hge].
      assert (Qltb (DiffSeconds now t) COOLDOWN_SECONDS = true) as Ht.
      { apply Qltb_true_iff. apply (DiffSeconds_lt now t 10). lia. }
      congruence.
    + intros H. specialize (H t eq_refl).
      destruct (Qltb (DiffSeconds now t) COOLDOWN_SECONDS) eqn:E; [|reflexivity].
      apply Qltb_true_iff in E. apply (DiffSeconds_lt now t 10) in E. lia.
  - split; [intros _ t; discriminate | reflexivity].
Qed.

Lemma thresholdReached_iff (debug : bool) (d : Q) (w : Z) :
  thresholdReached debug d w = true <->
  (inject_Z (GetWaveThreshold debug w) <= d)%Q.
Proof. unfold thresholdReached. apply Qle_bool_iff. Qed.

(** ** Coordinator election *)

Lemma sameBase_true_iff (a : option BaseRef) (b : BaseRef) :
  sameBase a b = true <-> a = Some b.
Proof.
  destruct a as [x|]; simpl.
  - rewrite Nat.eqb_eq. split; congruence.
  - split; discriminate.
Qed.

Lemma memberIds_cons (b : BaseRef) (sp : IPC_SpawnPointComponent)
  (l : list IPC_SpawnPointComponent) :
  memberIds b (sp :: l) =
  (if isMember b sp
   then match sp with DefenderPoint d => [m_ownerId d] | OtherPoint _ => [] end
   else []) ++ memberIds b l.
Proof.
  unfold memberIds. simpl. destruct sp as [d|id]; simpl; [|reflexivity].
  destruct (sameBase (m_nearBase d) b); reflexivity.
Qed.

Lemma lowestIdForBase_min (b : BaseRef) (l : list IPC_SpawnPointComponent) :
  forall x : Z, lowestIdForBase b x l = fold_left Z.min (memberIds b l) x.
Proof.
  unfold lowestIdForBase.
  induction l as [|sp l IH]; intro x; [reflexivity|].
  rewrite memberIds_cons, fold_left_app. simpl fold_left at 1.
  rewrite IH. f_equal.
  destruct sp as [d|id]; simpl; [|reflexivity].
  destruct (sameBase (m_nearBase d) b); simpl; [|reflexivity].
  destruct (Z.ltb_spec (m_ownerId d) x); lia.
Qed.

Lemma fold_min_le_init (l : list Z) : forall x, fold_left Z.min l x <= x.
Proof.
  induction l as [|y l IH]; intro x; simpl; [lia|].
  specialize (IH (Z.min x y)). lia.
Qed.

Lemma fold_min_le_all (l : list Z) :
  forall x y, In y l -> fold_left Z.min l x <= y.
Proof.
  induction l as [|z l IH]; intros x y Hin; simpl in *; [contradiction|].
  destruct Hin as [->|Hin].
  - pose proof (fold_min_le_init l (Z.min x y)). lia.
  - apply IH, Hin.
Qed.

Lemma fold_min_in (l : list Z) :
  forall x, fold_left Z.min l x = x \/ In (fold_left Z.min l x) l.
Proof.
  induction l as [|y l IH]; intro x; simpl; [left; reflexivity|].
  destruct (IH (Z.min x y)) as [H|H].
  - rewrite H. destruct (Z.min_spec x y) as [[_ ->]|[_ ->]]; auto.
  - right; right; exact H.
Qed.

Lemma fold_min_fix_iff (l : list Z) (x : Z) :
  fold_left Z.min l x = x <-> (forall y, In y l -> x <= y).
Proof.
  split.
  - intros H y Hin. rewrite <- H. apply fold_min_le_all, Hin.
  - intros H. destruct (fold_min_in l x) as [E|Hin]; [exact E|].
    pose proof (fold_min_le_init l x). specialize (H _ Hin). lia.
Qed.

Lemma fold_min_perm (l l' : list Z) (x : Z) :
  Permutation l l' -> fold_left Z.min l x = fold_left Z.min l' x.
Proof.
  intro HP.
  assert (forall a b : list Z, Permutation a b ->
            fold_left Z.min a x <= fold_left Z.min b x) as Hle.
  { intros a b Hab. destruct (fold_min_in b x) as [E|Hin].
    - rewrite E. apply fold_min_le_init.
    - apply fold_min_le_all. apply (Permutation_in _ (Permutation_sym Hab)), Hin. }
  pose proof (Hle _ _ HP). pose proof (Hle _ _ (Permutation_sym HP)). lia.
Qed.

Lemma memberIds_perm (b : BaseRef) (l l' : list IPC_SpawnPointComponent) :
  Permutation l l' -> Permutation (memberIds b l) (memberIds b l').
Proof.
  induction 1 as [|sp l l' _ IH|sp1 sp2 l|l1 l2 l3 _ IH1 _ IH2].
  - constructor.
  - rewrite !memberIds_cons. apply Permutation_app_head, IH.
  - rewrite !memberIds_cons, !app_assoc.
    apply Permutation_app_tail, Permutation_app_comm.
  - exact (Permutation_trans IH1 IH2).
Qed.

Lemma member_in_ids (b : BaseRef) (l : list IPC_SpawnPointComponent)
  (d : Component) :
  In (DefenderPoint d) l -> m_nearBase d = Some b ->
  In (m_ownerId d) (memberIds b l).
Proof.
  intros Hin Hb. unfold memberIds. apply in_flat_map.
  exists (DefenderPoint d). split; [exact Hin|].
  apply sameBase_true_iff in Hb. rewrite Hb. left; reflexivity.
Qed.

Lemma ids_from_member (b : BaseRef) (l : list IPC_SpawnPointComponent)
  (id : Z) :
  In id (memberIds b l) ->
  exists d, In (DefenderPoint d) l /\ m_nearBase d = Some b /\ m_ownerId d = id.
Proof.
  unfold memberIds. rewrite in_flat_map. intros [sp [Hin Hid]].
  destruct sp as [d|]; [|contradiction].
  destruct (sameBase (m_nearBase d) b) eqn:E; [|contradiction].
  destruct Hid as [<-|[]]. exists d.
  apply sameBase_true_iff in E. auto.
Qed.

Lemma members_same_id (b : BaseRef) (l : list IPC_SpawnPointComponent) :
  NoDup (memberIds b l) ->
  forall d1 d2,
    In (DefenderPoint d1) l -> m_nearBase d1 = Some b ->
    In (DefenderPoint d2) l -> m_nearBase d2 = Some b ->
    m_ownerId d1 = m_ownerId d2 -> d1 = d2.
Proof.
  induction l as [|sp l IH]; intros Hnd d1 d2 H1 B1 H2 B2 Hid;
    [contradiction|].
  rewrite memberIds_cons in Hnd.
  destruct H1 as [E1|H1], H2 as [E2|H2].
  - congruence.
  - subst sp. simpl in Hnd.
    rewrite (proj2 (sameBase_true_iff _ _) B1) in Hnd. simpl in Hnd.
    apply NoDup_cons_iff in Hnd. destruct Hnd as [Hnot _].
    exfalso. apply Hnot. rewrite Hid. exact (member_in_ids b l d2 H2 B2).
  - subst sp. simpl in Hnd.
    rewrite (proj2 (sameBase_true_iff _ _) B2) in Hnd. simpl in Hnd.
    apply NoDup_cons_iff in Hnd. destruct Hnd as [Hnot _].
    exfalso. apply Hnot. rewrite <- Hid. exact (member_in_ids b l d1 H1 B1).
  - apply IH; auto. exact (NoDup_app_remove_l _ _ Hnd).
Qed.

Lemma elected_eq (g : Game) (l : list IPC_SpawnPointComponent)
  (b : BaseRef) (me : Component) :
  GetAutonomousSystem g = Some l -> l <> [] -> m_nearBase me = Some b ->
  elected g me =
  (m_ownerId me =? fold_left Z.min (memberIds b l) (m_ownerId me)).
Proof.
  intros Hg Hne Hb. unfold elected, InitializeReinforcementCoordinator.
  rewrite Hb, Hg. destruct l as [|sp l]; [congruence|].
  rewrite lowestIdForBase_min. reflexivity.
Qed.

Lemma elected_iff_minimum (g : Game) (l : list IPC_SpawnPointComponent)
  (b : BaseRef) (me : Component) :
  GetAutonomousSystem g = Some l -> l <> [] -> m_nearBase me = Some b ->
  (elected g me = true <->
   forall id, In id (memberIds b l) -> m_ownerId me <= id).
Proof.
  intros Hg Hne Hb. rewrite (elected_eq g l b me Hg Hne Hb), Z.eqb_eq.
  rewrite <- fold_min_fix_iff. split; congruence.
Qed.

(** C6: among the defender spawn points of a registry that are bound to the
    same base and have pairwise distinct ids, a member ends up coordinator
    exactly when its id is the minimum of the members' ids; exactly one
    member ends up coordinator; and running the election over a permutation
    of the registry marks the same members. *)
Theorem coordinator_is_minimum_identity
  (g : Game) (l : list IPC_SpawnPointComponent) (b : BaseRef) :
  GetAutonomousSystem g = Some l ->
  NoDup (memberIds b l) ->
  (exists d, In (DefenderPoint d) l /\ m_nearBase d = Some b) ->
  (forall me, In (DefenderPoint me) l -> m_nearBase me = Some b ->
     (elected g me = true <->
      forall other, In (DefenderPoint other) l -> m_nearBase other = Some b ->
                    m_ownerId me <= m_ownerId other))
  /\ (exists me, In (DefenderPoint me) l /\ m_nearBase me = Some b
        /\ elected g me = true
        /\ forall me', In (DefenderPoint me') l -> m_nearBase me' = Some b ->
                       elected g me' = true -> me' = me)
  /\ (forall g' l', GetAutonomousSystem g' = Some l' -> Permutation l l' ->
        forall me, In (DefenderPoint me) l -> m_nearBase me = Some b ->
                   elected g' me = elected g me).
Proof.
  intros Hg Hnd [d0 [Hd0 Hb0]].
  assert (l <> []) as Hne by (intro E; subst l; contradiction).
  assert (forall me, m_nearBase me = Some b ->
            (elected g me = true <->
             forall other, In (DefenderPoint other) l ->
                           m_nearBase other = Some b ->
                           m_ownerId me <= m_ownerId other)) as Hmin.
  { intros me Hb. rewrite (elected_iff_minimum g l b me Hg Hne Hb). split.
    - intros H other Hin Hbo. apply H. exact (member_in_ids b l other Hin Hbo).
    - intros H id Hid. destruct (ids_from_member b l id Hid) as [d [Hin [Hbd <-]]].
      apply H; assumption. }
  split; [intros me _ Hb; apply Hmin, Hb|]. split.
  - set (m := fold_left Z.min (memberIds b l) (m_ownerId d0)).
    assert (In m (memberIds b l)) as Hm.
    { subst m. destruct (fold_min_in (memberIds b l) (m_ownerId d0)) as [E|H].
      - rewrite E. exact (member_in_ids b l d0 Hd0 Hb0).
      - exact H. }
    destruct (ids_from_member b l m Hm) as [me [Hin [Hb Hid]]].
    assert (elected g me = true) as Hel.
    { apply (elected_iff_minimum g l b me Hg Hne Hb). intros id Hidin.
      rewrite Hid. subst m. apply fold_min_le_all, Hidin. }
    exists me. repeat split; auto.
    intros me' Hin' Hb' Hel'.
    apply (members_same_id b l Hnd); auto.
    pose proof (proj1 (Hmin me Hb) Hel me' Hin' Hb').
    pose proof (proj1 (Hmin me' Hb') Hel' me Hin Hb). lia.
  - intros g' l' Hg' HP me Hin Hb.
    assert (l' <> []) as Hne'.
    { intro E; subst l'. apply Permutation_sym, Permutation_nil in HP.
      contradiction. }
    rewrite (elected_eq g' l' b me Hg' Hne' Hb), (elected_eq g l b me Hg Hne Hb).
    rewrite (fold_min_perm _ _ _ (memberIds_perm b l l' HP)). reflexivity.
Qed.

(** ** Effects and fields of the wave orchestrator *)

Lemma wavesTriggered_app (a b : list Effect) :
  wavesTriggered (a ++ b) = wavesTriggered a ++ wavesTriggered b.
Proof. unfold wavesTriggered. apply flat_map_app. Qed.

Lemma wavesTriggered_deletes (l : list Effect) :
  Forall (fun e => isDelete e = true) l -> wavesTriggered l = [].
Proof.
  induction 1 as [|e l He _ IH]; [reflexivity|].
  destruct e; try discriminate. exact IH.
Qed.

Lemma wavesTriggered_spawns (l : list Effect) :
  Forall (fun e => isSpawnOrAlert e = true) l -> wavesTriggered l = [].
Proof.
  induction 1 as [|e l He _ IH]; [reflexivity|].
  destruct e; try discriminate; exact IH.
Qed.

Lemma despawnLoop_deletes (tracked : list EntityRef) :
  forall s, Forall (fun e => isDelete e = true) (snd (despawnLoop tracked s)).
Proof.
  induction tracked as [|e rest IH]; intro s; simpl; [constructor|].
  destruct (isAlive s e).
  - specialize (IH (removeEntity e s)).
    destruct (despawnLoop rest (removeEntity e s)) as [s' effs]. simpl in *.
    constructor; [reflexivity | exact IH].
  - apply IH.
Qed.

Lemma Despawn_spec (c : Component) (s : Sim) :
  let r := DespawnPreviousWaveGroups c s in
  combatState (resComponent r) = combatState c
  /\ m_aReinforcementGroups (resComponent r) = []
  /\ m_aReinforcementHelicopters (resComponent r) = []
  /\ Forall (fun e => isDelete e = true) (resEffects r).
Proof.
  unfold DespawnPreviousWaveGroups. simpl.
  pose proof (despawnLoop_deletes (m_aReinforcementGroups c) s) as H1.
  destruct (despawnLoop (m_aReinforcementGroups c) s) as [s1 e1].
  pose proof (despawnLoop_deletes (m_aReinforcementHelicopters c) s1) as H2.
  destruct (despawnLoop (m_aReinforcementHelicopters c) s1) as [s2 e2].
  simpl in *. repeat split. apply Forall_app; split; assumption.
Qed.

Example Remove_moves_last_into_place :
  Remove 0 [10; 11; 12]%nat = [12; 11]%nat
  /\ Remove 2 [10; 11; 12]%nat = [10; 11]%nat
  /\ Remove 3 [10; 11; 12]%nat = [10; 11; 12]%nat.
Proof. repeat split. Qed.

(** Groups 10 and 12 no longer exist; the clean-up leaves group 11. *)
Example cleanup_drops_dead_groups :
  m_aReinforcementGroups
    (fst (CleanupDeadReinforcementGroups (sampleGame 0 [])
            (set_aReinforcementGroups [10; 11; 12]%nat
               (sampleDefender 7 0%nat),
             mkSim [11%nat] 13)))
  = [11%nat].
Proof. reflexivity. Qed.

Lemma spawnedGroups_app (a b : list Effect) :
  spawnedGroups (a ++ b) = spawnedGroups a ++ spawnedGroups b.
Proof. unfold spawnedGroups. apply flat_map_app. Qed.

Lemma spawnedHelicopters_app (a b : list Effect) :
  spawnedHelicopters (a ++ b) = spawnedHelicopters a ++ spawnedHelicopters b.
Proof. unfold spawnedHelicopters. apply flat_map_app. Qed.

Lemma extends_refl (c : Component) (s : Sim) (effs : list Effect) :
  extends c s effs (c, s, effs).
Proof.
  split; [reflexivity|]. split; [apply incl_refl|].
  exists []. simpl. rewrite !app_nil_r. auto.
Qed.

Lemma extends_trans (c : Component) (s : Sim) (effs : list Effect)
  (r1 r2 : Result) :
  extends c s effs r1 ->
  extends (resComponent r1) (resSim r1) (resEffects r1) r2 ->
  extends c s effs r2.
Proof.
  intros [Hc1 [Hs1 [x1 [He1 [Hf1 [Hg1 Hh1]]]]]]
         [Hc2 [Hs2 [x2 [He2 [Hf2 [Hg2 Hh2]]]]]].
  split; [congruence|]. split; [eapply incl_tran; eassumption|].
  exists (x1 ++ x2). rewrite He2, He1, Hg2, Hg1, Hh2, Hh1.
  rewrite spawnedGroups_app, spawnedHelicopters_app, <- !app_assoc.
  repeat split. apply Forall_app; split; assumption.
Qed.

Lemma spawnAndTrack_extends (g : Game) (t : SCR_EGroupType)
  (c : Component) (s : Sim) (effs : list Effect) (n : nat) :
  extends c s effs (fst (spawnAndTrack g t ((c, s, effs), n))).
Proof.
  unfold spawnAndTrack, SpawnReinforcementGroup.
  destruct (IsEmpty (m_sPrefab c)); [simpl; rewrite ?app_nil_r; apply extends_refl|].
  destruct (m_Faction c); [|simpl; rewrite ?app_nil_r; apply extends_refl].
  destruct (m_nearBase c); [|simpl; rewrite ?app_nil_r; apply extends_refl].
  destruct (prefabValid g (m_sPrefab c));
    [|simpl; rewrite ?app_nil_r; apply extends_refl].
  simpl negb. cbv iota. unfold SpawnEntityPrefab.
  destruct (spawnSucceeds g (sim_calls s)); simpl.
  - split; [reflexivity|]. split; [apply incl_tl, incl_refl|].
    exists [SpawnedGroup (sim_calls s) (m_sPrefab c) t]. simpl. rewrite app_nil_r.
    repeat split. repeat constructor.
  - split; [reflexivity|]. split; [apply incl_refl|].
    exists []. simpl. rewrite !app_nil_r. auto.
Qed.

Lemma alertIfAny_extends (wave : Z) (c : Component) (s : Sim)
  (effs : list Effect) (n : nat) :
  extends c s effs (alertIfAny wave ((c, s, effs), n)).
Proof.
  unfold alertIfAny. destruct (0 <? n)%nat; [|apply extends_refl].
  split; [reflexivity|]. split; [apply incl_refl|].
  exists [BroadcastReinforcementAlert wave]. simpl. rewrite !app_nil_r.
  repeat split. repeat constructor.
Qed.

Lemma SpawnArmedHelicopter_extends (g : Game) (c : Component) (s : Sim)
  (effs : list Effect) :
  let '(_, (c', s', e)) := SpawnArmedHelicopter g c s in
  extends c s effs (c', s', effs ++ e).
Proof.
  unfold SpawnArmedHelicopter.
  destruct (m_nearBase c); [|simpl; rewrite ?app_nil_r; apply extends_refl].
  destruct (prefabValid g HELICOPTER_PREFAB_MI8MT);
    [|simpl; rewrite ?app_nil_r; apply extends_refl].
  simpl negb. cbv iota. unfold SpawnEntityPrefab.
  destruct (spawnSucceeds g (sim_calls s)).
  - split; [reflexivity|]. split; [apply incl_tl, incl_refl|].
    exists [SpawnedHelicopter (sim_calls s)]. simpl. rewrite app_nil_r.
    repeat split. repeat constructor.
  - rewrite app_nil_r. split; [reflexivity|]. split; [apply incl_refl|].
    exists []. simpl. rewrite !app_nil_r. auto.
Qed.

Lemma spawnWave_extends (g : Game) (wave : Z) (c : Component) (s : Sim)
  (effs : list Effect) :
  extends c s effs (spawnWave g wave (c, s, effs)).
Proof.
  unfold spawnWave.
  destruct (wave =? 4).
  - pose proof (SpawnArmedHelicopter_extends g c s effs) as H.
    destruct (SpawnArmedHelicopter g c s) as [[h|] [[c' s'] e]];
      (eapply extends_trans; [exact H|apply alertIfAny_extends]).
  - assert (forall t c0 s0 e0 n0 (acc : Result * nat),
              acc = ((c0, s0, e0), n0) ->
              extends c s effs (c0, s0, e0) ->
              extends c s effs (fst (spawnAndTrack g t acc))) as Hstep.
    { intros t c0 s0 e0 n0 acc -> H0.
      eapply extends_trans; [exact H0|apply spawnAndTrack_extends]. }
    assert (forall acc : Result * nat,
              extends c s effs (fst acc) ->
              extends c s effs (alertIfAny wave acc)) as Halert.
    { intros [[[c0 s0] e0] n0] H0.
      eapply extends_trans; [exact H0|apply alertIfAny_extends]. }
    destruct (wave =? 3).
    + apply Halert.
      destruct (spawnAndTrack g SQUAD_RIFLE (c, s, effs, 0%nat))
        as [[[c1 s1] e1] n1] eqn:E1.
      eapply Hstep; [reflexivity|].
      pose proof (spawnAndTrack_extends g SQUAD_RIFLE c s effs 0) as H1.
      rewrite E1 in H1. exact H1.
    + apply Halert. unfold REINFORCEMENT_GROUP_COUNT. simpl Nat.iter.
      apply spawnAndTrack_extends.
Qed.

(** ** One call of the state update *)

Arguments thresholdReached : simpl never.
Arguments inCooldown : simpl never.
Arguments spawnWave : simpl never.
Arguments DespawnPreviousWaveGroups : simpl never.

Lemma Trigger_no_world (d : bool) (g : Game) (wave : Z) (c : Component)
  (s : Sim) :
  GetWorld g = None -> TriggerReinforcements d g wave (c, s) = (c, s, []).
Proof. intro H. unfold TriggerReinforcements. rewrite H. reflexivity. Qed.

(** A trigger first despawns (in debug mode only), then records the time and
    the wave, then spawns. *)
Lemma Trigger_spec (d : bool) (g : Game) (wave : Z) (c : Component)
  (s : Sim) (w : ChimeraWorld) :
  GetWorld g = Some w ->
  exists c0 s0 dels,
    (c0, s0, dels)
    = (if d then DespawnPreviousWaveGroups c s else (c, s, []))
    /\ extends
         (set_iReinforcementWave wave
            (set_tLastReinforcementTime (Some (GetServerTimestamp w)) c0))
         s0 (dels ++ [WaveTriggered wave])
         (TriggerReinforcements d g wave (c, s)).
Proof.
  intro Hw. unfold TriggerReinforcements. rewrite Hw.
  destruct (if d then DespawnPreviousWaveGroups c s else (c, s, []))
    as [[c0 s0] dels] eqn:E.
  exists c0, s0, dels. split; [symmetry; exact E|]. apply spawnWave_extends.
Qed.

Lemma Trigger_combat (d : bool) (g : Game) (wave : Z) (c : Component)
  (s : Sim) (w : ChimeraWorld) :
  GetWorld g = Some w ->
  let r := TriggerReinforcements d g wave (c, s) in
  combatState (resComponent r)
  = (m_tCombatStartTime c, m_bReinforcementActive c, wave,
     Some (GetServerTimestamp w))
  /\ wavesTriggered (resEffects r) = [wave].
Proof.
  intros Hw r. subst r.
  destruct (Trigger_spec d g wave c s w Hw)
    as [c0 [s0 [dels [E [Hc [_ [extra [He [Hf _]]]]]]]]].
  assert (combatState c0 = combatState c
          /\ Forall (fun e => isDelete e = true) dels) as [Hc0 Hd].
  { destruct d.
    - destruct (Despawn_spec c s) as [H1 [_ [_ H2]]].
      rewrite <- E in H1, H2. auto.
    - inversion E; subst. auto. }
  split.
  - rewrite Hc. unfold combatState in *. simpl. congruence.
  - rewrite He, !wavesTriggered_app, (wavesTriggered_deletes _ Hd),
      (wavesTriggered_spawns _ Hf). reflexivity.
Qed.

Lemma Reset_combat (d : bool) (c : Component) (s : Sim) :
  let r := ResetReinforcementState d c s in
  combatState (resComponent r)
  = (m_tCombatStartTime c, false, 0, m_tLastReinforcementTime c)
  /\ wavesTriggered (resEffects r) = [].
Proof.
  unfold ResetReinforcementState. destruct d; [|split; reflexivity].
  match goal with
  | |- context [DespawnPreviousWaveGroups ?c1 s] =>
      destruct (Despawn_spec c1 s) as [H1 [_ [_ H2]]]
  end.
  cbv zeta. split; [rewrite H1; reflexivity|].
  apply wavesTriggered_deletes, H2.
Qed.

Ltac wave_order :=
  match goal with
  | Hthr : thresholdReached _ _ ?k = true,
    E : (_ <? ?k) && thresholdReached _ _ ?k = false |- _ =>
      rewrite Hthr, andb_true_r in E; apply Z.ltb_ge in E; lia
  end.

Ltac in_waves Hin :=
  simpl in Hin; destruct Hin as [<-|[<-|[<-|[]]]].

(** The cases of one call, read off the combat state before and after it and
    the waves it triggered. *)
Lemma Update_cases (d : bool) (g : Game) (combatActive : bool)
  (c : Component) (s : Sim) :
  let r := UpdateReinforcementState d g combatActive (c, s) in
  let c' := resComponent r in
  (GetWorld g = None /\ r = (c, s, []))
  \/ exists now, tickTime g = Some now /\
     ((combatActive = false /\ m_bReinforcementActive c = true
       /\ combatState c'
          = (m_tCombatStartTime c, false, 0, m_tLastReinforcementTime c)
       /\ wavesTriggered (resEffects r) = [])
      \/ (combatActive = false /\ m_bReinforcementActive c = false
          /\ r = (c, s, []))
      \/ (combatActive = true
          /\ wavesTriggered (resEffects r) = []
          /\ let start' := if m_bReinforcementActive c
                           then m_tCombatStartTime c else Some now in
             combatState c'
             = (start', true, m_iReinforcementWave c,
                m_tLastReinforcementTime c)
             /\ (start' = None
                 \/ inCooldown now (m_tLastReinforcementTime c) = true
                 \/ exists t0, start' = Some t0 /\
                      forall wv, In wv evaluatedWaves ->
                        m_iReinforcementWave c < wv ->
                        thresholdReached d (DiffSeconds now t0) wv = false))
      \/ (combatActive = true
          /\ exists wv t0,
               (if m_bReinforcementActive c
                then m_tCombatStartTime c else Some now) = Some t0
               /\ inCooldown now (m_tLastReinforcementTime c) = false
               /\ In wv evaluatedWaves
               /\ m_iReinforcementWave c < wv
               /\ thresholdReached d (DiffSeconds now t0) wv = true
               /\ (forall w', In w' evaluatedWaves ->
                     m_iReinforcementWave c < w' ->
                     thresholdReached d (DiffSeconds now t0) w' = true ->
                     w' <= wv)
               /\ combatState c' = (Some t0, true, wv, Some now)
               /\ wavesTriggered (resEffects r) = [wv])).
Proof.
  intros r c'. subst c' r. unfold UpdateReinforcementState, tickTime.
  destruct (GetWorld g) as [w|] eqn:Hw; [right|left; auto].
  exists (GetServerTimestamp w). split; [reflexivity|].
  set (now := GetServerTimestamp w).
  destruct combatActive, (m_bReinforcementActive c) eqn:Hact; simpl andb;
    cbv iota.
  - (* engaged, combat goes on *)
    rewrite Hact.
    destruct (m_tCombatStartTime c) as [t0|] eqn:Hstart.
    2:{ right; right; left. split; [reflexivity|]. split; [reflexivity|].
        split; [|left; reflexivity].
        unfold combatState, resComponent. simpl. rewrite Hact, Hstart.
        reflexivity. }
    destruct (inCooldown now (m_tLastReinforcementTime c)) eqn:Hcool.
    { right; right; left. split; [reflexivity|]. split; [reflexivity|].
      split; [|right; left; reflexivity].
      unfold combatState, resComponent. simpl. rewrite Hact, Hstart.
      reflexivity. }
    destruct ((m_iReinforcementWave c <? 3)
              && thresholdReached d (DiffSeconds now t0) 3) eqn:E3;
    [|destruct ((m_iReinforcementWave c <? 2)
                && thresholdReached d (DiffSeconds now t0) 2) eqn:E2;
      [|destruct ((m_iReinforcementWave c <? 1)
                  && thresholdReached d (DiffSeconds now t0) 1) eqn:E1]].
    4:{ right; right; left. split; [reflexivity|]. split; [reflexivity|].
        split.
        - unfold combatState, resComponent. simpl. rewrite Hact, Hstart.
          reflexivity.
        - right; right. exists t0. split; [reflexivity|].
          intros wv Hin Hlt.
          destruct (thresholdReached d (DiffSeconds now t0) wv) eqn:Hthr;
            [exfalso|reflexivity].
          in_waves Hin; wave_order. }
    all: right; right; right; split; [reflexivity|].
    all: match goal with
         | E : (_ <? ?k) && _ = true |- _ =>
             apply andb_true_iff in E; destruct E as [L T];
             apply Z.ltb_lt in L;
             destruct (Trigger_combat d g k c s w Hw) as [Hc Hwv];
             exists k, t0
         end.
    all: split; [reflexivity|]; split; [reflexivity|].
    all: split; [simpl; auto|]; split; [exact L|]; split; [exact T|].
    all: split; [intros w' Hin Hlt Hthr; in_waves Hin;
                 first [lia | wave_order]|].
    all: split; [rewrite Hc, Hstart, Hact; reflexivity|exact Hwv].
  - (* idle, combat starts *)
    simpl.
    destruct (inCooldown now (m_tLastReinforcementTime c)) eqn:Hcool.
    { right; right; left. split; [reflexivity|]. split; [reflexivity|].
      split; [reflexivity|]. right; left; reflexivity. }
    set (c1 := set_bReinforcementActive true
                 (set_tCombatStartTime (Some now) c)).
    destruct ((m_iReinforcementWave c <? 3)
              && thresholdReached d (DiffSeconds now now) 3) eqn:E3;
    [|destruct ((m_iReinforcementWave c <? 2)
                && thresholdReached d (DiffSeconds now now) 2) eqn:E2;
      [|destruct ((m_iReinforcementWave c <? 1)
                  && thresholdReached d (DiffSeconds now now) 1) eqn:E1]].
    4:{ right; right; left. split; [reflexivity|]. split; [reflexivity|].
        split; [reflexivity|].
        right; right. exists now. split; [reflexivity|].
        intros wv Hin Hlt.
        destruct (thresholdReached d (DiffSeconds now now) wv) eqn:Hthr;
          [exfalso|reflexivity].
        in_waves Hin; wave_order. }
    all: right; right; right; split; [reflexivity|].
    all: match goal with
         | E : (_ <? ?k) && _ = true |- _ =>
             apply andb_true_iff in E; destruct E as [L T];
             apply Z.ltb_lt in L;
             destruct (Trigger_combat d g k c1 s w Hw) as [Hc Hwv];
             exists k, now
         end.
    all: split; [reflexivity|]; split; [reflexivity|].
    all: split; [simpl; auto|]; split; [exact L|]; split; [exact T|].
    all: split; [intros w' Hin Hlt Hthr; in_waves Hin;
                 first [lia | wave_order]|].
    all: split; [exact Hc|exact Hwv].
  - (* engaged, combat stops *)
    rewrite Hact. simpl.
    destruct (Reset_combat d c s) as [Hc Hwv].
    left. repeat split; auto.
  - (* idle *)
    rewrite Hact. simpl. right; left. auto.
Qed.

(** ** Runs of the state update *)

Lemma combatState_inj (c : Component) a b w l :
  combatState c = (a, b, w, l) ->
  m_tCombatStartTime c = a /\ m_bReinforcementActive c = b
  /\ m_iReinforcementWave c = w /\ m_tLastReinforcementTime c = l.
Proof. unfold combatState. intros [= <- <- <- <-]. auto. Qed.

(** One call, seen from the wave counter. *)
Lemma step_wave (d : bool) (g : Game) (combatActive : bool) (c : Component)
  (s : Sim) :
  let c' := resComponent (UpdateReinforcementState d g combatActive (c, s)) in
  m_bReinforcementActive c = true ->
  (m_bReinforcementActive c' = true ->
   m_iReinforcementWave c <= m_iReinforcementWave c')
  /\ (m_bReinforcementActive c' = false -> m_iReinforcementWave c' = 0).
Proof.
  intros c' Hact. subst c'.
  destruct (Update_cases d g combatActive c s)
    as [[_ E]|[now [_ [H|[H|[H|H]]]]]].
  - rewrite E. unfold resComponent. simpl. split; [lia|congruence].
  - destruct H as [_ [_ [Hc _]]].
    apply combatState_inj in Hc. destruct Hc as [_ [Ha [Hw _]]].
    split; [congruence|auto].
  - destruct H as [_ [Hf _]]. congruence.
  - destruct H as [_ [_ [Hc _]]].
    apply combatState_inj in Hc. destruct Hc as [_ [Ha [Hw _]]].
    split; [lia|congruence].
  - destruct H as [_ [wv [t0 [_ [_ [_ [Hlt [_ [_ [Hc _]]]]]]]]]].
    apply combatState_inj in Hc. destruct Hc as [_ [Ha [Hw _]]].
    split; [lia|congruence].
Qed.

Lemma statesOf_step (d : bool) (ticks : list (Game * bool)) :
  forall (st : State) (i : nat) (a b : State),
    nth_error (statesOf d ticks st) i = Some a ->
    nth_error (statesOf d ticks st) (S i) = Some b ->
    exists g combatActive,
      b = fst (UpdateReinforcementState d g combatActive a).
Proof.
  unfold statesOf.
  induction ticks as [|[g ca] rest IH]; intros st i a b Ha Hb.
  - destruct i; discriminate.
  - destruct i as [|i].
    + simpl in Ha, Hb. inversion Ha; inversion Hb; subst. eauto.
    + simpl in Ha, Hb.
      apply (IH (fst (UpdateReinforcementState d g ca st)) i a b);
        simpl; assumption.
Qed.

(** C2: along any run of the state update, the wave counter does not go down
    from one tick to the next while the component stays active, nor over any
    stretch of ticks through which it stays active, and it is 0 after every
    tick that takes the component from active to inactive. *)
Theorem wave_counter_monotone_while_active
  (d : bool) (ticks : list (Game * bool)) (st0 : State) :
  (forall i j a b,
     (i <= j)%nat ->
     nth_error (statesOf d ticks st0) i = Some a ->
     nth_error (statesOf d ticks st0) j = Some b ->
     (forall k x, (i <= k <= j)%nat ->
                  nth_error (statesOf d ticks st0) k = Some x ->
                  m_bReinforcementActive (fst x) = true) ->
     m_iReinforcementWave (fst a) <= m_iReinforcementWave (fst b))
  /\ (forall i a b,
        nth_error (statesOf d ticks st0) i = Some a ->
        nth_error (statesOf d ticks st0) (S i) = Some b ->
        m_bReinforcementActive (fst a) = true ->
        m_bReinforcementActive (fst b) = false ->
        m_iReinforcementWave (fst b) = 0).
Proof.
  assert (forall i a b,
            nth_error (statesOf d ticks st0) i = Some a ->
            nth_error (statesOf d ticks st0) (S i) = Some b ->
            m_bReinforcementActive (fst a) = true ->
            (m_bReinforcementActive (fst b) = true ->
             m_iReinforcementWave (fst a) <= m_iReinforcementWave (fst b))
            /\ (m_bReinforcementActive (fst b) = false ->
                m_iReinforcementWave (fst b) = 0)) as Hstep.
  { intros i [c s] b Ha Hb Hact.
    destruct (statesOf_step d ticks st0 i (c, s) b Ha Hb) as [g [ca ->]].
    exact (step_wave d g ca c s Hact). }
  split.
  - intros i j a b Hij Ha Hb Hall.
    revert b Hb Hall. induction Hij as [|j Hij IH]; intros b Hb Hall.
    + rewrite Ha in Hb. inversion Hb. lia.
    + destruct (nth_error (statesOf d ticks st0) j) as [x|] eqn:Hx.
      2:{ apply nth_error_None in Hx.
          assert (nth_error (statesOf d ticks st0) (S j) = None) as Hn
            by (apply nth_error_None; lia).
          congruence. }
      assert (m_iReinforcementWave (fst a) <= m_iReinforcementWave (fst x)).
      { apply IH; [reflexivity|].
        intros k y Hk Hy. apply (Hall k y); [lia|exact Hy]. }
      assert (m_bReinforcementActive (fst x) = true) as Hxa
        by (apply (Hall j x); [lia|exact Hx]).
      assert (m_bReinforcementActive (fst b) = true) as Hba
        by (apply (Hall (S j) b); [lia|exact Hb]).
      pose proof (proj1 (Hstep j x b Hx Hb Hxa) Hba). lia.
  - intros i a b Ha Hb Hact Hina.
    exact (proj2 (Hstep i a b Ha Hb Hact) Hina).
Qed.

(** One call, seen from the last wave time. *)
Lemma step_last (d : bool) (g : Game) (combatActive : bool) (c : Component)
  (s : Sim) :
  let r := UpdateReinforcementState d g combatActive (c, s) in
  let c' := resComponent r in
  (fired g r = None
   /\ m_tLastReinforcementTime c' = m_tLastReinforcementTime c
   /\ (combatActive = true ->
       m_iReinforcementWave c' = m_iReinforcementWave c))
  \/ exists now w,
       fired g r = Some (now, w) /\ tickTime g = Some now
       /\ wavesTriggered (resEffects r) = [w]
       /\ combatActive = true
       /\ m_tLastReinforcementTime c' = Some now
       /\ (forall t, m_tLastReinforcementTime c = Some t -> t + 10000 <= now)
       /\ m_iReinforcementWave c < w
       /\ m_iReinforcementWave c' = w
       /\ m_bReinforcementActive c' = true.
Proof.
  intros r c'. subst c' r.
  destruct (Update_cases d g combatActive c s)
    as [[Hw E]|[now [Hnow [H|[H|[H|H]]]]]].
  - left. rewrite E. unfold fired, tickTime. rewrite Hw. auto.
  - destruct H as [Hca [_ [Hc Hwv]]].
    apply combatState_inj in Hc. destruct Hc as [_ [_ [_ Hl]]].
    left. unfold fired. rewrite Hnow, Hwv. repeat split; auto. congruence.
  - destruct H as [_ [_ E]]. left. rewrite E. unfold fired. rewrite Hnow.
    auto.
  - destruct H as [_ [Hwv [Hc _]]].
    apply combatState_inj in Hc. destruct Hc as [_ [_ [Hw Hl]]].
    left. unfold fired. rewrite Hnow, Hwv. auto.
  - destruct H as [Hca [wv [t0 [_ [Hcool [_ [Hlt [_ [_ [Hc Hwv]]]]]]]]]].
    apply combatState_inj in Hc. destruct Hc as [_ [Ha [Hw Hl]]].
    right. exists now, wv. unfold fired. rewrite Hnow, Hwv.
    repeat split; auto.
    intros t Ht. pose proof (proj1 (inCooldown_false_iff now _) Hcool t Ht).
    lia.
Qed.

Lemma fireLog_cons (d : bool) (g : Game) (ca : bool)
  (rest : list (Game * bool)) (st : State) :
  fireLog d ((g, ca) :: rest) st
  = fired g (UpdateReinforcementState d g ca st)
    :: fireLog d rest (fst (UpdateReinforcementState d g ca st)).
Proof. reflexivity. Qed.

Lemma finalState_cons (d : bool) (g : Game) (ca : bool)
  (rest : list (Game * bool)) (st : State) :
  finalState d ((g, ca) :: rest) st
  = finalState d rest (fst (UpdateReinforcementState d g ca st)).
Proof. reflexivity. Qed.

(** Whatever fires in a run fires at least 10 seconds after the last wave
    time the run started with. *)
Lemma cooldown_from_last (d : bool) (ticks : list (Game * bool)) :
  forall (st : State) (t0 : Z),
    m_tLastReinforcementTime (fst st) = Some t0 ->
    forall j tj wj,
      nth_error (fireLog d ticks st) j = Some (Some (tj, wj)) ->
      t0 + 10000 <= tj.
Proof.
  induction ticks as [|[g ca] rest IH]; intros [c s] t0 Hl j tj wj Hj.
  - destruct j; discriminate.
  - rewrite fireLog_cons in Hj.
    destruct (step_last d g ca c s)
      as [[Hf [Hl' _]]|[now [w [Hf [_ [_ [_ [Hl' [Hcd _]]]]]]]]].
    + destruct j as [|j]; cbn [nth_error] in Hj; [congruence|].
      apply (IH _ t0) in Hj; [exact Hj|].
      simpl in Hl. unfold resComponent in Hl'. congruence.
    + specialize (Hcd t0 Hl).
      destruct j as [|j]; cbn [nth_error] in Hj.
      * assert (tj = now) by congruence. lia.
      * apply (IH _ now) in Hj; [lia|exact Hl'].
Qed.

(** C4: a tick within 10 seconds of the recorded last wave time fires
    nothing, whatever the detector reported, and in any run two fired waves
    are at least 10 seconds apart. *)
Theorem no_wave_within_cooldown (d : bool) :
  (forall g combatActive c s now t,
     tickTime g = Some now ->
     m_tLastReinforcementTime c = Some t ->
     now - t < 10000 ->
     wavesTriggered
       (resEffects (UpdateReinforcementState d g combatActive (c, s))) = [])
  /\ (forall ticks st0 i j ti wi tj wj,
        (i < j)%nat ->
        nth_error (fireLog d ticks st0) i = Some (Some (ti, wi)) ->
        nth_error (fireLog d ticks st0) j = Some (Some (tj, wj)) ->
        ti + 10000 <= tj).
Proof.
  split.
  - intros g ca c s now t Hnow Hl Hlt.
    destruct (Update_cases d g ca c s)
      as [[_ E]|[now' [Hnow' [H|[H|[H|H]]]]]].
    + rewrite E. reflexivity.
    + tauto.
    + destruct H as [_ [_ E]]. rewrite E. reflexivity.
    + tauto.
    + destruct H as [_ [wv [t0 [_ [Hcool _]]]]].
      assert (now' = now) by congruence. subst now'.
      pose proof (proj1 (inCooldown_false_iff now _) Hcool t Hl). lia.
  - intros ticks. induction ticks as [|[g ca] rest IH];
      intros [c s] i j ti wi tj wj Hij Hi Hj.
    + destruct i; discriminate.
    + rewrite fireLog_cons in Hi, Hj.
      destruct j as [|j]; [lia|]. cbn [nth_error] in Hj.
      destruct i as [|i]; cbn [nth_error] in Hi.
      * destruct (step_last d g ca c s)
          as [[Hf _]|[now [w [Hf [_ [_ [_ [Hl' _]]]]]]]]; [congruence|].
        assert (ti = now) by congruence. subst ti.
        exact (cooldown_from_last d rest _ now Hl' j tj wj Hj).
      * eapply IH; [|exact Hi|exact Hj]. lia.
Qed.

(** One call, seen from the combat start time: an active component has a
    start time, which is either the one it had or the time of this tick. *)
Lemma step_start (d : bool) (g : Game) (combatActive : bool) (c : Component)
  (s : Sim) (P : Z -> Prop) :
  let c' := resComponent (UpdateReinforcementState d g combatActive (c, s)) in
  (m_bReinforcementActive c = true ->
   exists t, m_tCombatStartTime c = Some t /\ P t) ->
  m_bReinforcementActive c' = true ->
  exists t, m_tCombatStartTime c' = Some t /\ (P t \/ tickTime g = Some t).
Proof.
  intros c' Hinv Hact'. subst c'.
  destruct (Update_cases d g combatActive c s)
    as [[_ E]|[now [Hnow [H|[H|[H|H]]]]]].
  - rewrite E in *. unfold resComponent in *. simpl in *.
    destruct (Hinv Hact') as [t [Ht HP]]. eauto.
  - destruct H as [_ [_ [Hc _]]].
    apply combatState_inj in Hc. destruct Hc as [_ [Ha _]]. congruence.
  - destruct H as [_ [Hf E]]. rewrite E in Hact'.
    unfold resComponent in Hact'. simpl in Hact'. congruence.
  - destruct H as [_ [_ [Hc _]]].
    apply combatState_inj in Hc. destruct Hc as [Hs _].
    destruct (m_bReinforcementActive c).
    + destruct (Hinv eq_refl) as [t [Ht HP]]. exists t. split; [congruence|auto].
    + exists now. auto.
  - destruct H as [_ [wv [t0 [Hs0 [_ [_ [_ [_ [_ [Hc _]]]]]]]]]].
    apply combatState_inj in Hc. destruct Hc as [Hs _].
    exists t0. split; [exact Hs|].
    destruct (m_bReinforcementActive c).
    + destruct (Hinv eq_refl) as [t [Ht HP]]. left. congruence.
    + right. congruence.
Qed.

Lemma runUpdates_cons (d : bool) (g : Game) (ca : bool)
  (rest : list (Game * bool)) (st : State) :
  runUpdates d ((g, ca) :: rest) st
  = UpdateReinforcementState d g ca st
    :: runUpdates d rest (fst (UpdateReinforcementState d g ca st)).
Proof. reflexivity. Qed.

(** The start time of an active component is one it began the run with or
    the time of one of the ticks run so far. *)
Lemma start_since (d : bool) (ticks : list (Game * bool)) :
  forall (P : Z -> Prop) (st : State),
    (m_bReinforcementActive (fst st) = true ->
     exists t, m_tCombatStartTime (fst st) = Some t /\ P t) ->
    forall j rj,
      nth_error (runUpdates d ticks st) j = Some rj ->
      m_bReinforcementActive (resComponent rj) = true ->
      exists t, m_tCombatStartTime (resComponent rj) = Some t
                /\ (P t \/ exists m g ca,
                      (m <= j)%nat /\ nth_error ticks m = Some (g, ca)
                      /\ tickTime g = Some t).
Proof.
  induction ticks as [|[g ca] rest IH]; intros P [c s] Hinv j rj Hj Hact.
  - destruct j; discriminate.
  - rewrite runUpdates_cons in Hj.
    pose proof (step_start d g ca c s P Hinv) as Hstep.
    destruct j as [|j]; cbn [nth_error] in Hj.
    + inversion Hj; subst rj. destruct (Hstep Hact) as [t [Ht [HP|Hg]]].
      * eauto.
      * exists t. split; [exact Ht|]. right. exists 0%nat, g, ca.
        repeat split; auto.
    + destruct (IH (fun t => P t \/ tickTime g = Some t)
                   (fst (UpdateReinforcementState d g ca (c, s)))
                   Hstep j rj Hj Hact) as [t [Ht H]].
      exists t. split; [exact Ht|].
      destruct H as [[HP|Hg]|[m [g' [ca' [Hm [Hn Hg]]]]]].
      * left; exact HP.
      * right. exists 0%nat, g, ca. repeat split; auto. lia.
      * right. exists (S m), g', ca'. repeat split; auto. lia.
Qed.

Lemma reachable_result (d : bool) (ticks : list (Game * bool)) (st x : State) :
  In x (statesOf d ticks st) ->
  x = st \/ exists j rj, nth_error (runUpdates d ticks st) j = Some rj
                         /\ x = fst rj.
Proof.
  unfold statesOf. intros [E|Hin]; [left; auto|right].
  apply in_map_iff in Hin. destruct Hin as [rj [E Hin]].
  apply In_nth_error in Hin. destruct Hin as [j Hj]. eauto.
Qed.

(** C5 (as the code has it): a new component is inactive, and along any run
    that starts from a state in which an active component has a combat start
    time, an active component has a combat start time; the converse does not
    hold, since the call that takes the component from active to inactive
    leaves the combat start time as it was; and the call that takes an
    inactive component to active under combat, with the world resolved,
    overwrites whatever combat start time was left with the time of that
    call. *)
Theorem active_has_start (d : bool) :
  (forall id f prefab,
     m_bReinforcementActive (newComponent id f prefab) = false)
  /\ (forall ticks st0 x,
        (m_bReinforcementActive (fst st0) = true ->
         exists t, m_tCombatStartTime (fst st0) = Some t) ->
        In x (statesOf d ticks st0) ->
        m_bReinforcementActive (fst x) = true ->
        exists t, m_tCombatStartTime (fst x) = Some t)
  /\ (forall g combatActive c s,
        let c' := resComponent
                    (UpdateReinforcementState d g combatActive (c, s)) in
        m_bReinforcementActive c = true ->
        m_bReinforcementActive c' = false ->
        m_tCombatStartTime c' = m_tCombatStartTime c)
  /\ (forall g c s now,
        let c' := resComponent (UpdateReinforcementState d g true (c, s)) in
        tickTime g = Some now ->
        m_bReinforcementActive c = false ->
        m_bReinforcementActive c' = true
        /\ m_tCombatStartTime c' = Some now).
Proof.
  split; [reflexivity|]. split; [|split].
  - intros ticks st0 x Hinit Hin Hact.
    destruct (reachable_result d ticks _ x Hin) as [->|[j [rj [Hj ->]]]].
    + exact (Hinit Hact).
    + destruct (start_since d ticks (fun _ => True) st0) with (j := j) (rj := rj)
        as [t [Ht _]]; auto.
      * intro Ha. destruct (Hinit Ha) as [t Ht]. eauto.
      * eauto.
  - intros g ca c s c' Hact Hina. subst c'.
    destruct (Update_cases d g ca c s)
      as [[_ E]|[now [_ [H|[H|[H|H]]]]]].
    + rewrite E in *. reflexivity.
    + destruct H as [_ [_ [Hc _]]].
      apply combatState_inj in Hc. tauto.
    + destruct H as [_ [Hf _]]. congruence.
    + destruct H as [_ [_ [Hc _]]].
      apply combatState_inj in Hc. destruct Hc as [_ [Ha _]]. congruence.
    + destruct H as [_ [wv [t0 [_ [_ [_ [_ [_ [_ [Hc _]]]]]]]]]].
      apply combatState_inj in Hc. destruct Hc as [_ [Ha _]]. congruence.
  - intros g c s now c' Hnow Hina. subst c'.
    destruct (Update_cases d g true c s)
      as [[Hw _]|[now' [Hnow' [H|[H|[H|H]]]]]].
    + unfold tickTime in Hnow. rewrite Hw in Hnow. discriminate Hnow.
    + destruct H as [H _]. discriminate H.
    + destruct H as [H _]. discriminate H.
    + destruct H as [_ [_ [Hc _]]]. rewrite Hina in Hc.
      apply combatState_inj in Hc. destruct Hc as [Hs [Ha _]].
      split; [exact Ha|]. congruence.
    + destruct H as [_ [wv [t0 [Hs0 [_ [_ [_ [_ [_ [Hc _]]]]]]]]]].
      rewrite Hina in Hs0.
      apply combatState_inj in Hc. destruct Hc as [Hs [Ha _]].
      split; [exact Ha|]. congruence.
Qed.

(** C5, as stated, fails: after combat seen at second 0 and gone at second
    30 the component is inactive and still has its combat start time. *)
Lemma start_time_survives_reset :
  In (finalState SHIPPED_DEBUG_MODE skirmish (sampleDefender 7 0%nat, emptySim))
     (statesOf SHIPPED_DEBUG_MODE skirmish (sampleDefender 7 0%nat, emptySim))
  /\ m_bReinforcementActive
       (fst (finalState SHIPPED_DEBUG_MODE skirmish
               (sampleDefender 7 0%nat, emptySim))) = false
  /\ m_tCombatStartTime
       (fst (finalState SHIPPED_DEBUG_MODE skirmish
               (sampleDefender 7 0%nat, emptySim))) = Some 0.
Proof.
  split; [|split; vm_compute; reflexivity].
  right; right; left. vm_compute. reflexivity.
Qed.

Lemma last_monotone (d : bool) (ticks : list (Game * bool)) :
  forall (st : State) (t : Z),
    m_tLastReinforcementTime (fst st) = Some t ->
    exists t', m_tLastReinforcementTime (fst (finalState d ticks st)) = Some t'
               /\ t <= t'.
Proof.
  induction ticks as [|[g ca] rest IH]; intros [c s] t Hl.
  - exists t. split; [exact Hl|lia].
  - rewrite finalState_cons.
    destruct (step_last d g ca c s)
      as [[_ [Hl' _]]|[now [w [_ [_ [_ [_ [Hl' [Hcd _]]]]]]]]].
    + apply IH. simpl in Hl. unfold resComponent in Hl'. congruence.
    + specialize (Hcd t Hl).
      destruct (IH _ now Hl') as [t' [Ht' Hle]]. exists t'. split; [exact Ht'|lia].
Qed.

Lemma fired_then_last (d : bool) (ticks : list (Game * bool)) :
  forall (st : State) (ti wi : Z),
    In (Some (ti, wi)) (fireLog d ticks st) ->
    exists t', m_tLastReinforcementTime (fst (finalState d ticks st)) = Some t'
               /\ ti <= t'.
Proof.
  induction ticks as [|[g ca] rest IH]; intros [c s] ti wi Hin.
  - contradiction.
  - rewrite fireLog_cons in Hin. rewrite finalState_cons.
    destruct Hin as [Hf|Hin]; [|exact (IH _ ti wi Hin)].
    destruct (step_last d g ca c s)
      as [[Hf' _]|[now [w [Hf' [_ [_ [_ [Hl' _]]]]]]]]; [congruence|].
    assert (ti = now) by congruence. subst ti.
    exact (last_monotone d rest _ now Hl').
Qed.

Lemma fireLog_result (d : bool) (ticks : list (Game * bool)) :
  forall (st : State) (j : nat) (t w : Z),
    nth_error (fireLog d ticks st) j = Some (Some (t, w)) ->
    exists rj, nth_error (runUpdates d ticks st) j = Some rj
               /\ m_bReinforcementActive (resComponent rj) = true
               /\ m_iReinforcementWave (resComponent rj) = w
               /\ m_tLastReinforcementTime (resComponent rj) = Some t.
Proof.
  induction ticks as [|[g ca] rest IH]; intros [c s] j t w Hj.
  - destruct j; discriminate.
  - rewrite fireLog_cons in Hj. rewrite runUpdates_cons.
    destruct j as [|j]; cbn [nth_error] in *; [|exact (IH _ j t w Hj)].
    destruct (step_last d g ca c s)
      as [[Hf' _]|[now [w' [Hf' [_ [_ [_ [Hl' [_ [_ [Hw' Ha']]]]]]]]]]];
      [congruence|].
    assert (now = t /\ w' = w) as [-> ->] by (split; congruence).
    eexists. split; [reflexivity|]. auto.
Qed.

(** C10: the reset clears the active flag and the wave counter and keeps
    the last wave time; so when a wave fired at time [ti], the engagement
    ended, and a later engagement fires a wave at time [tj], then
    [tj >= ti + 10 s], although the combat start time in effect at [tj] is
    the time of a tick of the later engagement. *)
Theorem cooldown_spans_engagements (d : bool) :
  (forall c s,
     combatState (resComponent (ResetReinforcementState d c s))
     = (m_tCombatStartTime c, false, 0, m_tLastReinforcementTime c))
  /\ (forall ticks1 ticks2 st0 ti wi,
        In (Some (ti, wi)) (fireLog d ticks1 st0) ->
        m_bReinforcementActive (fst (finalState d ticks1 st0)) = false ->
        forall j tj wj,
          nth_error (fireLog d ticks2 (finalState d ticks1 st0)) j
          = Some (Some (tj, wj)) ->
          ti + 10000 <= tj
          /\ exists m g ca rj,
               (m <= j)%nat /\ nth_error ticks2 m = Some (g, ca)
               /\ nth_error (runUpdates d ticks2 (finalState d ticks1 st0)) j
                  = Some rj
               /\ m_tCombatStartTime (resComponent rj) = tickTime g).
Proof.
  split.
  - intros c s. exact (proj1 (Reset_combat d c s)).
  - intros ticks1 ticks2 st0 ti wi Hfired Hidle j tj wj Hj.
    destruct (fired_then_last d ticks1 st0 ti wi Hfired) as [t' [Hl Hle]].
    pose proof (cooldown_from_last d ticks2 _ t' Hl j tj wj Hj) as Hcd.
    split; [lia|].
    destruct (fireLog_result d ticks2 _ j tj wj Hj) as [rj [Hrj [Ha _]]].
    destruct (start_since d ticks2 (fun _ => False)
                (finalState d ticks1 st0)) with (j := j) (rj := rj)
      as [t [Ht [[]|[m [g [ca [Hm [Hn Hg]]]]]]]]; auto.
    + intro Habs. congruence.
    + exists m, g, ca, rj. repeat split; auto. congruence.
Qed.

(** While combat goes on, a fired wave exceeds the wave counter the run
    started with. *)
Lemma later_waves_higher (d : bool) (ticks : list (Game * bool)) :
  forall st : State,
    Forall (fun t => snd t = true) ticks ->
    forall j tj wj,
      nth_error (fireLog d ticks st) j = Some (Some (tj, wj)) ->
      m_iReinforcementWave (fst st) < wj.
Proof.
  induction ticks as [|[g ca] rest IH]; intros [c s] Hall j tj wj Hj.
  - destruct j; discriminate.
  - rewrite fireLog_cons in Hj.
    apply Forall_cons_iff in Hall. destruct Hall as [Hca Hall].
    simpl in Hca. subst ca.
    destruct (step_last d g true c s)
      as [[Hf [_ Hw]]|[now [w [Hf [_ [_ [_ [_ [_ [Hlt [Hw _]]]]]]]]]]].
    + destruct j as [|j]; cbn [nth_error] in Hj; [congruence|].
      specialize (IH _ Hall j tj wj Hj).
      specialize (Hw eq_refl). unfold resComponent in Hw. simpl. lia.
    + destruct j as [|j]; cbn [nth_error] in Hj.
      * assert (wj = w) by congruence. subst wj. exact Hlt.
      * specialize (IH _ Hall j tj wj Hj).
        unfold resComponent in Hw. simpl. lia.
Qed.

Lemma highest_applicable_fires (d : bool) (g : Game) (c : Component)
  (s : Sim) (now t0 : Z) :
  tickTime g = Some now ->
  m_bReinforcementActive c = true ->
  m_tCombatStartTime c = Some t0 ->
  inCooldown now (m_tLastReinforcementTime c) = false ->
  forall w,
    wavesTriggered
      (resEffects (UpdateReinforcementState d g true (c, s))) = [w]
    <-> (applicable d (m_iReinforcementWave c) (DiffSeconds now t0) w
         /\ forall w', applicable d (m_iReinforcementWave c)
                         (DiffSeconds now t0) w' -> w' <= w).
Proof.
  intros Hnow Hact Hstart Hcool w.
  destruct (Update_cases d g true c s)
    as [[Hw _]|[now' [Hnow' [H|[H|[H|H]]]]]].
  - unfold tickTime in Hnow. rewrite Hw in Hnow. discriminate.
  - destruct H as [Hf _]. discriminate.
  - destruct H as [Hf _]. discriminate.
  - assert (now' = now) by congruence. subst now'.
    destruct H as [_ [Hwv [_ Hno]]]. rewrite Hact, Hstart in Hno.
    destruct Hno as [Hn|[Hc|[t [Ht Hno]]]]; try congruence.
    assert (t = t0) by congruence. subst t.
    rewrite Hwv. split; [discriminate|].
    intros [[Hin [Hlt Hthr]] _]. exfalso.
    apply thresholdReached_iff in Hthr.
    rewrite (Hno w Hin Hlt) in Hthr. discriminate.
  - assert (now' = now) by congruence. subst now'.
    destruct H as [_ [wv [t [Ht [_ [Hin [Hlt [Hthr [Hmax [_ Hwv]]]]]]]]]].
    rewrite Hact, Hstart in Ht. assert (t = t0) by congruence. subst t.
    rewrite Hwv. split.
    + intros [= <-]. split.
      * split; [exact Hin|]. split; [exact Hlt|].
        apply thresholdReached_iff, Hthr.
      * intros w' [Hin' [Hlt' Hthr']]. apply Hmax; auto.
        apply thresholdReached_iff, Hthr'.
    + intros [[Hin' [Hlt' Hthr']] Hmax'].
      assert (w <= wv).
      { apply Hmax; auto. apply thresholdReached_iff, Hthr'. }
      assert (wv <= w).
      { apply Hmax'. split; [exact Hin|]. split; [exact Hlt|].
        apply thresholdReached_iff, Hthr. }
      f_equal. lia.
Qed.

(** The evaluated waves are the waves the state update can fire: whatever
    it fires is one of them, and each of them fires in some state. *)
Remark evaluated_waves_are_the_fired_ones :
  (forall d g combatActive c s w,
     In w (wavesTriggered
             (resEffects (UpdateReinforcementState d g combatActive (c, s)))) ->
     In w evaluatedWaves)
  /\ map (fun now =>
            wavesTriggered
              (resEffects
                 (UpdateReinforcementState SHIPPED_DEBUG_MODE
                    (sampleGame now [Some attacker]) true
                    (engagedDefender, emptySim))))
         [300000; 600000; 900000]
     = [[1]; [2]; [3]].
Proof.
  split; [|vm_compute; reflexivity].
  intros d g ca c s w Hin.
  destruct (Update_cases d g ca c s)
    as [[_ E]|[now [_ [H|[H|[H|H]]]]]].
  - rewrite E in Hin. contradiction.
  - destruct H as [_ [_ [_ Hwv]]]. rewrite Hwv in Hin. contradiction.
  - destruct H as [_ [_ E]]. rewrite E in Hin. contradiction.
  - destruct H as [_ [Hwv _]]. rewrite Hwv in Hin. contradiction.
  - destruct H as [_ [wv [t0 [_ [_ [Hc [_ [_ [_ [_ Hwv]]]]]]]]]].
    rewrite Hwv in Hin. destruct Hin as [<-|[]]. exact Hc.
Qed.

(** C3, as stated, fails: 1200 seconds into an engagement with no wave fired
    yet, wave 4 is a configured wave above the current one whose threshold
    (1200 seconds) has been reached, and the update fires wave 3. *)
Lemma wave_four_is_passed_over :
  In 4 configuredWaves
  /\ m_iReinforcementWave engagedDefender < 4
  /\ (inject_Z (GetWaveThreshold SHIPPED_DEBUG_MODE 4)
      <= DiffSeconds 1200000%Z 0%Z)%Q
  /\ wavesTriggered
       (resEffects
          (UpdateReinforcementState SHIPPED_DEBUG_MODE
             (sampleGame 1200000 [Some attacker]) true
             (engagedDefender, emptySim))) = [3].
Proof.
  split; [simpl; auto|]. split; [reflexivity|].
  split; [|vm_compute; reflexivity].
  apply DiffSeconds_ge. vm_compute. discriminate.
Qed.

(** C3 (as the code has it): on a tick of an engaged component outside the
    cooldown, a wave [w] fires exactly when [w] is the highest of the
    evaluated waves 1 to 3 above the current one whose threshold the elapsed
    combat time has reached; no call fires more than one wave; while combat
    goes on, every wave fired later is above the current one, so a skipped
    wave never fires in that engagement.  With the shipped thresholds, 625
    seconds into an engagement with no wave fired yet, wave 2 fires, and no
    wave fired later in the engagement is wave 1. *)
Theorem highest_reached_wave_fires :
  (forall d g c s now t0,
     tickTime g = Some now ->
     m_bReinforcementActive c = true ->
     m_tCombatStartTime c = Some t0 ->
     (forall t, m_tLastReinforcementTime c = Some t -> 10000 <= now - t) ->
     forall w,
       wavesTriggered
         (resEffects (UpdateReinforcementState d g true (c, s))) = [w]
       <-> (applicable d (m_iReinforcementWave c) (DiffSeconds now t0) w
            /\ forall w', applicable d (m_iReinforcementWave c)
                            (DiffSeconds now t0) w' -> w' <= w))
  /\ (forall d g combatActive c s,
        (List.length (wavesTriggered
                   (resEffects
                      (UpdateReinforcementState d g combatActive (c, s))))
         <= 1)%nat)
  /\ (forall d ticks st,
        Forall (fun t => snd t = true) ticks ->
        forall j tj wj,
          nth_error (fireLog d ticks st) j = Some (Some (tj, wj)) ->
          m_iReinforcementWave (fst st) < wj)
  /\ (forall g c s t0,
        tickTime g = Some (t0 + 625000) ->
        m_bReinforcementActive c = true ->
        m_tCombatStartTime c = Some t0 ->
        m_iReinforcementWave c = 0 ->
        m_tLastReinforcementTime c = None ->
        let r := UpdateReinforcementState SHIPPED_DEBUG_MODE g true (c, s) in
        wavesTriggered (resEffects r) = [2]
        /\ m_iReinforcementWave (resComponent r) = 2
        /\ forall ticks,
             Forall (fun t => snd t = true) ticks ->
             forall j tj wj,
               nth_error (fireLog SHIPPED_DEBUG_MODE ticks (fst r)) j
               = Some (Some (tj, wj)) ->
               2 < wj).
Proof.
  split.
  { intros d g c s now t0 Hnow Hact Hstart Hcool.
    apply highest_applicable_fires; auto.
    apply inCooldown_false_iff, Hcool. }
  split.
  { intros d g ca c s.
    destruct (step_last d g ca c s)
      as [[Hf _]|[now [w [_ [_ [Hwv _]]]]]].
    - unfold fired in Hf.
      destruct (Update_cases d g ca c s)
        as [[_ E]|[now [Hnow _]]].
      + rewrite E. simpl. lia.
      + rewrite Hnow in Hf.
        destruct (wavesTriggered
                    (resEffects (UpdateReinforcementState d g ca (c, s))));
          [simpl; lia|discriminate].
    - rewrite Hwv. simpl. lia. }
  split; [exact later_waves_higher|].
  intros g c s t0 Hnow Hact Hstart Hwave Hlast r.
  assert (wavesTriggered (resEffects r) = [2]) as Hfire.
  { subst r.
    apply (highest_applicable_fires SHIPPED_DEBUG_MODE g c s
             (t0 + 625000) t0 Hnow Hact Hstart).
    - rewrite Hlast. reflexivity.
    - rewrite Hwave. split.
      + split; [simpl; auto|]. split; [lia|].
        apply DiffSeconds_ge. vm_compute GetWaveThreshold. lia.
      + intros w' [Hin [_ Hthr]]. apply DiffSeconds_ge in Hthr.
        in_waves Hin; try lia.
        vm_compute GetWaveThreshold in Hthr. lia. }
  assert (m_iReinforcementWave (resComponent r) = 2) as Hw2.
  { subst r.
    destruct (step_last SHIPPED_DEBUG_MODE g true c s)
      as [[Hf _]|[now [w [_ [_ [Hwv [_ [_ [_ [_ [Hw _]]]]]]]]]]].
    - unfold fired in Hf. rewrite Hnow, Hfire in Hf. discriminate.
    - rewrite Hfire in Hwv. congruence. }
  split; [exact Hfire|]. split; [exact Hw2|].
  intros ticks Hall j tj wj Hj.
  pose proof (later_waves_higher SHIPPED_DEBUG_MODE ticks (fst r) Hall j tj wj Hj)
    as Hlt.
  unfold resComponent in Hw2. lia.
Qed.

(** ** Despawning and spawning at a trigger *)

Lemma isAlive_removeEntity (x e : EntityRef) (s : Sim) :
  e <> x -> isAlive (removeEntity x s) e = isAlive s e.
Proof.
  intro Hne. unfold isAlive, removeEntity. simpl.
  induction (sim_alive s) as [|y l IH]; [reflexivity|]. simpl.
  destruct (Nat.eqb_spec x y) as [->|Hxy]; simpl.
  - destruct (Nat.eqb_spec e y); [contradiction|]. exact IH.
  - rewrite IH. reflexivity.
Qed.

Lemma despawnLoop_alive_cases (tracked : list EntityRef) :
  forall (s : Sim) (e : EntityRef),
    isAlive s e = true ->
    In (DeleteRplEntity e) (snd (despawnLoop tracked s))
    \/ (isAlive (fst (despawnLoop tracked s)) e = true /\ ~ In e tracked).
Proof.
  induction tracked as [|x rest IH]; intros s e He; simpl.
  - right. auto.
  - destruct (isAlive s x) eqn:Hx.
    + destruct (Nat.eq_dec e x) as [->|Hne].
      * destruct (despawnLoop rest (removeEntity x s)). left. left. reflexivity.
      * specialize (IH (removeEntity x s) e).
        rewrite (isAlive_removeEntity x e s Hne) in IH. specialize (IH He).
        destruct (despawnLoop rest (removeEntity x s)) as [s' effs].
        simpl in *. destruct IH as [H|[H1 H2]]; [left; right; exact H|].
        right. split; [exact H1|]. intros [E|H]; [congruence|contradiction].
    + assert (e <> x) as Hne by (intro E; subst; congruence).
      destruct (IH s e He) as [H|[H1 H2]]; [left; exact H|].
      right. split; [exact H1|]. intros [E|H]; [congruence|contradiction].
Qed.

Lemma Despawn_deletes_alive (c : Component) (s : Sim) (e : EntityRef) :
  In e (m_aReinforcementGroups c ++ m_aReinforcementHelicopters c) ->
  isAlive s e = true ->
  In (DeleteRplEntity e) (resEffects (DespawnPreviousWaveGroups c s)).
Proof.
  intros Hin He. unfold DespawnPreviousWaveGroups.
  pose proof (despawnLoop_alive_cases (m_aReinforcementGroups c) s e He) as H1.
  destruct (despawnLoop (m_aReinforcementGroups c) s) as [s1 e1].
  simpl in H1.
  pose proof (despawnLoop_alive_cases (m_aReinforcementHelicopters c) s1 e)
    as H2.
  simpl.
  destruct (despawnLoop (m_aReinforcementHelicopters c) s1) as [s2 e2].
  simpl in *. unfold resEffects. simpl. apply in_or_app.
  destruct H1 as [H1|[Ha Hn]]; [left; exact H1|].
  destruct (H2 Ha) as [H|[_ Hn2]]; [right; exact H|].
  apply in_app_or in Hin. tauto.
Qed.

(** C1 (as the code has it): the effects of a trigger are deletions, then
    the record of the wave, then spawns and the alert, in this order.  With
    [DEBUG_MODE] set, every tracked group and helicopter that still exists is
    deleted and the lists afterwards hold what this trigger spawned and
    nothing else.  With [DEBUG_MODE] unset, as the source ships, nothing is
    deleted and nothing stops existing: the lists keep what they held and
    what this trigger spawned is appended. *)
Theorem trigger_despawns_in_debug_mode_only
  (d : bool) (g : Game) (wave : Z) (c : Component) (s : Sim)
  (w : ChimeraWorld) :
  GetWorld g = Some w ->
  let r := TriggerReinforcements d g wave (c, s) in
  exists dels tail,
    resEffects r = dels ++ WaveTriggered wave :: tail
    /\ Forall (fun e => isDelete e = true) dels
    /\ Forall (fun e => isSpawnOrAlert e = true) tail
    /\ (d = true ->
        (forall e,
           In e (m_aReinforcementGroups c ++ m_aReinforcementHelicopters c) ->
           isAlive s e = true -> In (DeleteRplEntity e) dels)
        /\ m_aReinforcementGroups (resComponent r) = spawnedGroups tail
        /\ m_aReinforcementHelicopters (resComponent r)
           = spawnedHelicopters tail)
    /\ (d = false ->
        dels = []
        /\ incl (sim_alive s) (sim_alive (resSim r))
        /\ m_aReinforcementGroups (resComponent r)
           = m_aReinforcementGroups c ++ spawnedGroups tail
        /\ m_aReinforcementHelicopters (resComponent r)
           = m_aReinforcementHelicopters c ++ spawnedHelicopters tail).
Proof.
  intros Hw r. subst r.
  destruct (Trigger_spec d g wave c s w Hw)
    as [c0 [s0 [dels [E [_ [Hs [extra [He [Hf [Hg Hh]]]]]]]]]].
  exists dels, extra. rewrite He, <- app_assoc. simpl.
  split; [reflexivity|].
  destruct d.
  - destruct (Despawn_spec c s) as [_ [G0 [H0 Hd]]].
    rewrite <- E in G0, H0, Hd. unfold resComponent, resEffects in *.
    simpl in *. split; [exact Hd|]. split; [exact Hf|].
    split; [|discriminate]. intros _. split.
    + intros e Hin Ha. pose proof (Despawn_deletes_alive c s e Hin Ha) as H.
      rewrite <- E in H. exact H.
    + rewrite Hg, Hh, G0, H0. auto.
  - inversion E; subst c0 s0 dels.
    split; [constructor|]. split; [exact Hf|].
    split; [discriminate|]. intros _. auto.
Qed.

(** C1, as stated, fails: in the shipped configuration, with combat seen at
    seconds 0, 301 and 601, wave 1 spawns group 0 and wave 2 spawns group 1
    without any deletion; afterwards both groups are tracked and exist. *)
Lemma waves_stack_in_shipped_configuration :
  map resEffects
      (runChecks SHIPPED_DEBUG_MODE (map fst siege)
                 (sampleDefender 7 0%nat, emptySim))
  = [ [];
      [WaveTriggered 1; SpawnedGroup 0%nat "Group_OPFOR.et" FIRETEAM;
       BroadcastReinforcementAlert 1];
      [WaveTriggered 2; SpawnedGroup 1%nat "Group_OPFOR.et" SQUAD_RIFLE;
       BroadcastReinforcementAlert 2] ]
  /\ map (fun r => m_aReinforcementGroups (resComponent r))
         (runChecks SHIPPED_DEBUG_MODE (map fst siege)
                    (sampleDefender 7 0%nat, emptySim))
     = [ []; [0%nat]; [0%nat; 1%nat] ]
  /\ map (fun r => sim_alive (resSim r))
         (runChecks SHIPPED_DEBUG_MODE (map fst siege)
                    (sampleDefender 7 0%nat, emptySim))
     = [ []; [0%nat]; [1%nat; 0%nat] ].
Proof. repeat split; vm_compute; reflexivity. Qed.

(** ** Combat detection *)

Lemma sameFaction_true_iff (a b : option Faction) :
  sameFaction a b = true <-> a = b.
Proof.
  destruct a as [x|], b as [y|]; simpl; try (split; congruence).
  rewrite Nat.eqb_eq. split; congruence.
Qed.

Lemma attackerInRange_iff (myFaction : option Faction) (basePos : vector)
  (p : option IEntity) :
  attackerInRange myFaction basePos p = true
  <-> exists e, p = Some e
                /\ hostileAliveWithin myFaction basePos
                                      COMBAT_DETECTION_RANGE e.
Proof.
  unfold attackerInRange, hostileAliveWithin.
  destruct p as [e|]; [|split; [discriminate|intros [e [E _]]; discriminate]].
  split.
  - intro H. exists e. split; [reflexivity|].
    destruct (ent_controller e) as [[|]|]; try discriminate.
    destruct (ent_character e) as [[f|]|]; try discriminate.
    destruct (sameFaction (Some f) myFaction) eqn:Hs; try discriminate.
    split; [reflexivity|]. split.
    + exists f. split; [reflexivity|]. intro E.
      apply sameFaction_true_iff in E. congruence.
    + exact H.
  - intros [e' [[= <-] [Hc [[f [Hf Hne]] Hd]]]].
    rewrite Hc, Hf.
    destruct (sameFaction (Some f) myFaction) eqn:Hs.
    + apply sameFaction_true_iff in Hs. contradiction.
    + exact Hd.
Qed.

Lemma detectLoop_iff (myFaction : option Faction) (basePos : vector)
  (players : list (option IEntity)) :
  detectLoop myFaction basePos players = true
  <-> exists e, In (Some e) players
                /\ hostileAliveWithin myFaction basePos
                                      COMBAT_DETECTION_RANGE e.
Proof.
  induction players as [|p rest IH]; simpl.
  - split; [discriminate|intros [e [[] _]]].
  - destruct (attackerInRange myFaction basePos p) eqn:Hp.
    + split; [intros _|reflexivity].
      apply attackerInRange_iff in Hp. destruct Hp as [e [-> He]].
      exists e. auto.
    + rewrite IH. split.
      * intros [e [Hin He]]. exists e. auto.
      * intros [e [[->|Hin] He]]; [|exists e; auto].
        assert (attackerInRange myFaction basePos (Some e) = true) as Ht
          by (apply attackerInRange_iff; eauto).
        congruence.
Qed.

(** C7 (as the code has it): the detector answers [true] exactly when the
    base is resolved, its faction is resolved and is the defenders' faction,
    the player manager is resolved, and some player-controlled entity is
    alive, hostile and at a squared distance from the base that, computed in
    the script's floats, is strictly below the float 300 * 300; it answers
    [false] when the base, the base's faction or the player manager is
    missing. *)
Theorem detector_true_iff_hostile_in_range (g : Game) (c : Component) :
  (DetectCombatAtBase g c = true
   <-> exists b f players e,
         m_nearBase c = Some b
         /\ base_GetFaction g b = Some f
         /\ m_Faction c = Some f
         /\ GetPlayerManager g = Some players
         /\ In (Some e) players
         /\ hostileAliveWithin (m_Faction c) (base_GetOrigin g b)
                               COMBAT_DETECTION_RANGE e)
  /\ (m_nearBase c = None -> DetectCombatAtBase g c = false)
  /\ (forall b, m_nearBase c = Some b -> base_GetFaction g b = None ->
                DetectCombatAtBase g c = false)
  /\ (GetPlayerManager g = None -> DetectCombatAtBase g c = false).
Proof.
  unfold DetectCombatAtBase. repeat split.
  - destruct (m_nearBase c) as [b|]; [|discriminate].
    destruct (base_GetFaction g b) as [f|] eqn:Hf; [|discriminate].
    destruct (sameFaction (Some f) (m_Faction c)) eqn:Hs; [|discriminate].
    simpl. destruct (GetPlayerManager g) as [players|]; [|discriminate].
    intro H. apply detectLoop_iff in H. destruct H as [e [Hin He]].
    apply sameFaction_true_iff in Hs.
    exists b, f, players, e. repeat split; auto; apply He.
  - intros [b [f [players [e [Hb [Hf [Hm [Hp [Hin He]]]]]]]]].
    rewrite Hb, Hf, Hp.
    rewrite (proj2 (sameFaction_true_iff (Some f) (m_Faction c)))
      by congruence.
    simpl. apply detectLoop_iff. eauto.
  - intros ->. reflexivity.
  - intros b -> ->. reflexivity.
  - intros ->. destruct (m_nearBase c) as [b|]; [|reflexivity].
    destruct (base_GetFaction g b) as [f|]; [|reflexivity].
    destruct (sameFaction (Some f) (m_Faction c)); reflexivity.
Qed.

(** C7, as stated, fails at the edge of the range.  With the base held by
    the defenders' faction, a hostile player that is alive and, in exact
    arithmetic, less than 300 units from the base is not detected when the
    float difference of the coordinates rounds to 300; neither is a hostile
    player that is alive and exactly 300 units from the base. *)
Lemma player_inside_range_is_missed :
  (base_GetFaction (offsetGame 0 [Some grazingPlayer]) 0%nat
   = m_Faction (sampleDefender 7 0%nat)
   /\ ent_controller grazingPlayer = Some false
   /\ ent_character grazingPlayer = Some (Some 2%nat)
   /\ match exactDistanceSq (ent_origin grazingPlayer) offsetPosition with
      | Some d => (d < 300 * 300)%Q
      | None => False
      end
   /\ DetectCombatAtBase (offsetGame 0 [Some grazingPlayer])
                         (sampleDefender 7 0%nat) = false)
  /\ (ent_controller rimPlayer = Some false
      /\ ent_character rimPlayer = Some (Some 2%nat)
      /\ match exactDistanceSq (ent_origin rimPlayer) origin with
         | Some d => (d == 300 * 300)%Q
         | None => False
         end
      /\ DetectCombatAtBase (sampleGame 0 [Some rimPlayer])
                            (sampleDefender 7 0%nat) = false).
Proof. repeat split; vm_compute; reflexivity. Qed.

(** ** The lifecycle guard *)

Lemma frontlineLoop_iff (g : Game) (ourPos : vector)
  (enemyBases : list BaseRef) :
  frontlineLoop g ourPos enemyBases = true
  <-> exists eb, In eb enemyBases
                 /\ float_ltb (Distance ourPos (base_GetOrigin g eb))
                              FRONTLINE_RANGE = true.
Proof.
  induction enemyBases as [|x rest IH]; simpl.
  - split; [discriminate|intros [eb [[] _]]].
  - unfold DistanceLt at 1.
    destruct (float_ltb (Distance ourPos (base_GetOrigin g x))
                        FRONTLINE_RANGE) eqn:Hx.
    + split; [intros _|reflexivity]. eauto.
    + rewrite IH. split.
      * intros [eb [Hin H]]. eauto.
      * intros [eb [[->|Hin] H]]; [|eauto]. congruence.
Qed.

Lemma IsBaseOnFrontline_faction (g : Game) (c c' : Component) (b : BaseRef) :
  m_Faction c = m_Faction c' ->
  IsBaseOnFrontline g c b = IsBaseOnFrontline g c' b.
Proof. intro H. unfold IsBaseOnFrontline. rewrite H. reflexivity. Qed.

(** C8: for a resolved base that is not friendly-held the guard answers
    [true] and leaves the component as it is, whatever the snapshot says
    about the frontline and whatever the inactivity timer holds; and
    [UpdateTarget] marks such a base as near target. *)
Theorem enemy_held_base_always_active :
  (forall g c b,
     m_nearBase c = Some b ->
     IsBaseFriendly g b = false ->
     ShouldKeepDefendersActive g c = (true, c))
  /\ (forall super_PrepareBase g c b,
        let c1 := fst (PrepareBase super_PrepareBase g c) in
        m_bBaseReady c1 = true ->
        m_nearBase c1 = Some b ->
        IsBaseFriendly g b = false ->
        m_bIsNearTarget (UpdateTarget super_PrepareBase g c) = true
        /\ m_tInactiveSince (UpdateTarget super_PrepareBase g c)
           = m_tInactiveSince c1).
Proof.
  split.
  - intros g c b Hb Hf. unfold ShouldKeepDefendersActive.
    rewrite Hb, Hf. reflexivity.
  - intros super g c b c1 Hready Hb Hf. subst c1. unfold UpdateTarget.
    rewrite Hready, Hb, Hf. simpl. auto.
Qed.

(** What the inactivity timer stands for after the guard has run over
    [pre]: the time of a snapshot of [pre] since which no snapshot was
    classified frontline. *)
Lemma guard_invariant (c0 : Component) (b : BaseRef) :
  m_nearBase c0 = Some b ->
  m_tInactiveSince c0 = None ->
  forall pre,
    m_nearBase (guardState pre c0) = Some b
    /\ m_Faction (guardState pre c0) = m_Faction c0
    /\ forall t,
         m_tInactiveSince (guardState pre c0) = Some t ->
         exists pre1 gi mid,
           pre = pre1 ++ gi :: mid
           /\ tickTime gi = Some t
           /\ Forall (fun gk => observedFrontline gk c0 b = false)
                     (gi :: mid).
Proof.
  intros Hb Ht0 pre. induction pre as [|g pre IH] using rev_ind.
  - simpl. repeat split; auto. intros t Ht. congruence.
  - destruct IH as [Hnb [Hfac Hinv]].
    unfold guardState in *. rewrite fold_left_app. simpl.
    set (c := fold_left (fun c g => snd (ShouldKeepDefendersActive g c))
                        pre c0) in *.
    assert (forall t,
              m_tInactiveSince c = Some t ->
              observedFrontline g c0 b = false ->
              exists pre1 gi mid,
                pre ++ [g] = pre1 ++ gi :: mid
                /\ tickTime gi = Some t
                /\ Forall (fun gk => observedFrontline gk c0 b = false)
                          (gi :: mid)) as Hext.
    { intros t Ht Hg. destruct (Hinv t Ht) as [pre1 [gi [mid [E [Hgi Hall]]]]].
      exists pre1, gi, (mid ++ [g]). split.
      - rewrite E, <- app_assoc. reflexivity.
      - split; [exact Hgi|].
        change (gi :: mid ++ [g]) with ((gi :: mid) ++ [g]).
        apply Forall_app. split; [exact Hall|]. constructor; auto. }
    unfold ShouldKeepDefendersActive. rewrite Hnb.
    unfold observedFrontline in Hext.
    rewrite (IsBaseOnFrontline_faction g c0 c b (eq_sym Hfac)) in Hext.
    destruct (IsBaseFriendly g b) eqn:Hfr; simpl.
    2:{ repeat split; auto. }
    destruct (IsBaseOnFrontline g c b) eqn:Hfl; simpl.
    { repeat split; auto. intros t Ht. discriminate. }
    destruct (GetWorld g) as [w|] eqn:Hw; simpl.
    2:{ repeat split; auto. }
    destruct (m_tInactiveSince c) as [since|] eqn:Hs.
    + destruct (Qle_bool (inject_Z INACTIVE_GRACE_PERIOD)
                         (DiffSeconds (GetServerTimestamp w) since));
        simpl; repeat split; auto; rewrite Hs; intros t Ht; apply Hext; auto.
    + simpl. repeat split; auto. intros t [= <-].
      exists pre, g, []. split; [reflexivity|].
      split; [unfold tickTime; rewrite Hw; reflexivity|].
      constructor; [|constructor].
      unfold observedFrontline.
      rewrite (IsBaseOnFrontline_faction g c0 c b (eq_sym Hfac)), Hfr, Hfl.
      reflexivity.
Qed.

(** C9 (as the code has it): for a resolved base, with the timer unset at
    the start, the guard answers [false] only on a friendly-held base at a
    snapshot that comes at least 600 seconds after an earlier one, with no
    snapshot from that one on classified frontline; a snapshot classified
    frontline clears the timer and is answered [true]; with the
    collaborators resolved, frontline means an enemy base at a distance
    that, computed in the script's floats, is strictly below 2000; and with
    any collaborator missing the base is classified frontline. *)
Theorem guard_false_only_after_grace_period :
  (forall pre g c0 b,
     m_nearBase c0 = Some b ->
     m_tInactiveSince c0 = None ->
     fst (ShouldKeepDefendersActive g (guardState pre c0)) = false ->
     IsBaseFriendly g b = true
     /\ exists pre1 gi mid ti tj,
          pre = pre1 ++ gi :: mid
          /\ tickTime gi = Some ti /\ tickTime g = Some tj
          /\ 600000 <= tj - ti
          /\ Forall (fun gk => observedFrontline gk c0 b = false)
                    (gi :: mid ++ [g]))
  /\ (forall g c b,
        m_nearBase c = Some b ->
        IsBaseFriendly g b = true ->
        IsBaseOnFrontline g c b = true ->
        ShouldKeepDefendersActive g c = (true, set_tInactiveSince None c))
  /\ (forall g c b gameMode baseManager factionManager ourFaction enemyFaction,
        GetGameMode g = Some gameMode ->
        GetBaseManager gameMode = Some baseManager ->
        GetFactionManager g = Some factionManager ->
        castCampaignFaction g (m_Faction c) = Some ourFaction ->
        GetEnemyFaction factionManager ourFaction = Some enemyFaction ->
        (IsBaseOnFrontline g c b = true
         <-> exists eb, In eb (GetBases baseManager enemyFaction)
                        /\ float_ltb
                             (Distance (base_GetOrigin g b)
                                       (base_GetOrigin g eb))
                             FRONTLINE_RANGE = true))
  /\ (forall g c b,
        GetGameMode g = None
        \/ (exists gameMode, GetGameMode g = Some gameMode
                             /\ GetBaseManager gameMode = None)
        \/ GetFactionManager g = None
        \/ castCampaignFaction g (m_Faction c) = None
        \/ (exists factionManager ourFaction,
              GetFactionManager g = Some factionManager
              /\ castCampaignFaction g (m_Faction c) = Some ourFaction
              /\ GetEnemyFaction factionManager ourFaction = None) ->
        IsBaseOnFrontline g c b = true).
Proof.
  split; [|split; [|split]].
  - intros pre g c0 b Hb Ht0 Hfalse.
    destruct (guard_invariant c0 b Hb Ht0 pre) as [Hnb [Hfac Hinv]].
    set (c := guardState pre c0) in *.
    unfold ShouldKeepDefendersActive in Hfalse. rewrite Hnb in Hfalse.
    destruct (IsBaseFriendly g b) eqn:Hfr; simpl in Hfalse; [|discriminate].
    destruct (IsBaseOnFrontline g c b) eqn:Hfl; simpl in Hfalse;
      [discriminate|].
    destruct (GetWorld g) as [w|] eqn:Hw; [|discriminate].
    destruct (m_tInactiveSince c) as [since|] eqn:Hs; [|discriminate].
    destruct (Qle_bool (inject_Z INACTIVE_GRACE_PERIOD)
                       (DiffSeconds (GetServerTimestamp w) since)) eqn:Hq;
      [|discriminate].
    split; [reflexivity|].
    destruct (Hinv since eq_refl) as [pre1 [gi [mid [E [Hgi Hall]]]]].
    exists pre1, gi, mid, since, (GetServerTimestamp w).
    split; [exact E|]. split; [exact Hgi|].
    split; [unfold tickTime; rewrite Hw; reflexivity|]. split.
    + apply Qle_bool_iff, DiffSeconds_ge in Hq.
      unfold INACTIVE_GRACE_PERIOD in Hq. lia.
    + change (gi :: mid ++ [g]) with ((gi :: mid) ++ [g]).
      apply Forall_app. split; [exact Hall|]. constructor; [|constructor].
      unfold observedFrontline.
      rewrite (IsBaseOnFrontline_faction g c0 c b (eq_sym Hfac)), Hfr, Hfl.
      reflexivity.
  - intros g c b Hb Hfr Hfl. unfold ShouldKeepDefendersActive.
    rewrite Hb, Hfr, Hfl. reflexivity.
  - intros g c b gm bm fm ours enemy Hgm Hbm Hfm Hours Henemy.
    unfold IsBaseOnFrontline. rewrite Hgm, Hbm, Hfm, Hours, Henemy.
    apply frontlineLoop_iff.
  - intros g c b H. unfold IsBaseOnFrontline.
    destruct (GetGameMode g) as [gm|] eqn:Hgm; [|reflexivity].
    destruct (GetBaseManager gm) as [bm|] eqn:Hbm; [|reflexivity].
    destruct (GetFactionManager g) as [fm|] eqn:Hfm; [|reflexivity].
    destruct (castCampaignFaction g (m_Faction c)) as [ours|] eqn:Ho;
      [|reflexivity].
    destruct (GetEnemyFaction fm ours) as [enemy|] eqn:He; [|reflexivity].
    exfalso.
    destruct H as [H|[[gm' [H1 H2]]|[H|[H|[fm' [ours' [H1 [H2 H3]]]]]]]];
      congruence.
Qed.

(** C9, as stated, fails at the edge of the range.  An enemy base that is,
    in exact arithmetic, less than 2000 units from a friendly-held base is
    not classified frontline when the float distance rounds to 2000: the
    timer started at second 0 is not cleared, and the guard answers [false]
    at second 600 with that enemy base still in place.  The same holds for
    an enemy base exactly 2000 units away. *)
Lemma enemy_base_inside_range_is_rear :
  (match exactDistanceSq offsetPosition (quarterPast 2000) with
   | Some d => (d < 2000 * 2000)%Q
   | None => False
   end
   /\ IsBaseFriendly (frontGame offsetPosition (quarterPast 2000) 600000)
                     0%nat = true
   /\ IsBaseOnFrontline (frontGame offsetPosition (quarterPast 2000) 600000)
                        (sampleDefender 7 0%nat) 0%nat = false
   /\ fst (ShouldKeepDefendersActive
             (frontGame offsetPosition (quarterPast 2000) 600000)
             (guardState [frontGame offsetPosition (quarterPast 2000) 0]
                         (sampleDefender 7 0%nat))) = false)
  /\ (match exactDistanceSq origin (position 2000 0 0) with
      | Some d => (d == 2000 * 2000)%Q
      | None => False
      end
      /\ IsBaseOnFrontline (frontGame origin (position 2000 0 0) 600000)
                           (sampleDefender 7 0%nat) 0%nat = false
      /\ fst (ShouldKeepDefendersActive
                (frontGame origin (position 2000 0 0) 600000)
                (guardState [frontGame origin (position 2000 0 0) 0]
                            (sampleDefender 7 0%nat))) = false).
Proof. repeat split; vm_compute; reflexivity. Qed.


(** ** The theorems at sample inputs *)

Lemma coordinator_is_minimum_identity_sample :
  elected registryGame (sampleDefender 3 0%nat) = true.
Proof.
  assert (NoDup (memberIds 0%nat sampleRegistry)) as Hnd.
  { vm_compute. repeat constructor; simpl; intuition discriminate. }
  assert (exists d, In (DefenderPoint d) sampleRegistry
                    /\ m_nearBase d = Some 0%nat) as Hex.
  { exists (sampleDefender 7 0%nat). split; [left; reflexivity|reflexivity]. }
  destruct (coordinator_is_minimum_identity registryGame sampleRegistry 0%nat
              eq_refl Hnd Hex) as [Hmin _].
  apply (Hmin (sampleDefender 3 0%nat)).
  - right; right; left; reflexivity.
  - reflexivity.
  - intros other Hin Hb. simpl in Hin.
    destruct Hin as [E|[E|[E|[E|[E|[]]]]]]; try discriminate;
      inversion E; subst other; simpl; try lia; discriminate.
Defined.

Lemma wave_counter_monotone_sample :
  m_iReinforcementWave
    (fst (finalState SHIPPED_DEBUG_MODE (firstn 2 siege)
            (sampleDefender 7 0%nat, emptySim)))
  <= m_iReinforcementWave
       (fst (finalState SHIPPED_DEBUG_MODE siege
               (sampleDefender 7 0%nat, emptySim))).
Proof.
  apply (proj1 (wave_counter_monotone_while_active SHIPPED_DEBUG_MODE siege
                  (sampleDefender 7 0%nat, emptySim)) 2%nat 3%nat).
  - lia.
  - vm_compute. reflexivity.
  - vm_compute. reflexivity.
  - intros k x Hk Hx.
    assert (k = 2%nat \/ k = 3%nat) as [->| ->] by lia;
      vm_compute in Hx; inversion Hx; subst x; reflexivity.
Defined.

Lemma highest_reached_wave_sample :
  wavesTriggered
    (resEffects
       (UpdateReinforcementState SHIPPED_DEBUG_MODE
          (sampleGame 625000 [Some attacker]) true
          (engagedDefender, emptySim))) = [2].
Proof.
  exact (proj1
           (proj2 (proj2 (proj2 highest_reached_wave_fires))
              (sampleGame 625000 [Some attacker]) engagedDefender emptySim 0
              eq_refl eq_refl eq_refl eq_refl eq_refl)).
Defined.

Lemma no_wave_within_cooldown_sample : 301000 + 10000 <= 601000.
Proof.
  apply (proj2 (no_wave_within_cooldown SHIPPED_DEBUG_MODE) siege
           (sampleDefender 7 0%nat, emptySim) 1%nat 2%nat 301000 1 601000 2).
  - lia.
  - vm_compute. reflexivity.
  - vm_compute. reflexivity.
Defined.

Lemma active_has_start_sample :
  exists t,
    m_tCombatStartTime
      (fst (finalState SHIPPED_DEBUG_MODE siege
              (sampleDefender 7 0%nat, emptySim))) = Some t.
Proof.
  apply (proj1 (proj2 (active_has_start SHIPPED_DEBUG_MODE)) siege
           (sampleDefender 7 0%nat, emptySim)).
  - simpl. discriminate.
  - right; right; right; left. vm_compute. reflexivity.
  - vm_compute. reflexivity.
Defined.

Lemma cooldown_spans_engagements_sample : 301000 + 10000 <= 640000.
Proof.
  apply (proj2 (cooldown_spans_engagements SHIPPED_DEBUG_MODE)
           firstEngagement secondEngagement
           (sampleDefender 7 0%nat, emptySim) 301000 1
           ltac:(right; left; vm_compute; reflexivity)
           ltac:(vm_compute; reflexivity)
           1%nat 640000 1
           ltac:(vm_compute; reflexivity)).
Defined.

Lemma trigger_despawns_in_debug_mode_sample :
  In (DeleteRplEntity 0%nat)
     (resEffects
        (TriggerReinforcements true (sampleGame 601000 [Some attacker]) 2
           (trackingDefender, oneGroupSim))).
Proof.
  destruct (trigger_despawns_in_debug_mode_only true
              (sampleGame 601000 [Some attacker]) 2 trackingDefender
              oneGroupSim (mkWorld 601000) eq_refl)
    as [dels [tail [E [_ [_ [Hd _]]]]]].
  rewrite E. apply in_or_app. left.
  apply (proj1 (Hd eq_refl)).
  - left. reflexivity.
  - reflexivity.
Defined.

Lemma detector_sample :
  DetectCombatAtBase (sampleGame 0 [Some attacker]) (sampleDefender 7 0%nat)
  = true.
Proof.
  apply (proj1 (detector_true_iff_hostile_in_range
                  (sampleGame 0 [Some attacker]) (sampleDefender 7 0%nat))).
  exists 0%nat, 1%nat, [Some attacker], attacker.
  repeat split; try reflexivity.
  - left. reflexivity.
  - exists 2%nat. split; [reflexivity|discriminate].
Defined.

Lemma enemy_held_base_sample :
  ShouldKeepDefendersActive (sampleGame 0 [Some attacker])
                            (sampleDefender 7 0%nat)
  = (true, sampleDefender 7 0%nat).
Proof.
  apply (proj1 enemy_held_base_always_active
           (sampleGame 0 [Some attacker]) (sampleDefender 7 0%nat) 0%nat).
  - reflexivity.
  - reflexivity.
Defined.

Lemma guard_false_sample :
  IsBaseFriendly (rearGame 600000) 0%nat = true
  /\ exists pre1 gi mid ti tj,
       [rearGame 0] = pre1 ++ gi :: mid
       /\ tickTime gi = Some ti /\ tickTime (rearGame 600000) = Some tj
       /\ 600000 <= tj - ti
       /\ Forall (fun gk =>
                    observedFrontline gk (sampleDefender 7 0%nat) 0%nat
                    = false)
                 (gi :: mid ++ [rearGame 600000]).
Proof.
  apply (proj1 guard_false_only_after_grace_period [rearGame 0]
           (rearGame 600000) (sampleDefender 7 0%nat) 0%nat).
  - reflexivity.
  - reflexivity.
  - vm_compute. reflexivity.
Defined.

(** * Further properties of the component *)

(** ** The state machine *)

Lemma threshold_at_least_a_minute (d : bool) (w : Z) :
  In w evaluatedWaves ->
  60 <= GetWaveThreshold d w /\ (d = false -> 300 <= GetWaveThreshold d w).
Proof.
  intro Hin. in_waves Hin; destruct d; vm_compute; split;
    intros; try discriminate.
Qed.

(** X1: a wave fires only on a tick for which the detector reported combat
    and before which the component was already active, and only once the
    time since the combat start has reached the wave's threshold, which is at
    least 60 seconds, and at least 300 seconds as the source ships. *)
Theorem wave_fires_only_after_threshold
  (d : bool) (g : Game) (combatActive : bool) (c : Component) (s : Sim)
  (w : Z) :
  In w (wavesTriggered
          (resEffects (UpdateReinforcementState d g combatActive (c, s)))) ->
  combatActive = true
  /\ m_bReinforcementActive c = true
  /\ exists now t0,
       tickTime g = Some now
       /\ m_tCombatStartTime c = Some t0
       /\ 1000 * GetWaveThreshold d w <= now - t0
       /\ 60000 <= now - t0
       /\ (d = false -> 300000 <= now - t0).
Proof.
  intro Hin.
  destruct (Update_cases d g combatActive c s)
    as [[_ E]|[now [Hnow [H|[H|[H|H]]]]]].
  - rewrite E in Hin. contradiction.
  - destruct H as [_ [_ [_ Hwv]]]. rewrite Hwv in Hin. contradiction.
  - destruct H as [_ [_ E]]. rewrite E in Hin. contradiction.
  - destruct H as [_ [Hwv _]]. rewrite Hwv in Hin. contradiction.
  - destruct H as [Hca [wv [t0 [Hs [_ [Hev [_ [Hthr [_ [_ Hwv]]]]]]]]]].
    rewrite Hwv in Hin. destruct Hin as [<-|[]].
    apply thresholdReached_iff, DiffSeconds_ge in Hthr.
    destruct (threshold_at_least_a_minute d wv Hev) as [H60 H300].
    destruct (m_bReinforcementActive c) eqn:Hact.
    + split; [exact Hca|]. split; [reflexivity|].
      exists now, t0. repeat split; auto; try lia.
      intro Hd. specialize (H300 Hd). lia.
    + exfalso. assert (t0 = now) by congruence. subst t0. lia.
Qed.

Lemma step_wave_range (d : bool) (g : Game) (combatActive : bool)
  (c : Component) (s : Sim) :
  0 <= m_iReinforcementWave c <= 3 ->
  0 <= m_iReinforcementWave
         (resComponent (UpdateReinforcementState d g combatActive (c, s)))
    <= 3.
Proof.
  intro Hr.
  destruct (Update_cases d g combatActive c s)
    as [[_ E]|[now [_ [H|[H|[H|H]]]]]].
  - rewrite E. exact Hr.
  - destruct H as [_ [_ [Hc _]]].
    apply combatState_inj in Hc. destruct Hc as [_ [_ [Hw _]]]. lia.
  - destruct H as [_ [_ E]]. rewrite E. exact Hr.
  - destruct H as [_ [_ [Hc _]]].
    apply combatState_inj in Hc. destruct Hc as [_ [_ [Hw _]]]. lia.
  - destruct H as [_ [wv [t0 [_ [_ [Hev [_ [_ [_ [Hc _]]]]]]]]]].
    apply combatState_inj in Hc. destruct Hc as [_ [_ [Hw _]]].
    rewrite Hw. in_waves Hev; lia.
Qed.

(** X2: along any run that starts with the wave counter between 0 and 3 the
    counter stays between 0 and 3, and a component whose counter has reached
    3 fires no further wave, whatever the tick. *)
Theorem wave_counter_bounded_and_terminal (d : bool) :
  (forall ticks st0 x,
     0 <= m_iReinforcementWave (fst st0) <= 3 ->
     In x (statesOf d ticks st0) ->
     0 <= m_iReinforcementWave (fst x) <= 3)
  /\ (forall g combatActive c s,
        3 <= m_iReinforcementWave c ->
        wavesTriggered
          (resEffects (UpdateReinforcementState d g combatActive (c, s)))
        = []).
Proof.
  split.
  - intros ticks. unfold statesOf.
    induction ticks as [|[g ca] rest IH]; intros [c s] x Hr Hin.
    + destruct Hin as [<-|[]]. exact Hr.
    + destruct Hin as [<-|Hin]; [exact Hr|].
      rewrite runUpdates_cons in Hin. cbn [map] in Hin.
      apply (IH (fst (UpdateReinforcementState d g ca (c, s))) x).
      * apply (step_wave_range d g ca c s Hr).
      * exact Hin.
  - intros g ca c s H3.
    destruct (Update_cases d g ca c s)
      as [[_ E]|[now [_ [H|[H|[H|H]]]]]].
    + rewrite E. reflexivity.
    + destruct H as [_ [_ [_ Hwv]]]. exact Hwv.
    + destruct H as [_ [_ E]]. rewrite E. reflexivity.
    + destruct H as [_ [Hwv _]]. exact Hwv.
    + destruct H as [_ [wv [t0 [_ [_ [Hev [Hlt _]]]]]]].
      exfalso. in_waves Hev; lia.
Qed.

Lemma firedWaves_cons (d : bool) (g : Game) (ca : bool)
  (rest : list (Game * bool)) (st : State) :
  firedWaves d ((g, ca) :: rest) st
  = match fired g (UpdateReinforcementState d g ca st) with
    | Some (_, w) => [w]
    | None => []
    end ++ firedWaves d rest (fst (UpdateReinforcementState d g ca st)).
Proof. reflexivity. Qed.

Lemma firedWaves_above (d : bool) (ticks : list (Game * bool)) :
  forall st : State,
    Forall (fun t => snd t = true) ticks ->
    Forall (fun w => m_iReinforcementWave (fst st) < w /\ In w evaluatedWaves)
           (firedWaves d ticks st)
    /\ StronglySorted Z.lt (firedWaves d ticks st).
Proof.
  induction ticks as [|[g ca] rest IH]; intros [c s] Hall.
  - split; constructor.
  - apply Forall_cons_iff in Hall. destruct Hall as [Hca Hall].
    simpl in Hca. subst ca. rewrite firedWaves_cons.
    destruct (IH (fst (UpdateReinforcementState d g true (c, s))) Hall)
      as [Hab Hso].
    destruct (step_last d g true c s)
      as [[Hf [_ Hw]]|[now [w [Hf [_ [Hwv [_ [_ [_ [Hlt [Hw _]]]]]]]]]]].
    + rewrite Hf. simpl. split; [|exact Hso].
      specialize (Hw eq_refl). unfold resComponent in Hw.
      rewrite Hw in Hab. exact Hab.
    + rewrite Hf. simpl. unfold resComponent in Hw. rewrite Hw in Hab.
      assert (In w evaluatedWaves) as Hev.
      { apply (proj1 evaluated_waves_are_the_fired_ones d g true c s).
        rewrite Hwv. left. reflexivity. }
      split.
      * constructor; [auto|].
        eapply Forall_impl; [|exact Hab]. simpl. intros a [Ha Hin].
        split; [lia|exact Hin].
      * constructor; [exact Hso|].
        eapply Forall_impl; [|exact Hab]. simpl. intros a [Ha _]. exact Ha.
Qed.

Lemma increasing_length (l : list Z) :
  forall a : Z,
    a <= 3 ->
    StronglySorted Z.lt l ->
    Forall (fun w => a < w <= 3) l ->
    Z.of_nat (List.length l) <= 3 - a.
Proof.
  induction l as [|x l IH]; intros a Ha Hs Hf.
  - simpl List.length. lia.
  - apply StronglySorted_inv in Hs. destruct Hs as [Hs Hx].
    apply Forall_cons_iff in Hf. destruct Hf as [Hax Hf].
    assert (Z.of_nat (List.length l) <= 3 - x).
    { apply IH; [lia|exact Hs|].
      rewrite Forall_forall in *. intros w Hw.
      specialize (Hx w Hw). specialize (Hf w Hw). lia. }
    simpl List.length. lia.
Qed.

(** X3: while the detector keeps reporting combat, the waves a run fires
    are strictly increasing, each above the wave counter the run started
    with and one of waves 1 to 3; so an engagement fires at most three waves,
    and at most [3 - n] when it starts with the counter at [n]. *)
Theorem engagement_fires_increasing_waves
  (d : bool) (ticks : list (Game * bool)) (st : State) :
  Forall (fun t => snd t = true) ticks ->
  0 <= m_iReinforcementWave (fst st) <= 3 ->
  StronglySorted Z.lt (firedWaves d ticks st)
  /\ Forall (fun w => m_iReinforcementWave (fst st) < w
                      /\ In w evaluatedWaves)
            (firedWaves d ticks st)
  /\ Z.of_nat (List.length (firedWaves d ticks st))
     <= 3 - m_iReinforcementWave (fst st)
  /\ (List.length (firedWaves d ticks st) <= 3)%nat.
Proof.
  intros Hall H0.
  destruct (firedWaves_above d ticks st Hall) as [Hab Hso].
  assert (Z.of_nat (List.length (firedWaves d ticks st))
          <= 3 - m_iReinforcementWave (fst st)) as Hlen.
  { apply increasing_length; [lia|exact Hso|].
    eapply Forall_impl; [|exact Hab]. simpl. intros w [Hw Hin].
    in_waves Hin; lia. }
  repeat split; auto. lia.
Qed.

(** ** Despawning *)

Lemma filter_all {A : Type} (f : A -> bool) (l : list A) :
  (forall x, In x l -> f x = true) -> filter f l = l.
Proof.
  induction l as [|x l IH]; intro H; [reflexivity|]. simpl.
  rewrite (H x (or_introl eq_refl)). f_equal. apply IH.
  intros y Hy. apply H. right. exact Hy.
Qed.

Lemma filter_filter {A : Type} (f h : A -> bool) (l : list A) :
  filter f (filter h l) = filter (fun x => h x && f x) l.
Proof.
  induction l as [|x l IH]; [reflexivity|]. simpl.
  destruct (h x); simpl; [destruct (f x)|]; rewrite <- IH; reflexivity.
Qed.

Lemma existsb_filter_eqb (p : nat -> bool) (x : nat) (l : list nat) :
  existsb (Nat.eqb x) (filter p l) = p x && existsb (Nat.eqb x) l.
Proof.
  induction l as [|y l IH]; simpl; [rewrite andb_false_r; reflexivity|].
  destruct (p y) eqn:Hy; simpl; rewrite IH.
  - destruct (Nat.eqb_spec x y) as [->|Hne]; simpl.
    + rewrite Hy. reflexivity.
    + reflexivity.
  - destruct (Nat.eqb_spec x y) as [->|Hne]; simpl.
    + rewrite Hy. reflexivity.
    + reflexivity.
Qed.

Lemma isAlive_In (s : Sim) (e : EntityRef) :
  isAlive s e = true <-> In e (sim_alive s).
Proof.
  unfold isAlive. rewrite existsb_exists. split.
  - intros [x [Hin Hx]]. apply Nat.eqb_eq in Hx. subst. exact Hin.
  - intro Hin. exists e. split; [exact Hin|apply Nat.eqb_refl].
Qed.

(** The entities a despawn loop leaves are those that existed and are not
    in the array it walked. *)
Lemma despawnLoop_sim (tracked : list EntityRef) :
  forall s : Sim,
    sim_alive (fst (despawnLoop tracked s))
    = filter (fun x => negb (existsb (Nat.eqb x) tracked)) (sim_alive s)
    /\ sim_calls (fst (despawnLoop tracked s)) = sim_calls s.
Proof.
  induction tracked as [|e rest IH]; intro s; simpl.
  - split; [|reflexivity]. symmetry. apply filter_all. reflexivity.
  - destruct (isAlive s e) eqn:He.
    + destruct (IH (removeEntity e s)) as [Ha Hc].
      destruct (despawnLoop rest (removeEntity e s)) as [s' effs].
      simpl in *. split; [|exact Hc]. rewrite Ha, filter_filter.
      apply filter_ext. intro x. rewrite negb_orb, (Nat.eqb_sym e x).
      reflexivity.
    + destruct (IH s) as [Ha Hc]. split; [|exact Hc]. rewrite Ha.
      apply filter_ext_in. intros x Hx.
      destruct (Nat.eqb_spec x e) as [->|Hne]; [|reflexivity].
      apply isAlive_In in Hx. congruence.
Qed.

Lemma despawnLoop_alive (tracked : list EntityRef) (s : Sim) (e : EntityRef) :
  isAlive (fst (despawnLoop tracked s)) e
  = isAlive s e && negb (existsb (Nat.eqb e) tracked).
Proof.
  unfold isAlive at 1. rewrite (proj1 (despawnLoop_sim tracked s)).
  rewrite existsb_filter_eqb. apply andb_comm.
Qed.

Lemma despawnLoop_effects (tracked : list EntityRef) :
  forall s : Sim,
    (forall e, In (DeleteRplEntity e) (snd (despawnLoop tracked s)) ->
               In e tracked /\ isAlive s e = true)
    /\ NoDup (snd (despawnLoop tracked s)).
Proof.
  induction tracked as [|x rest IH]; intro s; simpl.
  - split; [intros e []|constructor].
  - destruct (isAlive s x) eqn:Hx.
    + destruct (IH (removeEntity x s)) as [Hin Hnd].
      pose proof (despawnLoop_alive [x] s x) as Hself.
      destruct (despawnLoop rest (removeEntity x s)) as [s' effs].
      simpl in *. split.
      * intros e [[= <-]|He]; [auto|].
        destruct (Hin e He) as [Hr Ha]. split; [right; exact Hr|].
        destruct (Nat.eq_dec e x) as [->|Hne]; [exact Hx|].
        rewrite (isAlive_removeEntity x e s Hne) in Ha. exact Ha.
      * constructor; [|exact Hnd]. intro He.
        destruct (Hin x He) as [_ Ha].
        assert (isAlive (removeEntity x s) x = false) as Hf.
        { unfold isAlive, removeEntity. simpl.
          rewrite existsb_filter_eqb, Nat.eqb_refl. reflexivity. }
        congruence.
    + destruct (IH s) as [Hin Hnd]. split; [|exact Hnd].
      intros e He. destruct (Hin e He). auto.
Qed.

Lemma despawnLoop_app (a b : list EntityRef) :
  forall s : Sim,
    despawnLoop (a ++ b) s
    = let '(s1, e1) := despawnLoop a s in
      let '(s2, e2) := despawnLoop b s1 in
      (s2, e1 ++ e2).
Proof.
  induction a as [|x a IH]; intro s; simpl.
  - destruct (despawnLoop b s). reflexivity.
  - destruct (isAlive s x).
    + rewrite IH. destruct (despawnLoop a (removeEntity x s)) as [s1 e1].
      destruct (despawnLoop b s1). reflexivity.
    + apply IH.
Qed.

Lemma Despawn_as_loop (c : Component) (s : Sim) :
  DespawnPreviousWaveGroups c s
  = (set_aReinforcementHelicopters [] (set_aReinforcementGroups [] c),
     fst (despawnLoop
            (m_aReinforcementGroups c ++ m_aReinforcementHelicopters c) s),
     snd (despawnLoop
            (m_aReinforcementGroups c ++ m_aReinforcementHelicopters c) s)).
Proof.
  unfold DespawnPreviousWaveGroups. rewrite despawnLoop_app. simpl.
  destruct (despawnLoop (m_aReinforcementGroups c) s) as [s1 e1].
  destruct (despawnLoop (m_aReinforcementHelicopters c) s1) as [s2 e2].
  reflexivity.
Qed.

(** X4: [DespawnPreviousWaveGroups] empties both tracking arrays; an entity
    exists afterwards exactly when it existed and was not tracked; the
    deletions issued are exactly the tracked entities that existed, each once
    even when an entity is tracked twice; and a second call right after
    changes nothing and deletes nothing. *)
Theorem despawn_clears_tracking_and_is_idempotent
  (c : Component) (s : Sim) :
  let r := DespawnPreviousWaveGroups c s in
  m_aReinforcementGroups (resComponent r) = []
  /\ m_aReinforcementHelicopters (resComponent r) = []
  /\ combatState (resComponent r) = combatState c
  /\ sim_calls (resSim r) = sim_calls s
  /\ (forall e, isAlive (resSim r) e = isAlive s e && negb (isTracked c e))
  /\ (forall e, In (DeleteRplEntity e) (resEffects r)
                <-> isTracked c e = true /\ isAlive s e = true)
  /\ Forall (fun e => isDelete e = true) (resEffects r)
  /\ NoDup (resEffects r)
  /\ DespawnPreviousWaveGroups (resComponent r) (resSim r)
     = (resComponent r, resSim r, []).
Proof.
  intro r. subst r. rewrite Despawn_as_loop.
  unfold resComponent, resSim, resEffects, isTracked. simpl.
  set (tracked := m_aReinforcementGroups c ++ m_aReinforcementHelicopters c).
  destruct (despawnLoop_effects tracked s) as [Hin Hnd].
  split; [reflexivity|]. split; [reflexivity|]. split; [reflexivity|].
  split; [apply despawnLoop_sim|].
  split; [intro e; apply despawnLoop_alive|].
  split.
  { intro e. split.
    - intro H. destruct (Hin e H) as [Ht Ha]. split; [|exact Ha].
      apply existsb_exists. exists e. split; [exact Ht|apply Nat.eqb_refl].
    - intros [Ht Ha]. apply existsb_exists in Ht. destruct Ht as [x [Hx Hex]].
      apply Nat.eqb_eq in Hex. subst x.
      destruct (despawnLoop_alive_cases tracked s e Ha) as [H|[_ Hn]];
        [exact H|contradiction]. }
  split; [apply despawnLoop_deletes|]. split; [exact Hnd|].
  rewrite Despawn_as_loop. simpl. destruct c. reflexivity.
Qed.

(** X5: the tick on which the detector stops reporting combat, for an active
    component, fires nothing and leaves the last wave time as it was; as the
    source ships, it also leaves the tracked groups and helicopters and the
    simulation as they were, while in debug mode it empties both arrays and
    no tracked entity exists afterwards. *)
Theorem end_of_engagement_tracking
  (d : bool) (g : Game) (c : Component) (s : Sim) (w : ChimeraWorld) :
  GetWorld g = Some w ->
  m_bReinforcementActive c = true ->
  let r := UpdateReinforcementState d g false (c, s) in
  combatState (resComponent r)
  = (m_tCombatStartTime c, false, 0, m_tLastReinforcementTime c)
  /\ wavesTriggered (resEffects r) = []
  /\ (d = false ->
      m_aReinforcementGroups (resComponent r) = m_aReinforcementGroups c
      /\ m_aReinforcementHelicopters (resComponent r)
         = m_aReinforcementHelicopters c
      /\ resSim r = s /\ resEffects r = [])
  /\ (d = true ->
      m_aReinforcementGroups (resComponent r) = []
      /\ m_aReinforcementHelicopters (resComponent r) = []
      /\ forall e, isTracked c e = true -> isAlive (resSim r) e = false).
Proof.
  intros Hw Hact r. subst r. unfold UpdateReinforcementState.
  rewrite Hw. simpl andb. cbv iota. rewrite Hact. simpl andb. cbv iota.
  destruct (Reset_combat d c s) as [Hc Hwv].
  split; [exact Hc|]. split; [exact Hwv|].
  unfold ResetReinforcementState. destruct d.
  - split; [discriminate|]. intros _. rewrite Despawn_as_loop.
    unfold resComponent, resSim. simpl.
    split; [reflexivity|]. split; [reflexivity|].
    intros e He. rewrite despawnLoop_alive.
    unfold isTracked in He. simpl. rewrite He. apply andb_false_r.
  - split; [|discriminate]. intros _. repeat split.
Qed.

(** ** The periodic clean-up *)

Lemma Remove_split (l : list EntityRef) (i : nat) (x : EntityRef) :
  nth_error l i = Some x ->
  exists a b,
    l = a ++ x :: b /\ List.length a = i
    /\ ((b = [] /\ Remove i l = a)
        \/ exists b' y, b = b' ++ [y] /\ Remove i l = a ++ y :: b').
Proof.
  intro Hn. unfold Remove. rewrite Hn.
  destruct (nth_error_split l i Hn) as [a [b [El Ha]]].
  exists a, b. split; [exact El|]. split; [exact Ha|].
  assert (firstn i l = a) as Hf.
  { subst l i. rewrite firstn_app, Nat.sub_diag, firstn_all. simpl.
    apply app_nil_r. }
  assert (skipn (S i) l = b) as Hs.
  { subst l i. rewrite skipn_app, skipn_all2 by lia.
    replace (S (List.length a) - List.length a)%nat with 1%nat by lia.
    reflexivity. }
  rewrite Hf, Hs.
  destruct (exists_last (l := x :: b)) as [bx [y Ebx]]; [discriminate|].
  assert (last l x = y) as Hl.
  { rewrite El, Ebx, app_assoc. apply last_last. }
  rewrite Hl.
  destruct b as [|b0 b].
  - left. split; [reflexivity|]. apply removelast_last.
  - right.
    destruct (exists_last (l := b0 :: b)) as [b' [y' Eb]]; [discriminate|].
    assert (y' = y) as ->.
    { rewrite Eb in Ebx. rewrite app_comm_cons in Ebx.
      apply app_inj_tail in Ebx. tauto. }
    exists b', y. split; [exact Eb|].
    rewrite Eb. rewrite app_comm_cons, app_assoc. apply removelast_last.
Qed.

Lemma Permutation_filter {A : Type} (f : A -> bool) (l l' : list A) :
  Permutation l l' -> Permutation (filter f l) (filter f l').
Proof.
  induction 1 as [|x l l' _ IH|x y l|l1 l2 l3 _ IH1 _ IH2]; simpl.
  - constructor.
  - destruct (f x); [constructor|]; exact IH.
  - destruct (f x), (f y); try apply Permutation_refl. constructor.
  - exact (Permutation_trans IH1 IH2).
Qed.

Lemma cleanupLoop_test (g : Game) (s : Sim) (e : EntityRef) :
  negb (isAlive s e) || (GetAgentsCount g e =? 0)%nat
  = negb (keepGroup g s e).
Proof.
  unfold keepGroup. destruct (isAlive s e), (GetAgentsCount g e =? 0)%nat;
    reflexivity.
Qed.

(** Walking down from index [k], with everything from [k] on already kept:
    the loop ends with the kept groups, in some order. *)
Lemma cleanupLoop_perm (g : Game) (s : Sim) (k : nat) :
  forall l : list EntityRef,
    (k <= List.length l)%nat ->
    Forall (fun e => keepGroup g s e = true) (skipn k l) ->
    Permutation (cleanupLoop g s k l) (filter (keepGroup g s) l).
Proof.
  induction k as [|i IH]; intros l Hk Hall; simpl.
  - simpl in Hall. rewrite filter_all; [apply Permutation_refl|].
    apply Forall_forall. exact Hall.
  - destruct (nth_error l i) as [x|] eqn:Hn.
    2:{ apply nth_error_None in Hn. lia. }
    rewrite cleanupLoop_test.
    destruct (Remove_split l i x Hn) as [a [b [El [Ha Hr]]]].
    assert (skipn i l = x :: b) as Hsk.
    { subst l i. rewrite skipn_app, skipn_all, Nat.sub_diag. reflexivity. }
    assert (skipn (S i) l = b) as Hsk'.
    { subst l i. rewrite skipn_app, skipn_all2 by lia.
      replace (S (List.length a) - List.length a)%nat with 1%nat by lia.
      reflexivity. }
    rewrite Hsk' in Hall.
    destruct (keepGroup g s x) eqn:Hx; simpl.
    + apply IH; [lia|]. rewrite Hsk. constructor; assumption.
    + assert (Permutation (x :: Remove i l) l) as Hp.
      { destruct Hr as [[-> ->]|[b' [y [-> ->]]]].
        - rewrite El. apply Permutation_cons_append.
        - rewrite El.
          apply Permutation_trans with (l' := a ++ x :: y :: b').
          + apply Permutation_middle.
          + apply Permutation_app_head. constructor.
            apply Permutation_cons_append. }
      apply Permutation_trans with (l' := filter (keepGroup g s) (Remove i l)).
      * apply IH.
        -- destruct Hr as [[-> ->]|[b' [y [-> ->]]]]; rewrite ?length_app;
             simpl; lia.
        -- destruct Hr as [[-> ->]|[b' [y [Eb ->]]]].
           ++ subst i. rewrite skipn_all. constructor.
           ++ subst i. rewrite skipn_app, skipn_all, Nat.sub_diag. simpl.
              rewrite Eb in Hall. apply Forall_app in Hall.
              destruct Hall as [Hb' Hy]. inversion Hy; subst.
              constructor; assumption.
      * apply (Permutation_filter (keepGroup g s)) in Hp.
        simpl in Hp. rewrite Hx in Hp. exact Hp.
Qed.

Lemma cleanupLoop_id (g : Game) (s : Sim) (l : list EntityRef) :
  Forall (fun e => keepGroup g s e = true) l ->
  forall k, cleanupLoop g s k l = l.
Proof.
  intros Hall k. induction k as [|i IH]; simpl; [reflexivity|].
  destruct (nth_error l i) as [x|] eqn:Hn; [|reflexivity].
  rewrite cleanupLoop_test.
  rewrite Forall_forall in Hall.
  rewrite (Hall x (nth_error_In l i Hn)). simpl. exact IH.
Qed.

(** X6: [CleanupDeadReinforcementGroups] leaves the simulation, the
    helicopters and the combat state alone; the groups it leaves tracked are,
    in some order and with their multiplicity, the tracked groups that exist
    and have an agent left; and a second call on the same snapshot changes
    nothing. *)
Theorem cleanup_keeps_exactly_the_live_groups
  (g : Game) (c : Component) (s : Sim) :
  let st' := CleanupDeadReinforcementGroups g (c, s) in
  snd st' = s
  /\ Permutation (m_aReinforcementGroups (fst st'))
                 (filter (keepGroup g s) (m_aReinforcementGroups c))
  /\ (forall e,
        In e (m_aReinforcementGroups (fst st'))
        <-> In e (m_aReinforcementGroups c) /\ isAlive s e = true
            /\ GetAgentsCount g e <> 0%nat)
  /\ m_aReinforcementHelicopters (fst st') = m_aReinforcementHelicopters c
  /\ combatState (fst st') = combatState c
  /\ CleanupDeadReinforcementGroups g st' = st'.
Proof.
  intro st'.
  assert (snd st' = s
          /\ Permutation (m_aReinforcementGroups (fst st'))
                         (filter (keepGroup g s) (m_aReinforcementGroups c))
          /\ m_aReinforcementHelicopters (fst st')
             = m_aReinforcementHelicopters c
          /\ combatState (fst st') = combatState c
          /\ st' = (set_aReinforcementGroups
                      (m_aReinforcementGroups (fst st')) c, s))
    as [Hs [Hp [Hh [Hc Est]]]].
  { subst st'. unfold CleanupDeadReinforcementGroups.
    destruct (m_aReinforcementGroups c) as [|x l] eqn:E.
    - simpl. rewrite E. repeat split; auto. destruct c. simpl in *.
      subst. reflexivity.
    - simpl. repeat split.
      apply (cleanupLoop_perm g s (List.length (x :: l)) (x :: l)).
      + lia.
      + rewrite skipn_all. constructor. }
  split; [exact Hs|]. split; [exact Hp|].
  assert (forall e,
            In e (m_aReinforcementGroups (fst st'))
            <-> In e (m_aReinforcementGroups c) /\ keepGroup g s e = true)
    as Hin.
  { intro e. rewrite <- filter_In. split; apply Permutation_in;
      [exact Hp|apply Permutation_sym, Hp]. }
  split.
  { intro e. rewrite Hin. unfold keepGroup.
    rewrite andb_true_iff, negb_true_iff, Nat.eqb_neq. tauto. }
  split; [exact Hh|]. split; [exact Hc|].
  rewrite Est at 1. unfold CleanupDeadReinforcementGroups.
  assert (m_aReinforcementGroups
            (set_aReinforcementGroups (m_aReinforcementGroups (fst st')) c)
          = m_aReinforcementGroups (fst st')) as -> by reflexivity.
  destruct (m_aReinforcementGroups (fst st')) as [|x l] eqn:E.
  - symmetry. exact Est.
  - rewrite cleanupLoop_id.
    + rewrite Est. destruct c. reflexivity.
    + apply Forall_forall. intros e He.
      apply (Hin e) in He. tauto.
Qed.

(** ** Spawning *)

Lemma SpawnReinforcementGroup_cases (g : Game) (t : SCR_EGroupType)
  (c : Component) (s : Sim) :
  (canSpawnGroup g c = false
   /\ SpawnReinforcementGroup g t c s = (None, s, []))
  \/ (canSpawnGroup g c = true /\ spawnSucceeds g (sim_calls s) = false
      /\ SpawnReinforcementGroup g t c s
         = (None, mkSim (sim_alive s) (S (sim_calls s)), []))
  \/ (canSpawnGroup g c = true /\ spawnSucceeds g (sim_calls s) = true
      /\ SpawnReinforcementGroup g t c s
         = (Some (sim_calls s),
            mkSim (sim_calls s :: sim_alive s) (S (sim_calls s)),
            [SpawnedGroup (sim_calls s) (m_sPrefab c) t])).
Proof.
  unfold canSpawnGroup, SpawnReinforcementGroup, SpawnEntityPrefab.
  destruct (IsEmpty (m_sPrefab c)); [left; auto|].
  destruct (m_Faction c); [|left; auto].
  destruct (m_nearBase c); [|left; auto].
  destruct (prefabValid g (m_sPrefab c)); [|left; auto].
  simpl. destruct (spawnSucceeds g (sim_calls s)); [right; right|right; left];
    auto.
Qed.

(** X7: [SpawnReinforcementGroup] returns a group exactly when the prefab
    path is not empty, the faction and the base are set, the prefab loads and
    the engine's spawn succeeds.  When a prerequisite is missing the engine is
    not asked at all.  A returned group exists afterwards, is reported by one
    spawn effect, which names [m_sPrefab] as the prefab it was spawned from
    whatever the group type asked for, and, if every existing entity was named by an earlier spawn
    call, did not exist before. *)
Theorem spawn_group_succeeds_iff
  (g : Game) (t : SCR_EGroupType) (c : Component) (s : Sim) :
  let r := SpawnReinforcementGroup g t c s in
  (forall e,
     fst (fst r) = Some e
     <-> canSpawnGroup g c = true /\ spawnSucceeds g (sim_calls s) = true
         /\ e = sim_calls s)
  /\ (canSpawnGroup g c = false -> r = (None, s, []))
  /\ (fst (fst r) = None -> sim_alive (snd (fst r)) = sim_alive s
                            /\ snd r = [])
  /\ (forall e,
        fst (fst r) = Some e ->
        isAlive (snd (fst r)) e = true
        /\ snd r = [SpawnedGroup e (m_sPrefab c) t]
        /\ (simFresh s -> isAlive s e = false)
        /\ forall x, x <> e -> isAlive (snd (fst r)) x = isAlive s x).
Proof.
  intro r. subst r.
  destruct (SpawnReinforcementGroup_cases g t c s)
    as [[Hc E]|[[Hc [Hs E]]|[Hc [Hs E]]]]; rewrite E; simpl.
  - repeat split; try discriminate; try congruence.
    intros [H _]. congruence.
  - repeat split; try discriminate; try congruence.
    intros [_ [H _]]. congruence.
  - split.
    { intro e. split; [intros [= <-]; auto|intros [_ [_ ->]]; reflexivity]. }
    split; [congruence|]. split; [discriminate|].
    intros e [= <-]. split.
    { unfold isAlive. simpl. rewrite Nat.eqb_refl. reflexivity. }
    split; [reflexivity|]. split.
    + intro Hf. destruct (isAlive s (sim_calls s)) eqn:Ha; [|reflexivity].
      apply isAlive_In, Hf in Ha. lia.
    + intros x Hx. unfold isAlive. simpl.
      destruct (Nat.eqb_spec x (sim_calls s)); [contradiction|reflexivity].
Qed.

Lemma spawnAndTrack_shape (g : Game) (t : SCR_EGroupType)
  (c : Component) (s : Sim) (effs : list Effect) (n : nat) :
  exists c' s' extra,
    spawnAndTrack g t ((c, s, effs), n)
    = ((c', s', effs ++ extra), (n + List.length extra)%nat)
    /\ canSpawnGroup g c' = canSpawnGroup g c
    /\ (extra = [] \/ exists x, extra = [SpawnedGroup x (m_sPrefab c) t])
    /\ (canSpawnGroup g c = true -> spawnSucceeds g (sim_calls s) = true ->
        extra <> []).
Proof.
  unfold spawnAndTrack.
  destruct (SpawnReinforcementGroup_cases g t c s)
    as [[Hc E]|[[Hc [Hs E]]|[Hc [Hs E]]]]; rewrite E.
  - exists c, s, []. rewrite Nat.add_0_r. repeat split; auto. congruence.
  - eexists c, _, []. rewrite Nat.add_0_r. repeat split; auto. congruence.
  - eexists _, _, [SpawnedGroup (sim_calls s) (m_sPrefab c) t].
    replace (n + List.length [SpawnedGroup (sim_calls s) (m_sPrefab c) t])%nat with (S n)
      by (simpl; lia).
    repeat split; eauto. discriminate.
Qed.

Lemma SpawnArmedHelicopter_cases (g : Game) (c : Component) (s : Sim) :
  (exists s', SpawnArmedHelicopter g c s = (None, (c, s', [])))
  \/ (exists h c' s',
        SpawnArmedHelicopter g c s
        = (Some h, (c', s', [SpawnedHelicopter h]))).
Proof.
  unfold SpawnArmedHelicopter, SpawnEntityPrefab.
  destruct (m_nearBase c); [|left; eauto].
  destruct (prefabValid g HELICOPTER_PREFAB_MI8MT); simpl; [|left; eauto].
  destruct (spawnSucceeds g (sim_calls s)); [right|left]; eauto.
Qed.

(** The effects of the spawning part: the spawns it made, then the alert
    when it made any. *)
Lemma spawnWave_shape (g : Game) (wave : Z) (c : Component) (s : Sim)
  (e1 : list Effect) :
  exists spawns,
    resEffects (spawnWave g wave (c, s, e1))
    = e1 ++ spawns
         ++ match spawns with
            | [] => []
            | _ :: _ => [BroadcastReinforcementAlert wave]
            end
    /\ Forall (fun e => isSpawned e = true) spawns
    /\ (List.length (loggedGroupTypes spawns)
        <= List.length (waveGroupTypes wave))%nat
    /\ incl (loggedGroupTypes spawns) (waveGroupTypes wave)
    /\ (List.length (spawnedHelicopters spawns)
        <= if (wave =? 4)%Z then 1 else 0)%nat
    /\ (canSpawnGroup g c = true -> (forall n, spawnSucceeds g n = true) ->
        loggedGroupTypes spawns = waveGroupTypes wave).
Proof.
  unfold spawnWave, waveGroupTypes.
  destruct (wave =? 4).
  - destruct (SpawnArmedHelicopter_cases g c s)
      as [[s' E]|[h [c' [s' E]]]]; rewrite E.
    + exists []. unfold alertIfAny, resEffects. simpl.
      repeat split; auto; try lia. apply incl_refl.
    + exists [SpawnedHelicopter h]. unfold alertIfAny, resEffects. simpl.
      rewrite <- app_assoc. repeat split; auto; try lia.
      apply incl_refl.
  - destruct (wave =? 3).
    + destruct (spawnAndTrack_shape g SQUAD_RIFLE c s e1 0)
        as [c1 [s1 [x1 [E1 [Hc1 [Hx1 Hok1]]]]]].
      rewrite E1.
      destruct (spawnAndTrack_shape g FIRETEAM c1 s1 (e1 ++ x1)
                  (0 + List.length x1))
        as [c2 [s2 [x2 [E2 [Hc2 [Hx2 Hok2]]]]]].
      rewrite E2. exists (x1 ++ x2). unfold alertIfAny, resEffects.
      destruct Hx1 as [->|[a ->]], Hx2 as [->|[b ->]]; simpl;
        rewrite <- ?app_assoc; simpl; rewrite ?app_nil_r;
        (split; [reflexivity|]); (split; [repeat constructor|]);
        (split; [lia|]); (split; [intros y Hy; simpl in *; tauto|]);
        (split; [lia|]); intros Hc Hall;
        try reflexivity;
        try (exfalso; apply (Hok1 Hc (Hall _)); reflexivity);
        try (exfalso; apply Hok2; [congruence|apply Hall|reflexivity]).
    + unfold REINFORCEMENT_GROUP_COUNT. cbv zeta. cbv [Nat.iter nat_rect].
      destruct (spawnAndTrack_shape g
                  (if wave =? 1 then FIRETEAM else SQUAD_RIFLE) c s e1 0)
        as [c1 [s1 [x1 [E1 [Hc1 [Hx1 Hok1]]]]]].
      rewrite E1. exists x1. unfold alertIfAny, resEffects.
      destruct Hx1 as [->|[a ->]]; simpl; rewrite ?app_nil_r;
        rewrite <- ?app_assoc; simpl;
        (split; [reflexivity|]); (split; [repeat constructor|]);
        destruct (wave =? 1); simpl;
        (split; [lia|]); (split; [intros y Hy; simpl in *; tauto|]);
        (split; [lia|]); intros Hc Hall;
        try reflexivity;
        exfalso; apply (Hok1 Hc (Hall _)); reflexivity.
Qed.

Lemma Trigger_as_spawnWave (d : bool) (g : Game) (wave : Z) (c : Component)
  (s : Sim) (w : ChimeraWorld) :
  GetWorld g = Some w ->
  exists c0 s0 e0,
    TriggerReinforcements d g wave (c, s)
    = spawnWave g wave (c0, s0, e0 ++ [WaveTriggered wave])
    /\ Forall (fun e => isDelete e = true) e0
    /\ canSpawnGroup g c0 = canSpawnGroup g c.
Proof.
  intro Hw. unfold TriggerReinforcements. rewrite Hw. destruct d.
  - rewrite Despawn_as_loop.
    eexists _, _, _. split; [reflexivity|].
    split; [apply despawnLoop_deletes|reflexivity].
  - exists (set_iReinforcementWave wave
              (set_tLastReinforcementTime (Some (GetServerTimestamp w)) c)),
      s, [].
    split; [reflexivity|]. split; [constructor|reflexivity].
Qed.

(** The effects of a trigger: deletions, the record of the wave, the spawns,
    and the alert when there was a spawn. *)
Lemma Trigger_shape (d : bool) (g : Game) (wave : Z) (c : Component)
  (s : Sim) (w : ChimeraWorld) :
  GetWorld g = Some w ->
  exists e0 spawns,
    resEffects (TriggerReinforcements d g wave (c, s))
    = (e0 ++ [WaveTriggered wave]) ++ spawns
         ++ match spawns with
            | [] => []
            | _ :: _ => [BroadcastReinforcementAlert wave]
            end
    /\ Forall (fun e => isDelete e = true) e0
    /\ Forall (fun e => isSpawned e = true) spawns
    /\ (List.length (loggedGroupTypes spawns)
        <= List.length (waveGroupTypes wave))%nat
    /\ incl (loggedGroupTypes spawns) (waveGroupTypes wave)
    /\ (List.length (spawnedHelicopters spawns)
        <= if (wave =? 4)%Z then 1 else 0)%nat
    /\ (canSpawnGroup g c = true -> (forall n, spawnSucceeds g n = true) ->
        loggedGroupTypes spawns = waveGroupTypes wave).
Proof.
  intro Hw.
  destruct (Trigger_as_spawnWave d g wave c s w Hw)
    as [c0 [s0 [e0 [E [Hd Hc]]]]].
  destruct (spawnWave_shape g wave c0 s0 (e0 ++ [WaveTriggered wave]))
    as [spawns [Es [Hs [Hl [Hi [Hh Hall]]]]]].
  exists e0, spawns. rewrite E, Es. rewrite Hc in Hall. auto 10.
Qed.

Lemma spawned_types_of_others (l : list Effect) :
  Forall (fun e => isSpawned e = false) l ->
  loggedGroupTypes l = [] /\ spawnedHelicopters l = [].
Proof.
  induction 1 as [|e l He _ [IH1 IH2]]; [split; reflexivity|].
  destruct e; try discriminate; simpl; auto.
Qed.

Lemma loggedGroupTypes_app (a b : list Effect) :
  loggedGroupTypes (a ++ b) = loggedGroupTypes a ++ loggedGroupTypes b.
Proof. unfold loggedGroupTypes. apply flat_map_app. Qed.

(** X8: among the effects of a trigger, the alert for the wave is broadcast
    exactly when some group or helicopter spawned; no alert for another wave
    is broadcast, and the alert, when there is one, is the single last
    effect. *)
Theorem alert_iff_something_spawned
  (d : bool) (g : Game) (wave : Z) (c : Component) (s : Sim)
  (w : ChimeraWorld) :
  GetWorld g = Some w ->
  let effs := resEffects (TriggerReinforcements d g wave (c, s)) in
  ((exists e, In e effs /\ isSpawned e = true)
   <-> In (BroadcastReinforcementAlert wave) effs)
  /\ (forall wave', In (BroadcastReinforcementAlert wave') effs ->
                    wave' = wave)
  /\ exists body,
       Forall (fun e => isAlert e = false) body
       /\ (effs = body \/ effs = body ++ [BroadcastReinforcementAlert wave]).
Proof.
  intros Hw effs. subst effs.
  destruct (Trigger_shape d g wave c s w Hw)
    as [e0 [spawns [E [Hd [Hs _]]]]].
  rewrite E.
  assert (Forall (fun e => isAlert e = false /\ isSpawned e = false)
                 (e0 ++ [WaveTriggered wave])) as Hpre.
  { apply Forall_app. split.
    - eapply Forall_impl; [|exact Hd]. intros [] H; try discriminate; auto.
    - repeat constructor. }
  assert (Forall (fun e => isAlert e = false) spawns) as Hsa.
  { eapply Forall_impl; [|exact Hs]. intros [] H; try discriminate; auto. }
  rewrite Forall_forall in Hpre, Hsa, Hs.
  destruct spawns as [|x spawns].
  - rewrite !app_nil_r. split; [|split].
    + split.
      * intros [e [Hin He]]. destruct (Hpre e Hin). congruence.
      * intro Hin. destruct (Hpre _ Hin). discriminate.
    + intros w' Hin. destruct (Hpre _ Hin). discriminate.
    + exists (e0 ++ [WaveTriggered wave]). split; [|left; reflexivity].
      apply Forall_forall. intros e He. apply (Hpre e He).
  - split; [|split].
    + split.
      * intros _. apply in_or_app. right. apply in_or_app. right.
        left. reflexivity.
      * intros _. exists x. split; [|apply Hs; left; reflexivity].
        apply in_or_app. right. left. reflexivity.
    + intros w' Hin. apply in_app_or in Hin. destruct Hin as [Hin|Hin].
      * destruct (Hpre _ Hin). discriminate.
      * apply in_app_or in Hin. destruct Hin as [Hin|[Hin|[]]].
        -- pose proof (Hsa _ Hin). discriminate.
        -- congruence.
    + exists ((e0 ++ [WaveTriggered wave]) ++ x :: spawns).
      split; [|right; rewrite <- !app_assoc; reflexivity].
      apply Forall_forall. intros e He. apply in_app_or in He.
      destruct He as [He|He]; [apply (Hpre e He)|apply (Hsa e He)].
Qed.

Lemma spawnedPrefabs_app (a b : list Effect) :
  spawnedPrefabs (a ++ b) = spawnedPrefabs a ++ spawnedPrefabs b.
Proof. unfold spawnedPrefabs. apply flat_map_app. Qed.

Lemma spawn_counts_agree (l : list Effect) :
  List.length (spawnedPrefabs l) = List.length (spawnedGroups l)
  /\ List.length (loggedGroupTypes l) = List.length (spawnedGroups l).
Proof.
  induction l as [|e l [IH1 IH2]]; [split; reflexivity|].
  destruct e; simpl; auto.
Qed.

Lemma spawnAndTrack_prefab (g : Game) (t : SCR_EGroupType)
  (acc : Result * nat) (P : string) :
  m_sPrefab (resComponent (fst acc)) = P ->
  Forall (fun prefab => prefab = P) (spawnedPrefabs (resEffects (fst acc))) ->
  m_sPrefab (resComponent (fst (spawnAndTrack g t acc))) = P
  /\ Forall (fun prefab => prefab = P)
            (spawnedPrefabs (resEffects (fst (spawnAndTrack g t acc)))).
Proof.
  destruct acc as [[[c s] effs] n]. unfold resComponent, resEffects.
  cbn [fst snd]. intros Hp Hall. unfold spawnAndTrack.
  destruct (SpawnReinforcementGroup_cases g t c s)
    as [[_ E]|[[_ [_ E]]|[_ [_ E]]]]; rewrite E; cbn [fst snd];
    rewrite spawnedPrefabs_app; (split; [exact Hp|]);
    apply Forall_app; (split; [exact Hall|]); repeat constructor.
  exact Hp.
Qed.

Lemma iter_spawnAndTrack_prefab (g : Game) (t : SCR_EGroupType) (n : nat)
  (acc : Result * nat) (P : string) :
  m_sPrefab (resComponent (fst acc)) = P ->
  Forall (fun prefab => prefab = P) (spawnedPrefabs (resEffects (fst acc))) ->
  m_sPrefab (resComponent (fst (Nat.iter n (spawnAndTrack g t) acc))) = P
  /\ Forall (fun prefab => prefab = P)
            (spawnedPrefabs
               (resEffects (fst (Nat.iter n (spawnAndTrack g t) acc)))).
Proof.
  intros Hp Hall. induction n as [|n [IH1 IH2]]; [split; assumption|].
  cbn [Nat.iter nat_rect]. apply spawnAndTrack_prefab; assumption.
Qed.

Lemma alertIfAny_prefabs (wave : Z) (acc : Result * nat) :
  spawnedPrefabs (resEffects (alertIfAny wave acc))
  = spawnedPrefabs (resEffects (fst acc))
  /\ spawnedGroups (resEffects (alertIfAny wave acc))
     = spawnedGroups (resEffects (fst acc))
  /\ fst (alertIfAny wave acc) = fst (fst acc).
Proof.
  destruct acc as [[[c s] effs] n]. unfold alertIfAny, resEffects.
  destruct (0 <? n)%nat; cbn [fst snd]; [|repeat split; reflexivity].
  rewrite spawnedPrefabs_app, spawnedGroups_app. simpl.
  rewrite !app_nil_r. repeat split; reflexivity.
Qed.

Lemma spawnWave_prefab (g : Game) (wave : Z) (c : Component) (s : Sim)
  (e1 : list Effect) :
  Forall (fun prefab => prefab = m_sPrefab c) (spawnedPrefabs e1) ->
  Forall (fun prefab => prefab = m_sPrefab c)
         (spawnedPrefabs (resEffects (spawnWave g wave (c, s, e1)))).
Proof.
  intro Hall. unfold spawnWave.
  destruct (wave =? 4).
  - destruct (SpawnArmedHelicopter_cases g c s)
      as [[s' E]|[h [c' [s' E]]]]; rewrite E;
      match goal with
      | |- context [alertIfAny wave ?a] =>
          rewrite (proj1 (alertIfAny_prefabs wave a))
      end; unfold resEffects; cbn [fst snd];
      rewrite spawnedPrefabs_app; simpl; rewrite app_nil_r; exact Hall.
  - destruct (wave =? 3).
    + match goal with
      | |- context [alertIfAny wave ?a] =>
          rewrite (proj1 (alertIfAny_prefabs wave a))
      end.
      apply spawnAndTrack_prefab; apply spawnAndTrack_prefab;
        try reflexivity; exact Hall.
    + match goal with
      | |- context [alertIfAny wave ?a] =>
          rewrite (proj1 (alertIfAny_prefabs wave a))
      end.
      apply iter_spawnAndTrack_prefab; [reflexivity|exact Hall].
Qed.

Lemma deletes_spawn_nothing (l : list Effect) :
  Forall (fun e => isDelete e = true) l ->
  spawnedPrefabs l = [] /\ spawnedGroups l = [].
Proof.
  induction 1 as [|e l He _ [IH1 IH2]]; [split; reflexivity|].
  destruct e; try discriminate He. simpl. auto.
Qed.

Lemma Trigger_prefab (d : bool) (g : Game) (wave : Z) (c : Component)
  (s : Sim) :
  Forall (fun prefab => prefab = m_sPrefab c)
         (spawnedPrefabs (resEffects (TriggerReinforcements d g wave (c, s)))).
Proof.
  unfold TriggerReinforcements.
  destruct (GetWorld g) as [world|]; [|constructor].
  destruct d.
  - rewrite Despawn_as_loop.
    match goal with
    | |- context [spawnWave g wave (?c0, ?s0, ?e0)] =>
        apply (spawnWave_prefab g wave c0 s0 e0)
    end.
    rewrite spawnedPrefabs_app.
    rewrite (proj1 (deletes_spawn_nothing _ (despawnLoop_deletes _ _))).
    constructor.
  - match goal with
    | |- context [spawnWave g wave (?c0, ?s0, ?e0)] =>
        apply (spawnWave_prefab g wave c0 s0 e0)
    end.
    constructor.
Qed.

Lemma spawnAndTrack_alike (g : Game) (t1 t2 : SCR_EGroupType)
  (acc1 acc2 : Result * nat) :
  alike (resComponent (fst acc1)) (resComponent (fst acc2)) ->
  resSim (fst acc1) = resSim (fst acc2) ->
  snd acc1 = snd acc2 ->
  spawnedGroups (resEffects (fst acc1))
  = spawnedGroups (resEffects (fst acc2)) ->
  spawnedPrefabs (resEffects (fst acc1))
  = spawnedPrefabs (resEffects (fst acc2)) ->
  alike (resComponent (fst (spawnAndTrack g t1 acc1)))
        (resComponent (fst (spawnAndTrack g t2 acc2)))
  /\ resSim (fst (spawnAndTrack g t1 acc1))
     = resSim (fst (spawnAndTrack g t2 acc2))
  /\ snd (spawnAndTrack g t1 acc1) = snd (spawnAndTrack g t2 acc2)
  /\ spawnedGroups (resEffects (fst (spawnAndTrack g t1 acc1)))
     = spawnedGroups (resEffects (fst (spawnAndTrack g t2 acc2)))
  /\ spawnedPrefabs (resEffects (fst (spawnAndTrack g t1 acc1)))
     = spawnedPrefabs (resEffects (fst (spawnAndTrack g t2 acc2))).
Proof.
  destruct acc1 as [[[c1 s1] e1] n1], acc2 as [[[c2 s2] e2] n2].
  unfold resComponent, resSim, resEffects. cbn [fst snd].
  intros [A1 [A2 [A3 [A4 A5]]]] -> -> Hg Hp.
  unfold spawnAndTrack, SpawnReinforcementGroup, alike.
  rewrite A1, A2, A3.
  destruct (IsEmpty (m_sPrefab c2));
    [cbn [fst snd]; rewrite ?app_nil_r; repeat split; congruence|].
  destruct (m_Faction c2) eqn:F2;
    [|cbn [fst snd]; rewrite ?app_nil_r; repeat split; congruence].
  destruct (m_nearBase c2) eqn:B2;
    [|cbn [fst snd]; rewrite ?app_nil_r; repeat split; congruence].
  destruct (negb (prefabValid g (m_sPrefab c2)));
    [cbn [fst snd]; rewrite ?app_nil_r; repeat split; congruence|].
  unfold SpawnEntityPrefab.
  destruct (spawnSucceeds g (sim_calls s2)); cbv beta iota zeta;
    cbn [fst snd];
    [|rewrite ?app_nil_r; repeat split; congruence].
  rewrite !spawnedGroups_app, !spawnedPrefabs_app, Hg, Hp, A4.
  simpl. repeat split; congruence.
Qed.

Lemma iter_spawnAndTrack_alike (g : Game) (t1 t2 : SCR_EGroupType)
  (n : nat) (acc1 acc2 : Result * nat) :
  alike (resComponent (fst acc1)) (resComponent (fst acc2)) ->
  resSim (fst acc1) = resSim (fst acc2) ->
  snd acc1 = snd acc2 ->
  spawnedGroups (resEffects (fst acc1))
  = spawnedGroups (resEffects (fst acc2)) ->
  spawnedPrefabs (resEffects (fst acc1))
  = spawnedPrefabs (resEffects (fst acc2)) ->
  alike (resComponent (fst (Nat.iter n (spawnAndTrack g t1) acc1)))
        (resComponent (fst (Nat.iter n (spawnAndTrack g t2) acc2)))
  /\ resSim (fst (Nat.iter n (spawnAndTrack g t1) acc1))
     = resSim (fst (Nat.iter n (spawnAndTrack g t2) acc2))
  /\ snd (Nat.iter n (spawnAndTrack g t1) acc1)
     = snd (Nat.iter n (spawnAndTrack g t2) acc2)
  /\ spawnedGroups (resEffects (fst (Nat.iter n (spawnAndTrack g t1) acc1)))
     = spawnedGroups
         (resEffects (fst (Nat.iter n (spawnAndTrack g t2) acc2)))
  /\ spawnedPrefabs (resEffects (fst (Nat.iter n (spawnAndTrack g t1) acc1)))
     = spawnedPrefabs
         (resEffects (fst (Nat.iter n (spawnAndTrack g t2) acc2))).
Proof.
  intros H1 H2 H3 H4 H5.
  induction n as [|n [I1 [I2 [I3 [I4 I5]]]]]; [auto 10|].
  cbn [Nat.iter nat_rect]. apply spawnAndTrack_alike; assumption.
Qed.

Lemma Trigger_sameForce (d : bool) (g : Game) (wave wave' : Z)
  (c : Component) (s : Sim) :
  wave <> 3 -> wave <> 4 -> wave' <> 3 -> wave' <> 4 ->
  sameForce (TriggerReinforcements d g wave' (c, s))
            (TriggerReinforcements d g wave (c, s)).
Proof.
  intros H3 H4 H3' H4'. unfold TriggerReinforcements.
  destruct (GetWorld g) as [world|]; [|repeat split].
  destruct (if d then DespawnPreviousWaveGroups c s else (c, s, []))
    as [[c0 s0] e0].
  unfold spawnWave.
  destruct (Z.eqb_spec wave 4) as [E|_]; [contradiction|].
  destruct (Z.eqb_spec wave 3) as [E|_]; [contradiction|].
  destruct (Z.eqb_spec wave' 4) as [E|_]; [contradiction|].
  destruct (Z.eqb_spec wave' 3) as [E|_]; [contradiction|].
  match goal with
  | |- sameForce (alertIfAny wave' (Nat.iter ?n (spawnAndTrack g ?t1) ?a1))
                 (alertIfAny wave (Nat.iter ?n (spawnAndTrack g ?t2) ?a2)) =>
      destruct (iter_spawnAndTrack_alike g t1 t2 n a1 a2)
        as [[_ [_ [_ [I1 I2]]]] [I3 [I4 [I5 I6]]]];
      [repeat split
      |reflexivity|reflexivity
      |unfold resEffects; cbn [fst snd];
       rewrite !spawnedGroups_app; reflexivity
      |unfold resEffects; cbn [fst snd];
       rewrite !spawnedPrefabs_app; reflexivity|];
      destruct (alertIfAny_prefabs wave'
                  (Nat.iter n (spawnAndTrack g t1) a1)) as [P1 [G1 S1]];
      destruct (alertIfAny_prefabs wave
                  (Nat.iter n (spawnAndTrack g t2) a2)) as [P2 [G2 S2]]
  end.
  unfold sameForce, resSim, resComponent in *.
  rewrite S1, S2, P1, P2, G1, G2. auto 10.
Qed.

(** X9: every group a trigger spawns is spawned from the one prefab of the
    component, [m_sPrefab], whatever the wave.  The wave decides how many
    spawn calls are made (one for wave 1, one for wave 2 or any other
    number, two for wave 3, none for wave 4) and which group type each call
    writes to the log (a fire team for wave 1, a rifle squad for wave 2, a
    rifle squad and a fire team for wave 3); only wave 4 spawns a
    helicopter, and at most one.  Two triggers for waves other than 3 and 4,
    such as waves 1 and 2, therefore leave the same force behind: the same
    group entities from the same prefab, the same tracking arrays and the
    same world. *)
Theorem waves_spawn_one_prefab
  (d : bool) (g : Game) (wave : Z) (c : Component) (s : Sim)
  (w : ChimeraWorld) :
  GetWorld g = Some w ->
  let r := TriggerReinforcements d g wave (c, s) in
  let effs := resEffects r in
  Forall (fun prefab => prefab = m_sPrefab c) (spawnedPrefabs effs)
  /\ List.length (spawnedPrefabs effs) = List.length (spawnedGroups effs)
  /\ (List.length (spawnedGroups effs)
      <= List.length (waveGroupTypes wave))%nat
  /\ incl (loggedGroupTypes effs) (waveGroupTypes wave)
  /\ (List.length (spawnedHelicopters effs)
      <= if (wave =? 4)%Z then 1 else 0)%nat
  /\ (canSpawnGroup g c = true -> (forall n, spawnSucceeds g n = true) ->
      loggedGroupTypes effs = waveGroupTypes wave
      /\ spawnedPrefabs effs
         = repeat (m_sPrefab c) (List.length (waveGroupTypes wave)))
  /\ (forall wave',
        wave <> 3 -> wave <> 4 -> wave' <> 3 -> wave' <> 4 ->
        sameForce (TriggerReinforcements d g wave' (c, s)) r).
Proof.
  intros Hw r effs. subst effs r.
  destruct (Trigger_shape d g wave c s w Hw)
    as [e0 [spawns [E [Hd [Hs [Hl [Hi [Hh Hall]]]]]]]].
  assert (loggedGroupTypes
            (resEffects (TriggerReinforcements d g wave (c, s)))
          = loggedGroupTypes spawns
          /\ spawnedHelicopters
               (resEffects (TriggerReinforcements d g wave (c, s)))
             = spawnedHelicopters spawns) as [Et Eh].
  { rewrite E.
    rewrite (loggedGroupTypes_app (e0 ++ _)), (loggedGroupTypes_app spawns),
      (spawnedHelicopters_app (e0 ++ _)), (spawnedHelicopters_app spawns).
    assert (Forall (fun e => isSpawned e = false)
                   (e0 ++ [WaveTriggered wave])) as Hpre.
    { apply Forall_app. split; [|repeat constructor].
      eapply Forall_impl; [|exact Hd]. intros [] H; try discriminate; auto. }
    destruct (spawned_types_of_others _ Hpre) as [-> ->].
    assert (Forall (fun e => isSpawned e = false)
                   match spawns with
                   | [] => []
                   | _ :: _ => [BroadcastReinforcementAlert wave]
                   end) as Hpost
      by (destruct spawns; repeat constructor).
    destruct (spawned_types_of_others _ Hpost) as [-> ->].
    rewrite !app_nil_r. auto. }
  pose proof (Trigger_prefab d g wave c s) as Hp.
  destruct (spawn_counts_agree
              (resEffects (TriggerReinforcements d g wave (c, s))))
    as [C1 C2].
  split; [exact Hp|]. split; [exact C1|].
  split; [rewrite <- C2, Et; exact Hl|].
  split; [rewrite Et; exact Hi|].
  split; [rewrite Eh; exact Hh|].
  split.
  - intros Hc Hok. specialize (Hall Hc Hok).
    split; [rewrite Et; exact Hall|].
    rewrite <- Hall, <- Et, C2, <- C1.
    clear -Hp.
    induction Hp as [|x l Hx _ IH]; [reflexivity|].
    simpl. rewrite Hx, <- IH. reflexivity.
  - intros wave' H3 H4 H3' H4'. apply Trigger_sameForce; assumption.
Qed.

(** ** What the tracking arrays hold *)

Lemma NoDup_app_swap {A : Type} (a b : list A) :
  NoDup (a ++ b) -> NoDup (b ++ a).
Proof. apply Permutation_NoDup, Permutation_app_comm. Qed.

Lemma inv_spawnAndTrack (g : Game) (t : SCR_EGroupType) (c : Component)
  (s : Sim) (effs : list Effect) (n : nat) :
  trackingInv (c, s) ->
  trackingInv (fst (fst (spawnAndTrack g t ((c, s, effs), n)))).
Proof.
  intros [Hf [Hnd Hlt]]. unfold spawnAndTrack. simpl in *.
  destruct (SpawnReinforcementGroup_cases g t c s)
    as [[_ E]|[[_ [_ E]]|[_ [_ E]]]]; rewrite E;
    unfold trackingInv, simFresh in *; simpl.
  - split; [exact Hf|]. split; assumption.
  - split; [|split].
    + intros e He. specialize (Hf e He). simpl in *. lia.
    + exact Hnd.
    + intros e He. specialize (Hlt e He). simpl. lia.
  - split; [|split]; simpl.
    + intros e [<-|He]; [lia|]. specialize (Hf e He). lia.
    + assert (~ In (sim_calls s)
                (m_aReinforcementGroups c ++ m_aReinforcementHelicopters c))
        as Hnin by (intro H; specialize (Hlt _ H); lia).
      apply (Permutation_NoDup
               (l := sim_calls s :: m_aReinforcementGroups c
                       ++ m_aReinforcementHelicopters c)).
      * rewrite <- app_assoc. apply Permutation_middle.
      * constructor; [exact Hnin|exact Hnd].
    + intros e He. rewrite <- app_assoc in He. apply in_app_or in He.
      destruct He as [He|[<-|He]]; [|lia|].
      * assert ((e < sim_calls s)%nat) by (apply Hlt, in_or_app; auto). lia.
      * assert ((e < sim_calls s)%nat) by (apply Hlt, in_or_app; auto). lia.
Qed.

Lemma inv_same_tracking (c c' : Component) (s : Sim) :
  m_aReinforcementGroups c' = m_aReinforcementGroups c ->
  m_aReinforcementHelicopters c' = m_aReinforcementHelicopters c ->
  trackingInv (c, s) -> trackingInv (c', s).
Proof.
  unfold trackingInv. simpl. intros -> ->. auto.
Qed.

Lemma inv_SpawnArmedHelicopter (g : Game) (c : Component) (s : Sim) :
  trackingInv (c, s) ->
  trackingInv (fst (snd (SpawnArmedHelicopter g c s))).
Proof.
  intros [Hf [Hnd Hlt]].
  unfold SpawnArmedHelicopter, SpawnEntityPrefab.
  unfold trackingInv, simFresh in *. simpl in *.
  destruct (m_nearBase c); [|simpl; auto].
  destruct (prefabValid g HELICOPTER_PREFAB_MI8MT); simpl; [|auto].
  destruct (spawnSucceeds g (sim_calls s)); simpl.
  - split; [|split].
    + intros e [<-|He]; [lia|]. specialize (Hf e He). lia.
    + assert (~ In (sim_calls s)
                (m_aReinforcementGroups c ++ m_aReinforcementHelicopters c))
        as Hnin by (intro H; specialize (Hlt _ H); lia).
      apply (Permutation_NoDup
               (l := sim_calls s :: m_aReinforcementGroups c
                       ++ m_aReinforcementHelicopters c)).
      * rewrite app_assoc. apply Permutation_cons_append.
      * constructor; [exact Hnin|exact Hnd].
    + intros e He. rewrite app_assoc in He. apply in_app_or in He.
      destruct He as [He|[<-|[]]]; [|lia].
      specialize (Hlt e He). lia.
  - split; [|split]; auto.
    + intros e He. specialize (Hf e He). lia.
    + intros e He. specialize (Hlt e He). lia.
Qed.

Lemma alertIfAny_state (wave : Z) (acc : Result * nat) :
  fst (alertIfAny wave acc) = fst (fst acc).
Proof.
  destruct acc as [[[c s] effs] n]. unfold alertIfAny.
  destruct (0 <? n)%nat; reflexivity.
Qed.

Lemma inv_spawnAndTrack_acc (g : Game) (t : SCR_EGroupType)
  (acc : Result * nat) :
  trackingInv (fst (fst acc)) ->
  trackingInv (fst (fst (spawnAndTrack g t acc))).
Proof.
  destruct acc as [[[c s] effs] n]. apply inv_spawnAndTrack.
Qed.

Lemma inv_spawnWave (g : Game) (wave : Z) (c : Component) (s : Sim)
  (e1 : list Effect) :
  trackingInv (c, s) -> trackingInv (fst (spawnWave g wave (c, s, e1))).
Proof.
  intro H. unfold spawnWave.
  destruct (wave =? 4).
  - pose proof (inv_SpawnArmedHelicopter g c s H) as Hh.
    destruct (SpawnArmedHelicopter g c s) as [[h|] [[c' s'] e]];
      rewrite alertIfAny_state; exact Hh.
  - destruct (wave =? 3).
    + rewrite alertIfAny_state.
      apply inv_spawnAndTrack_acc, inv_spawnAndTrack_acc. exact H.
    + unfold REINFORCEMENT_GROUP_COUNT. cbv zeta. cbv [Nat.iter nat_rect].
      rewrite alertIfAny_state. apply inv_spawnAndTrack_acc. exact H.
Qed.

Lemma inv_Despawn (c : Component) (s : Sim) :
  trackingInv (c, s) ->
  trackingInv (fst (DespawnPreviousWaveGroups c s)).
Proof.
  intros [Hf _]. rewrite Despawn_as_loop.
  unfold trackingInv, simFresh in *. simpl in *.
  destruct (despawnLoop_sim
              (m_aReinforcementGroups c ++ m_aReinforcementHelicopters c) s)
    as [Ha Hc].
  rewrite Ha, Hc. split; [|split; [constructor|intros e []]].
  intros e He. apply filter_In in He. apply Hf. tauto.
Qed.

Lemma inv_Trigger (d : bool) (g : Game) (wave : Z) (c : Component)
  (s : Sim) :
  trackingInv (c, s) ->
  trackingInv (fst (TriggerReinforcements d g wave (c, s))).
Proof.
  intro H. unfold TriggerReinforcements.
  destruct (GetWorld g) as [w|]; [|exact H].
  destruct d.
  - pose proof (inv_Despawn c s H) as Hd.
    destruct (DespawnPreviousWaveGroups c s) as [[c0 s0] e0].
    apply inv_spawnWave.
    exact (inv_same_tracking c0 _ s0 eq_refl eq_refl Hd).
  - apply inv_spawnWave.
    exact (inv_same_tracking c _ s eq_refl eq_refl H).
Qed.

Lemma inv_Reset (d : bool) (c : Component) (s : Sim) :
  trackingInv (c, s) ->
  trackingInv (fst (ResetReinforcementState d c s)).
Proof.
  intro H. unfold ResetReinforcementState. destruct d.
  - apply inv_Despawn.
    exact (inv_same_tracking c _ s eq_refl eq_refl H).
  - exact (inv_same_tracking c _ s eq_refl eq_refl H).
Qed.

Lemma inv_Update (d : bool) (g : Game) (combatActive : bool)
  (c : Component) (s : Sim) :
  trackingInv (c, s) ->
  trackingInv (fst (UpdateReinforcementState d g combatActive (c, s))).
Proof.
  intro H. unfold UpdateReinforcementState.
  destruct (GetWorld g) as [w|]; [|exact H].
  set (c1 := if combatActive && negb (m_bReinforcementActive c)
             then set_bReinforcementActive true
                    (set_tCombatStartTime (Some (GetServerTimestamp w)) c)
             else c).
  assert (trackingInv (c1, s)) as H1.
  { subst c1. destruct (combatActive && negb (m_bReinforcementActive c));
      [|exact H].
    exact (inv_same_tracking c _ s eq_refl eq_refl H). }
  cbv zeta.
  destruct (negb combatActive && m_bReinforcementActive c1);
    [apply inv_Reset, H1|].
  destruct (m_bReinforcementActive c1); [|exact H1].
  destruct (m_tCombatStartTime c1); [|exact H1].
  destruct (inCooldown (GetServerTimestamp w) (m_tLastReinforcementTime c1));
    [exact H1|].
  repeat match goal with
         | |- context [if ?b then _ else _] => destruct b
         end; try apply inv_Trigger; exact H1.
Qed.

Lemma NoDup_filter_app {A : Type} (f : A -> bool) (a b : list A) :
  NoDup (a ++ b) -> NoDup (filter f a ++ b).
Proof.
  induction a as [|x a IH]; simpl; intro H; [exact H|].
  apply NoDup_cons_iff in H. destruct H as [Hx Hnd].
  destruct (f x); [|apply IH, Hnd].
  simpl. constructor; [|apply IH, Hnd].
  intro Hin. apply Hx. apply in_app_or in Hin. apply in_or_app.
  destruct Hin as [Hin|Hin]; [left|right; exact Hin].
  apply filter_In in Hin. tauto.
Qed.

Lemma inv_Cleanup (g : Game) (c : Component) (s : Sim) :
  trackingInv (c, s) ->
  trackingInv (CleanupDeadReinforcementGroups g (c, s)).
Proof.
  intros [Hf [Hnd Hlt]]. simpl in Hf, Hnd, Hlt.
  unfold CleanupDeadReinforcementGroups.
  destruct (m_aReinforcementGroups c) as [|x l] eqn:E.
  - unfold trackingInv. simpl. rewrite E. auto.
  - pose proof (cleanupLoop_perm g s (List.length (x :: l)) (x :: l)
                  (le_n _)) as Hp.
    rewrite skipn_all in Hp. specialize (Hp (Forall_nil _)).
    set (L := cleanupLoop g s (List.length (x :: l)) (x :: l)) in *.
    assert (simFresh s
            /\ NoDup (L ++ m_aReinforcementHelicopters c)
            /\ forall e, In e (L ++ m_aReinforcementHelicopters c) ->
                         (e < sim_calls s)%nat) as G; [|exact G].
    split; [exact Hf|]. split.
    + apply (Permutation_NoDup
               (l := filter (keepGroup g s) (x :: l)
                       ++ m_aReinforcementHelicopters c)).
      * apply Permutation_app_tail, Permutation_sym, Hp.
      * apply NoDup_filter_app. exact Hnd.
    + intros e He. apply Hlt. apply in_app_or in He. apply in_or_app.
      destruct He as [He|He]; [left|right; exact He].
      apply (Permutation_in _ Hp) in He. apply filter_In in He. tauto.
Qed.

Lemma inv_Check (d : bool) (g : Game) (st : State) :
  trackingInv st -> trackingInv (fst (CheckReinforcements d g st)).
Proof.
  destruct st as [c s]. intro H. unfold CheckReinforcements.
  destruct (m_bIsReinforcementCoordinator c); [|exact H]. simpl negb.
  cbv iota.
  destruct (m_nearBase c); [|exact H].
  pose proof (inv_Update d g (DetectCombatAtBase g c) c s H) as Hu.
  destruct (UpdateReinforcementState d g (DetectCombatAtBase g c) (c, s))
    as [[c' s'] effs].
  simpl. apply inv_Cleanup. exact Hu.
Qed.

(** X10: along any run of the coordinator's periodic callback that starts
    with nothing tracked twice and every existing or tracked entity named by
    an earlier spawn, the same holds after every tick: no group or helicopter
    is ever tracked twice, and what is tracked was spawned through the
    component's own spawn calls. *)
Theorem tracking_arrays_stay_duplicate_free
  (d : bool) (games : list Game) (st0 : State) :
  trackingInv st0 ->
  Forall (fun r => trackingInv (fst r)) (runChecks d games st0).
Proof.
  revert st0. induction games as [|g rest IH]; intros st0 H; simpl.
  - constructor.
  - constructor; [apply inv_Check, H|]. apply IH, inv_Check, H.
Qed.

(** ** The periodic callback *)

Lemma Cleanup_combat (g : Game) (st : State) :
  combatState (fst (CleanupDeadReinforcementGroups g st))
  = combatState (fst st).
Proof.
  destruct st as [c s]. unfold CleanupDeadReinforcementGroups.
  destruct (m_aReinforcementGroups c); reflexivity.
Qed.

Lemma detect_false_on_lost_base (g : Game) (c : Component) (b : BaseRef) :
  m_nearBase c = Some b ->
  base_GetFaction g b <> m_Faction c ->
  DetectCombatAtBase g c = false.
Proof.
  intros Hb Hne. unfold DetectCombatAtBase. rewrite Hb.
  destruct (base_GetFaction g b) as [f|]; [|reflexivity].
  destruct (sameFaction (Some f) (m_Faction c)) eqn:E; [|reflexivity].
  apply sameFaction_true_iff in E. congruence.
Qed.

Lemma fires_only_with_combat (d : bool) (g : Game) (combatActive : bool)
  (c : Component) (s : Sim) (w : Z) :
  In w (wavesTriggered
          (resEffects (UpdateReinforcementState d g combatActive (c, s)))) ->
  combatActive = true.
Proof.
  intro Hin.
  destruct (Update_cases d g combatActive c s)
    as [[_ E]|[now [_ [H|[H|[H|H]]]]]].
  - rewrite E in Hin. contradiction.
  - destruct H as [_ [_ [_ Hwv]]]. rewrite Hwv in Hin. contradiction.
  - destruct H as [_ [_ E]]. rewrite E in Hin. contradiction.
  - destruct H as [Hca _]. exact Hca.
  - destruct H as [Hca _]. exact Hca.
Qed.

Lemma Check_unfold (d : bool) (g : Game) (c : Component) (s : Sim)
  (b : BaseRef) :
  m_bIsReinforcementCoordinator c = true ->
  m_nearBase c = Some b ->
  CheckReinforcements d g (c, s)
  = (CleanupDeadReinforcementGroups g
       (fst (UpdateReinforcementState d g (DetectCombatAtBase g c) (c, s))),
     snd (UpdateReinforcementState d g (DetectCombatAtBase g c) (c, s))).
Proof.
  intros Hco Hb. unfold CheckReinforcements. rewrite Hco, Hb. simpl negb.
  cbv iota.
  destruct (UpdateReinforcementState d g (DetectCombatAtBase g c) (c, s)).
  reflexivity.
Qed.

Lemma Check_idle (d : bool) (g : Game) (c : Component) (s : Sim) :
  m_bIsReinforcementCoordinator c = false \/ m_nearBase c = None ->
  CheckReinforcements d g (c, s) = (c, s, []).
Proof.
  unfold CheckReinforcements. intros [H|H]; rewrite H; [reflexivity|].
  destruct (m_bIsReinforcementCoordinator c); reflexivity.
Qed.

(** X11: the periodic callback triggers a wave only for a coordinator with a
    resolved base on a tick at which the detector finds combat.  On a tick at
    which the detector finds none, in particular once the base's faction is
    no longer the defenders', no wave is triggered, and when the world
    resolves the component ends inactive, with the wave counter back at 0 if
    it was active. *)
Theorem check_escalates_only_under_attack
  (d : bool) (g : Game) (c : Component) (s : Sim) :
  let r := CheckReinforcements d g (c, s) in
  (forall w, In w (wavesTriggered (resEffects r)) ->
             m_bIsReinforcementCoordinator c = true
             /\ m_nearBase c <> None
             /\ DetectCombatAtBase g c = true)
  /\ (forall b, m_nearBase c = Some b ->
                base_GetFaction g b <> m_Faction c ->
                DetectCombatAtBase g c = false)
  /\ (m_bIsReinforcementCoordinator c = true ->
      m_nearBase c <> None ->
      GetWorld g <> None ->
      DetectCombatAtBase g c = false ->
      wavesTriggered (resEffects r) = []
      /\ m_bReinforcementActive (resComponent r) = false
      /\ (m_bReinforcementActive c = true ->
          m_iReinforcementWave (resComponent r) = 0)).
Proof.
  intro r. subst r. split; [|split].
  - intros w Hin.
    destruct (m_bIsReinforcementCoordinator c) eqn:Hco.
    2:{ rewrite Check_idle in Hin by auto. contradiction. }
    destruct (m_nearBase c) as [b|] eqn:Hb.
    2:{ rewrite Check_idle in Hin by auto. contradiction. }
    split; [reflexivity|]. split; [discriminate|].
    rewrite (Check_unfold d g c s b Hco Hb) in Hin.
    exact (fires_only_with_combat d g (DetectCombatAtBase g c) c s w Hin).
  - intros b Hb Hne. exact (detect_false_on_lost_base g c b Hb Hne).
  - intros Hco Hb Hw Hdet.
    destruct (m_nearBase c) as [b|] eqn:Hb'; [|congruence].
    rewrite (Check_unfold d g c s b Hco Hb'), Hdet.
    unfold resEffects, resComponent. cbn [fst snd].
    pose proof (Cleanup_combat g
                  (fst (UpdateReinforcementState d g false (c, s)))) as Hcl.
    destruct (Update_cases d g false c s)
      as [[Hw' _]|[now [_ [H|[H|[H|H]]]]]].
    + congruence.
    + destruct H as [_ [Hact [Hc Hwv]]].
      unfold resComponent, resEffects in Hc, Hwv. rewrite Hc in Hcl.
      apply combatState_inj in Hcl. tauto.
    + destruct H as [_ [Hact E]]. rewrite E in *. cbn [fst snd] in *.
      apply (f_equal (fun p => snd (fst (fst p)))) in Hcl.
      unfold combatState in Hcl. cbn [fst snd] in Hcl.
      split; [reflexivity|]. split; congruence.
    + destruct H as [Hf _]. discriminate.
    + destruct H as [Hf _]. discriminate.
Qed.

(** ** The lifecycle guard, further *)

Lemma friendlyLoop_iff (f : Faction) (players : list (option IEntity)) :
  friendlyLoop f players = true
  <-> exists p, In (Some p) players /\ ent_character p = Some (Some f).
Proof.
  induction players as [|[p|] rest IH]; simpl.
  - split; [discriminate|intros [p [[] _]]].
  - destruct (ent_character p) as [pf|] eqn:Hc.
    + destruct (sameFaction pf (Some f)) eqn:Hs.
      * apply sameFaction_true_iff in Hs. subst pf.
        split; [intros _; exists p; auto|reflexivity].
      * rewrite IH. split.
        -- intros [q [Hin Hq]]. eauto.
        -- intros [q [[[= <-]|Hin] Hq]]; [|eauto].
           rewrite Hc in Hq. inversion Hq; subst pf.
           assert (sameFaction (Some f) (Some f) = true)
             by (apply sameFaction_true_iff; reflexivity).
           congruence.
    + rewrite IH. split.
      * intros [q [Hin Hq]]. eauto.
      * intros [q [[[= <-]|Hin] Hq]]; [congruence|eauto].
  - rewrite IH. split.
    + intros [q [Hin Hq]]. eauto.
    + intros [q [[Hd|Hin] Hq]]; [discriminate|eauto].
Qed.

(** X12: a base counts as friendly-held exactly when it has a faction, the
    player manager resolves, and some player controls a character of that
    faction; whether that character is alive and where it stands plays no
    part. *)
Theorem base_friendly_iff_player_of_its_faction (g : Game) (b : BaseRef) :
  IsBaseFriendly g b = true
  <-> exists f players p,
        base_GetFaction g b = Some f
        /\ GetPlayerManager g = Some players
        /\ In (Some p) players
        /\ ent_character p = Some (Some f).
Proof.
  unfold IsBaseFriendly. split.
  - destruct (base_GetFaction g b) as [f|]; [|discriminate].
    destruct (GetPlayerManager g) as [players|]; [|discriminate].
    intro H. apply friendlyLoop_iff in H. destruct H as [p [Hin Hp]].
    exists f, players, p. auto.
  - intros [f [players [p [-> [-> [Hin Hp]]]]]].
    apply friendlyLoop_iff. eauto.
Qed.

Lemma guard_rear_step (c c0 : Component) (b : BaseRef) (g : Game) (t0 : Z) :
  m_nearBase c = Some b ->
  m_Faction c = m_Faction c0 ->
  isRearSnapshot c0 b g = true ->
  m_tInactiveSince c = Some t0 ->
  exists now,
    tickTime g = Some now
    /\ ShouldKeepDefendersActive g c
       = (negb (Qle_bool (inject_Z INACTIVE_GRACE_PERIOD)
                         (DiffSeconds now t0)), c).
Proof.
  intros Hb Hf Hrear Ht. unfold isRearSnapshot in Hrear.
  rewrite (IsBaseOnFrontline_faction g c0 c b (eq_sym Hf)) in Hrear.
  apply andb_true_iff in Hrear. destruct Hrear as [Hrear Hw].
  apply andb_true_iff in Hrear. destruct Hrear as [Hfr Hfl].
  apply negb_true_iff in Hfl.
  unfold ShouldKeepDefendersActive, tickTime.
  rewrite Hb, Hfr, Hfl. simpl.
  destruct (GetWorld g) as [w|]; [|discriminate].
  exists (GetServerTimestamp w). split; [reflexivity|]. rewrite Ht.
  destruct (Qle_bool (inject_Z INACTIVE_GRACE_PERIOD)
                     (DiffSeconds (GetServerTimestamp w) t0)); reflexivity.
Qed.

Lemma guard_rear_run (c0 : Component) (b : BaseRef) (t0 : Z)
  (rest : list Game) :
  forall c,
    m_nearBase c = Some b ->
    m_Faction c = m_Faction c0 ->
    m_tInactiveSince c = Some t0 ->
    Forall (fun gk => isRearSnapshot c0 b gk = true) rest ->
    guardState rest c = c.
Proof.
  induction rest as [|g rest IH]; intros c Hb Hf Ht Hall; [reflexivity|].
  apply Forall_cons_iff in Hall. destruct Hall as [Hg Hall].
  destruct (guard_rear_step c c0 b g t0 Hb Hf Hg Ht) as [now [_ E]].
  unfold guardState in *. simpl. rewrite E. simpl. apply IH; assumption.
Qed.

(** X13: for a base that stays friendly-held and away from the frontline,
    with the world resolved, the guard answers [true] on the first snapshot
    and starts the timer there; the timer then stays at that time, and on any
    later snapshot the guard answers [false] exactly when at least 600
    seconds have passed since the first one. *)
Theorem guard_answers_false_exactly_after_grace
  (c0 : Component) (b : BaseRef) (g0 : Game) (rest : list Game) (g : Game)
  (t0 t : Z) :
  m_nearBase c0 = Some b ->
  m_tInactiveSince c0 = None ->
  Forall (fun gk => isRearSnapshot c0 b gk = true) (g0 :: rest ++ [g]) ->
  tickTime g0 = Some t0 ->
  tickTime g = Some t ->
  fst (ShouldKeepDefendersActive g0 c0) = true
  /\ m_tInactiveSince (guardState (g0 :: rest) c0) = Some t0
  /\ (fst (ShouldKeepDefendersActive g (guardState (g0 :: rest) c0)) = false
      <-> 600000 <= t - t0).
Proof.
  intros Hb Hnone Hall Ht0 Ht.
  apply Forall_cons_iff in Hall. destruct Hall as [Hg0 Hall].
  apply Forall_app in Hall. destruct Hall as [Hrest Hg].
  apply Forall_cons_iff in Hg. destruct Hg as [Hg _].
  assert (ShouldKeepDefendersActive g0 c0
          = (true, set_tInactiveSince (Some t0) c0)) as E0.
  { unfold isRearSnapshot in Hg0.
    apply andb_true_iff in Hg0. destruct Hg0 as [Hg0 Hw].
    apply andb_true_iff in Hg0. destruct Hg0 as [Hfr Hfl].
    apply negb_true_iff in Hfl.
    unfold ShouldKeepDefendersActive. rewrite Hb, Hfr, Hfl. simpl.
    unfold tickTime in Ht0. destruct (GetWorld g0) as [w|]; [|discriminate].
    inversion Ht0; subst. rewrite Hnone. reflexivity. }
  assert (guardState (g0 :: rest) c0 = set_tInactiveSince (Some t0) c0) as E.
  { unfold guardState. simpl. rewrite E0. simpl.
    apply (guard_rear_run c0 b t0 rest); auto. }
  split; [rewrite E0; reflexivity|]. split; [rewrite E; reflexivity|].
  rewrite E.
  destruct (guard_rear_step (set_tInactiveSince (Some t0) c0) c0 b g t0
              Hb eq_refl Hg eq_refl) as [now [Hnow Es]].
  rewrite Es. simpl. assert (now = t) by congruence. subst now.
  rewrite negb_false_iff, Qle_bool_iff, DiffSeconds_ge.
  unfold INACTIVE_GRACE_PERIOD. lia.
Qed.

Lemma frontline_when_collaborator_missing (g : Game) (c : Component)
  (b : BaseRef) :
  GetGameMode g = None
  \/ (exists gameMode, GetGameMode g = Some gameMode
                       /\ GetBaseManager gameMode = None)
  \/ GetFactionManager g = None
  \/ castCampaignFaction g (m_Faction c) = None ->
  IsBaseOnFrontline g c b = true.
Proof.
  intro H. unfold IsBaseOnFrontline.
  destruct (GetGameMode g) as [gm|] eqn:Hgm; [|reflexivity].
  destruct (GetBaseManager gm) as [bm|] eqn:Hbm; [|reflexivity].
  destruct (GetFactionManager g) as [fm|] eqn:Hfm; [|reflexivity].
  destruct (castCampaignFaction g (m_Faction c)) as [ours|] eqn:Ho;
    [|reflexivity].
  exfalso. destruct H as [H|[[gm' [H1 H2]]|[H|H]]]; congruence.
Qed.

(** X14: [UpdateTarget] does nothing beyond [PrepareBase] while the base is
    not ready, and marks a ready component without base as not near target.
    For a ready component with a base it clears the target-changed flag, and
    it marks the base near target whenever the base is not friendly-held, is
    classified frontline (as it is when the game mode, the base manager, the
    faction manager or the campaign faction is missing), or the world does
    not resolve; it marks it not near target only for a friendly-held,
    non-frontline base whose timer was set at least 600 seconds before. *)
Theorem update_target_fails_open
  (super_PrepareBase : Game -> Component -> Component) (g : Game)
  (c : Component) :
  let c1 := fst (PrepareBase super_PrepareBase g c) in
  let c2 := UpdateTarget super_PrepareBase g c in
  (m_bBaseReady c1 = false -> c2 = c1)
  /\ (m_bBaseReady c1 = true -> m_nearBase c1 = None ->
      c2 = SetIsNearTarget false c1)
  /\ (forall b,
        m_bBaseReady c1 = true -> m_nearBase c1 = Some b ->
        m_bIsTargetChanged c2 = false
        /\ (IsBaseFriendly g b = false \/ IsBaseOnFrontline g c1 b = true
            \/ GetWorld g = None \/ GetGameMode g = None
            \/ GetFactionManager g = None
            \/ castCampaignFaction g (m_Faction c1) = None ->
            m_bIsNearTarget c2 = true)
        /\ (m_bIsNearTarget c2 = false ->
            IsBaseFriendly g b = true
            /\ IsBaseOnFrontline g c1 b = false
            /\ exists since now,
                 m_tInactiveSince c1 = Some since
                 /\ tickTime g = Some now
                 /\ 600000 <= now - since)).
Proof.
  intros c1 c2. subst c2. unfold UpdateTarget. fold c1.
  split; [intros ->; reflexivity|].
  split; [intros -> ->; reflexivity|].
  intros b Hr Hb. rewrite Hr, Hb. simpl negb. cbv iota.
  assert (forall x, m_bIsTargetChanged (SetIsTargetChanged false x) = false)
    as Hch by reflexivity.
  assert (forall v x,
            m_bIsNearTarget (SetIsTargetChanged false (SetIsNearTarget v x))
            = v) as Hnt by reflexivity.
  destruct (IsBaseFriendly g b) eqn:Hfr; simpl negb; cbv iota.
  2:{ rewrite Hch, Hnt. split; [reflexivity|]. split; [reflexivity|].
      discriminate. }
  unfold ShouldKeepDefendersActive, tickTime. rewrite Hb, Hfr. simpl negb.
  cbv iota.
  destruct (IsBaseOnFrontline g c1 b) eqn:Hfl.
  { rewrite Hch, Hnt. split; [reflexivity|]. split; [reflexivity|].
    discriminate. }
  assert (GetGameMode g <> None /\ GetFactionManager g <> None
          /\ castCampaignFaction g (m_Faction c1) <> None) as [Hgm [Hfm Hcf]].
  { repeat split; intro H;
      rewrite (frontline_when_collaborator_missing g c1 b) in Hfl;
      auto; discriminate. }
  destruct (GetWorld g) as [w|] eqn:Hw.
  2:{ rewrite Hch, Hnt. split; [reflexivity|]. split; [reflexivity|].
      discriminate. }
  destruct (m_tInactiveSince c1) as [since|] eqn:Hs.
  2:{ rewrite Hch, Hnt. split; [reflexivity|]. split; [reflexivity|].
      discriminate. }
  destruct (Qle_bool (inject_Z INACTIVE_GRACE_PERIOD)
                     (DiffSeconds (GetServerTimestamp w) since)) eqn:Hq;
    rewrite Hch, Hnt; (split; [reflexivity|]).
  - split.
    + intros [H|[H|[H|[H|[H|H]]]]]; congruence.
    + intros _. split; [reflexivity|]. split; [reflexivity|].
      exists since, (GetServerTimestamp w).
      split; [reflexivity|]. split; [reflexivity|].
      apply Qle_bool_iff, DiffSeconds_ge in Hq.
      unfold INACTIVE_GRACE_PERIOD in Hq. lia.
  - split; [reflexivity|discriminate].
Qed.

Lemma UpdateTarget_initialized
  (super_PrepareBase : Game -> Component -> Component) (g : Game)
  (c : Component) :
  m_bCoordinatorInitialized (UpdateTarget super_PrepareBase g c)
  = m_bCoordinatorInitialized (fst (PrepareBase super_PrepareBase g c)).
Proof.
  unfold UpdateTarget.
  set (c1 := fst (PrepareBase super_PrepareBase g c)).
  destruct (m_bBaseReady c1); simpl negb; cbv iota; [|reflexivity].
  destruct (m_nearBase c1) as [b|] eqn:Hb; [|reflexivity].
  destruct (IsBaseFriendly g b); simpl negb; cbv iota; [|reflexivity].
  unfold ShouldKeepDefendersActive. rewrite Hb.
  destruct (negb (IsBaseFriendly g b)); [reflexivity|].
  destruct (IsBaseOnFrontline g c1 b); [reflexivity|].
  destruct (GetWorld g); [|reflexivity].
  destruct (m_tInactiveSince c1); [|reflexivity].
  destruct (Qle_bool _ _); reflexivity.
Qed.

Lemma PrepareBase_scheduled
  (super_PrepareBase : Game -> Component -> Component) (g : Game)
  (c : Component) :
  snd (PrepareBase super_PrepareBase g c)
  = match m_nearBase (super_PrepareBase g c) with
    | Some _ => negb (m_bCoordinatorInitialized (super_PrepareBase g c))
    | None => false
    end
  /\ m_bCoordinatorInitialized (fst (PrepareBase super_PrepareBase g c))
     = m_bCoordinatorInitialized (super_PrepareBase g c)
       || snd (PrepareBase super_PrepareBase g c).
Proof.
  unfold PrepareBase.
  destruct (m_nearBase (super_PrepareBase g c)); simpl.
  - destruct (m_bCoordinatorInitialized (super_PrepareBase g c)) eqn:E;
      simpl; auto.
  - rewrite orb_false_r. auto.
Qed.

Lemma runTarget_initialized
  (super_PrepareBase : Game -> Component -> Component) :
  (forall g c, m_bCoordinatorInitialized (super_PrepareBase g c)
               = m_bCoordinatorInitialized c) ->
  forall games c,
    m_bCoordinatorInitialized c = true ->
    Forall (fun scheduled => scheduled = false)
           (runTarget super_PrepareBase games c).
Proof.
  intros Hsuper games. induction games as [|g rest IH]; intros c Hc;
    [constructor|].
  simpl. destruct (PrepareBase_scheduled super_PrepareBase g c) as [E1 E2].
  rewrite Hsuper, Hc in E1, E2.
  constructor.
  - rewrite E1. destruct (m_nearBase _); reflexivity.
  - apply IH. rewrite UpdateTarget_initialized. exact E2.
Qed.

(** X15: over any sequence of [UpdateTarget] calls, provided the base
    framework's [PrepareBase] leaves the initialisation flag alone, the
    coordinator initialisation is scheduled at most once; never when the
    flag was already set; only on a call where the framework has the base
    resolved; and it is scheduled on the first such call when the flag was
    clear. *)
Theorem coordinator_initialisation_scheduled_once
  (super_PrepareBase : Game -> Component -> Component)
  (games : list Game) (c : Component) :
  (forall g c, m_bCoordinatorInitialized (super_PrepareBase g c)
               = m_bCoordinatorInitialized c) ->
  (List.length (filter (fun scheduled => scheduled)
                       (runTarget super_PrepareBase games c)) <= 1)%nat
  /\ (m_bCoordinatorInitialized c = true ->
      Forall (fun scheduled => scheduled = false)
             (runTarget super_PrepareBase games c))
  /\ (In true (runTarget super_PrepareBase games c) ->
      m_bCoordinatorInitialized c = false
      /\ exists g c', In g games
                      /\ m_nearBase (super_PrepareBase g c') <> None)
  /\ (m_bCoordinatorInitialized c = false ->
      forall pre g post,
        games = pre ++ g :: post ->
        (forall c', m_nearBase (super_PrepareBase g c') <> None) ->
        In true (runTarget super_PrepareBase games c)).
Proof.
  intro Hsuper.
  split; [|split; [apply runTarget_initialized; exact Hsuper|split]].
  - revert c. induction games as [|g rest IH]; intro c; [simpl; lia|].
    simpl. destruct (snd (PrepareBase super_PrepareBase g c)) eqn:E.
    + assert (Forall (fun scheduled => scheduled = false)
                (runTarget super_PrepareBase rest
                   (UpdateTarget super_PrepareBase g c))) as Hnone.
      { apply runTarget_initialized; [exact Hsuper|].
        rewrite UpdateTarget_initialized.
        destruct (PrepareBase_scheduled super_PrepareBase g c) as [_ E2].
        rewrite E2, E. apply orb_true_r. }
      assert (filter (fun s : bool => s)
                (runTarget super_PrepareBase rest
                   (UpdateTarget super_PrepareBase g c)) = []) as ->.
      { clear -Hnone. induction Hnone as [|x l Hx _ IHl]; [reflexivity|].
        simpl. rewrite Hx. exact IHl. }
      simpl. lia.
    + apply IH.
  - intro Hin. split.
    + destruct (m_bCoordinatorInitialized c) eqn:Hc; [|reflexivity].
      pose proof (runTarget_initialized super_PrepareBase Hsuper games c Hc)
        as Hnone.
      rewrite Forall_forall in Hnone. apply Hnone in Hin. discriminate.
    + revert c Hin. induction games as [|g rest IH]; intros c Hin;
        [destruct Hin|].
      simpl in Hin. destruct Hin as [Hin|Hin].
      * exists g, c. split; [left; reflexivity|].
        destruct (PrepareBase_scheduled super_PrepareBase g c) as [E1 _].
        rewrite Hin in E1. destruct (m_nearBase _); [discriminate|].
        discriminate.
      * destruct (IH _ Hin) as [g' [c' [Hg' Hb]]].
        exists g', c'. split; [right; exact Hg'|exact Hb].
  - intros Hc pre g post -> Hres. revert c Hc.
    induction pre as [|g' pre IH]; intros c Hc; simpl.
    + left. destruct (PrepareBase_scheduled super_PrepareBase g c) as [E1 _].
      rewrite E1, Hsuper, Hc. specialize (Hres c).
      destruct (m_nearBase _); [reflexivity|congruence].
    + destruct (snd (PrepareBase super_PrepareBase g' c)) eqn:E;
        [left; reflexivity|].
      right. apply IH. rewrite UpdateTarget_initialized.
      destruct (PrepareBase_scheduled super_PrepareBase g' c) as [_ E2].
      rewrite E2, E, Hsuper, Hc. reflexivity.
Qed.

Lemma memberIds_filter (b : BaseRef) (l : list IPC_SpawnPointComponent) :
  memberIds b l
  = flat_map (fun sp => match sp with
                        | DefenderPoint d => [m_ownerId d]
                        | OtherPoint _ => []
                        end) (filter (isMember b) l).
Proof.
  induction l as [|sp l IH]; [reflexivity|].
  rewrite memberIds_cons, IH. simpl filter.
  destruct (isMember b sp); reflexivity.
Qed.

Lemma set_coordinator_same (c : Component) :
  set_bIsReinforcementCoordinator (m_bIsReinforcementCoordinator c) c = c.
Proof. destruct c; reflexivity. Qed.

(** X16: [InitializeReinforcementCoordinator] leaves the component as it is
    and registers no periodic check when the base is unresolved, the
    autonomous system is missing or its registry is empty.  In every case it
    changes nothing but the coordinator flag, registers the periodic check
    exactly when the flag ends up set on a run that got past the early
    returns, and running it again on its result changes nothing.  With a
    non-empty registry, a spawn point with no registered defender at its
    base elects itself, and the outcome depends only on the registered
    defenders of its own base. *)
Theorem election_early_returns_and_locality (g : Game) (c : Component) :
  let r := InitializeReinforcementCoordinator g c in
  (m_nearBase c = None \/ GetAutonomousSystem g = None
   \/ GetAutonomousSystem g = Some [] -> r = (c, false))
  /\ fst r
     = set_bIsReinforcementCoordinator
         (m_bIsReinforcementCoordinator (fst r)) c
  /\ (snd r = true -> elected g c = true)
  /\ InitializeReinforcementCoordinator g (fst r) = r
  /\ (forall b l,
        m_nearBase c = Some b -> GetAutonomousSystem g = Some l -> l <> [] ->
        snd r = elected g c
        /\ ((forall sp, In sp l -> isMember b sp = false) ->
            elected g c = true)
        /\ (forall g' l',
              GetAutonomousSystem g' = Some l' -> l' <> [] ->
              filter (isMember b) l' = filter (isMember b) l ->
              elected g' c = elected g c)).
Proof.
  intro r. subst r. unfold elected.
  split; [|split; [|split; [|split]]].
  - unfold InitializeReinforcementCoordinator.
    intros [H|[H|H]].
    + rewrite H. reflexivity.
    + rewrite H. destruct (m_nearBase c); reflexivity.
    + rewrite H. destruct (m_nearBase c); reflexivity.
  - unfold InitializeReinforcementCoordinator.
    destruct (m_nearBase c) as [b|];
      [|symmetry; apply set_coordinator_same].
    destruct (GetAutonomousSystem g) as [[|sp l]|];
      try (symmetry; apply set_coordinator_same).
    destruct c; reflexivity.
  - unfold InitializeReinforcementCoordinator.
    destruct (m_nearBase c) as [b|]; [|discriminate].
    destruct (GetAutonomousSystem g) as [[|sp l]|]; try discriminate.
    simpl. auto.
  - unfold InitializeReinforcementCoordinator.
    destruct (m_nearBase c) as [b|] eqn:Hb;
      [|cbn [fst]; rewrite Hb; reflexivity].
    destruct (GetAutonomousSystem g) as [[|sp l]|] eqn:Hg;
      try (cbn [fst]; rewrite Hb, ?Hg; reflexivity).
    destruct c; simpl in *. rewrite Hb. reflexivity.
  - intros b l Hb Hg Hne.
    pose proof (elected_eq g l b c Hg Hne Hb) as E. unfold elected in E.
    split; [|split].
    + unfold InitializeReinforcementCoordinator. rewrite Hb, Hg.
      destruct l as [|sp l]; [congruence|]. reflexivity.
    + intro Hnone. rewrite E.
      assert (memberIds b l = []) as ->.
      { rewrite memberIds_filter.
        assert (filter (isMember b) l = []) as ->; [|reflexivity].
        clear -Hnone. induction l as [|sp l IH]; [reflexivity|].
        simpl. rewrite (Hnone sp (or_introl eq_refl)).
        apply IH. intros sp' H. apply Hnone. right. exact H. }
      simpl. apply Z.eqb_refl.
    + intros g' l' Hg' Hne' Hf.
      pose proof (elected_eq g' l' b c Hg' Hne' Hb) as E'.
      unfold elected in E'. rewrite E, E'.
      rewrite !memberIds_filter, Hf. reflexivity.
Qed.

(** ** Helicopters and the periodic check *)

Lemma no_helicopter_in_deletes (l : list Effect) :
  Forall (fun e => isDelete e = true) l -> spawnedHelicopters l = [].
Proof.
  induction 1 as [|e l He _ IH]; [reflexivity|].
  destruct e; try discriminate. exact IH.
Qed.

Lemma spawnAndTrack_helis (g : Game) (t : SCR_EGroupType)
  (acc : Result * nat) :
  m_aReinforcementHelicopters (resComponent (fst (spawnAndTrack g t acc)))
  = m_aReinforcementHelicopters (resComponent (fst acc))
  /\ spawnedHelicopters (resEffects (fst (spawnAndTrack g t acc)))
     = spawnedHelicopters (resEffects (fst acc)).
Proof.
  destruct acc as [[[c s] effs] n]. unfold spawnAndTrack.
  destruct (SpawnReinforcementGroup_cases g t c s)
    as [[_ E]|[[_ [_ E]]|[_ [_ E]]]]; rewrite E;
    unfold resComponent, resEffects; cbn [fst snd];
    rewrite spawnedHelicopters_app; cbn [spawnedHelicopters flat_map app];
    rewrite app_nil_r; split; reflexivity.
Qed.

Lemma iter_spawnAndTrack_helis (g : Game) (t : SCR_EGroupType) (n : nat)
  (acc : Result * nat) :
  m_aReinforcementHelicopters
    (resComponent (fst (Nat.iter n (spawnAndTrack g t) acc)))
  = m_aReinforcementHelicopters (resComponent (fst acc))
  /\ spawnedHelicopters
       (resEffects (fst (Nat.iter n (spawnAndTrack g t) acc)))
     = spawnedHelicopters (resEffects (fst acc)).
Proof.
  induction n as [|n [IH1 IH2]]; [split; reflexivity|].
  cbn [Nat.iter nat_rect].
  destruct (spawnAndTrack_helis g t (Nat.iter n (spawnAndTrack g t) acc))
    as [E1 E2].
  unfold Nat.iter in *. rewrite E1, E2. auto.
Qed.

Lemma alertIfAny_helis (wave : Z) (acc : Result * nat) :
  resComponent (alertIfAny wave acc) = resComponent (fst acc)
  /\ spawnedHelicopters (resEffects (alertIfAny wave acc))
     = spawnedHelicopters (resEffects (fst acc)).
Proof.
  destruct acc as [[[c s] effs] n]. unfold alertIfAny.
  destruct (0 <? n)%nat; unfold resComponent, resEffects; cbn [fst snd];
    [|split; reflexivity].
  rewrite spawnedHelicopters_app. cbn [spawnedHelicopters flat_map app].
  rewrite app_nil_r. split; reflexivity.
Qed.

Lemma spawnWave_helis (g : Game) (wave : Z) (c : Component) (s : Sim)
  (e1 : list Effect) :
  wave <> 4 ->
  m_aReinforcementHelicopters (resComponent (spawnWave g wave (c, s, e1)))
  = m_aReinforcementHelicopters c
  /\ spawnedHelicopters (resEffects (spawnWave g wave (c, s, e1)))
     = spawnedHelicopters e1.
Proof.
  intro Hw. unfold spawnWave.
  destruct (Z.eqb_spec wave 4) as [E|_]; [contradiction|].
  destruct (wave =? 3).
  - match goal with
    | |- context [alertIfAny wave ?a] =>
        destruct (alertIfAny_helis wave a) as [A1 A2]; rewrite A1, A2
    end.
    destruct (spawnAndTrack_helis g FIRETEAM
                (spawnAndTrack g SQUAD_RIFLE (c, s, e1, 0%nat))) as [B1 B2].
    destruct (spawnAndTrack_helis g SQUAD_RIFLE (c, s, e1, 0%nat))
      as [C1 C2].
    rewrite B1, B2, C1, C2. split; reflexivity.
  - match goal with
    | |- context [alertIfAny wave ?a] =>
        destruct (alertIfAny_helis wave a) as [A1 A2]; rewrite A1, A2
    end.
    match goal with
    | |- context [Nat.iter ?n (spawnAndTrack g ?t) ?a] =>
        destruct (iter_spawnAndTrack_helis g t n a) as [B1 B2];
          rewrite B1, B2
    end.
    split; reflexivity.
Qed.

Lemma Trigger_helis (d : bool) (g : Game) (wave : Z) (c : Component)
  (s : Sim) :
  wave <> 4 ->
  spawnedHelicopters (resEffects (TriggerReinforcements d g wave (c, s)))
  = []
  /\ (m_aReinforcementHelicopters
        (resComponent (TriggerReinforcements d g wave (c, s)))
      = m_aReinforcementHelicopters c
      \/ (d = true
          /\ m_aReinforcementHelicopters
               (resComponent (TriggerReinforcements d g wave (c, s)))
             = [])).
Proof.
  intro Hw. unfold TriggerReinforcements.
  destruct (GetWorld g) as [world|]; [|split; [reflexivity|left; reflexivity]].
  destruct d.
  - pose proof (Despawn_spec c s) as [_ [_ [Hh Hd]]].
    destruct (DespawnPreviousWaveGroups c s) as [[c1 s1] e1].
    unfold resComponent, resEffects in Hh, Hd. cbn [fst snd] in Hh, Hd.
    match goal with
    | |- context [spawnWave g wave (?c0, ?s0, ?e0)] =>
        destruct (spawnWave_helis g wave c0 s0 e0 Hw) as [E1 E2]
    end.
    rewrite E1, E2, spawnedHelicopters_app.
    rewrite (no_helicopter_in_deletes e1 Hd).
    split; [reflexivity|]. right. split; [reflexivity|]. exact Hh.
  - match goal with
    | |- context [spawnWave g wave (?c0, ?s0, ?e0)] =>
        destruct (spawnWave_helis g wave c0 s0 e0 Hw) as [E1 E2]
    end.
    rewrite E1, E2. split; [reflexivity|]. left. reflexivity.
Qed.

Lemma Reset_helis (d : bool) (c : Component) (s : Sim) :
  spawnedHelicopters (resEffects (ResetReinforcementState d c s)) = []
  /\ (m_aReinforcementHelicopters
        (resComponent (ResetReinforcementState d c s))
      = m_aReinforcementHelicopters c
      \/ (d = true
          /\ m_aReinforcementHelicopters
               (resComponent (ResetReinforcementState d c s)) = [])).
Proof.
  unfold ResetReinforcementState. destruct d.
  - match goal with
    | |- context [DespawnPreviousWaveGroups ?c0 s] =>
        pose proof (Despawn_spec c0 s) as [_ [_ [Hh Hd]]]
    end.
    rewrite (no_helicopter_in_deletes _ Hd). split; [reflexivity|].
    right. split; [reflexivity|exact Hh].
  - split; [reflexivity|left; reflexivity].
Qed.

Lemma Update_helis (d : bool) (g : Game) (combatActive : bool)
  (c : Component) (s : Sim) :
  spawnedHelicopters
    (resEffects (UpdateReinforcementState d g combatActive (c, s))) = []
  /\ (m_aReinforcementHelicopters
        (resComponent (UpdateReinforcementState d g combatActive (c, s)))
      = m_aReinforcementHelicopters c
      \/ (d = true
          /\ m_aReinforcementHelicopters
               (resComponent
                  (UpdateReinforcementState d g combatActive (c, s)))
             = [])).
Proof.
  unfold UpdateReinforcementState.
  destruct (GetWorld g) as [world|]; [|split; [reflexivity|left; reflexivity]].
  cbv zeta.
  set (c1 := if combatActive && negb (m_bReinforcementActive c)
             then set_bReinforcementActive true
                    (set_tCombatStartTime
                       (Some (GetServerTimestamp world)) c)
             else c).
  assert (m_aReinforcementHelicopters c1 = m_aReinforcementHelicopters c)
    as <-.
  { subst c1. destruct (combatActive && negb (m_bReinforcementActive c));
      reflexivity. }
  clearbody c1.
  destruct (negb combatActive && m_bReinforcementActive c1);
    [apply Reset_helis|].
  destruct (m_bReinforcementActive c1);
    [|split; [reflexivity|left; reflexivity]].
  destruct (m_tCombatStartTime c1) as [startTime|];
    [|split; [reflexivity|left; reflexivity]].
  destruct (inCooldown _ _); [split; [reflexivity|left; reflexivity]|].
  destruct (_ && thresholdReached d _ 3); [apply Trigger_helis; lia|].
  destruct (_ && thresholdReached d _ 2); [apply Trigger_helis; lia|].
  destruct (_ && thresholdReached d _ 1); [apply Trigger_helis; lia|].
  split; [reflexivity|left; reflexivity].
Qed.

Lemma Check_helis (d : bool) (g : Game) (st : State) :
  spawnedHelicopters (resEffects (CheckReinforcements d g st)) = []
  /\ (m_aReinforcementHelicopters
        (resComponent (CheckReinforcements d g st))
      = m_aReinforcementHelicopters (fst st)
      \/ (d = true
          /\ m_aReinforcementHelicopters
               (resComponent (CheckReinforcements d g st)) = [])).
Proof.
  destruct st as [c s]. unfold CheckReinforcements.
  destruct (negb (m_bIsReinforcementCoordinator c));
    [split; [reflexivity|left; reflexivity]|].
  destruct (m_nearBase c) as [b|];
    [|split; [reflexivity|left; reflexivity]].
  cbv zeta.
  pose proof (Update_helis d g (DetectCombatAtBase g c) c s) as [E1 E2].
  destruct (UpdateReinforcementState d g (DetectCombatAtBase g c) (c, s))
    as [[c' s'] effs].
  unfold resComponent, resEffects in *. cbn [fst snd] in *.
  split; [exact E1|].
  assert (m_aReinforcementHelicopters
            (fst (CleanupDeadReinforcementGroups g (c', s')))
          = m_aReinforcementHelicopters c') as ->; [|exact E2].
  unfold CleanupDeadReinforcementGroups.
  destruct (m_aReinforcementGroups c'); reflexivity.
Qed.

(** X17: no run of the periodic check ever spawns a helicopter, in either
    mode: the state machine only fires waves 1 to 3, and only wave 4 reaches
    [SpawnArmedHelicopter].  The helicopter array therefore never grows:
    after every check it is what it was at the start of the run or, in debug
    mode only, empty. *)
Theorem periodic_check_never_spawns_helicopter
  (d : bool) (games : list Game) (st0 : State) :
  Forall (fun r =>
            spawnedHelicopters (resEffects r) = []
            /\ (m_aReinforcementHelicopters (resComponent r)
                = m_aReinforcementHelicopters (fst st0)
                \/ (d = true
                    /\ m_aReinforcementHelicopters (resComponent r) = [])))
         (runChecks d games st0).
Proof.
  assert (forall st,
            m_aReinforcementHelicopters (fst st)
            = m_aReinforcementHelicopters (fst st0)
            \/ (d = true /\ m_aReinforcementHelicopters (fst st) = []) ->
            Forall (fun r =>
                      spawnedHelicopters (resEffects r) = []
                      /\ (m_aReinforcementHelicopters (resComponent r)
                          = m_aReinforcementHelicopters (fst st0)
                          \/ (d = true
                              /\ m_aReinforcementHelicopters (resComponent r)
                                 = [])))
                   (runChecks d games st)) as H;
    [|apply H; left; reflexivity].
  induction games as [|g rest IH]; intros st Hst; [constructor|].
  cbn [runChecks].
  destruct (Check_helis d g st) as [E1 E2].
  assert (m_aReinforcementHelicopters
            (resComponent (CheckReinforcements d g st))
          = m_aReinforcementHelicopters (fst st0)
          \/ (d = true
              /\ m_aReinforcementHelicopters
                   (resComponent (CheckReinforcements d g st)) = [])) as Hn.
  { destruct E2 as [E2|E2]; [|right; exact E2].
    rewrite E2. exact Hst. }
  constructor; [split; assumption|].
  apply IH. exact Hn.
Qed.

(** ** The frontline test *)

Lemma float_sub_self (x : float) :
  isNumber x = true -> exists s, float_sub x x = S754_zero s.
Proof.
  destruct x as [s|s| |s m e]; try discriminate; intros _; exists false.
  - destruct s; reflexivity.
  - unfold float_sub, SFsub. cbv zeta. rewrite Z.sub_diag. reflexivity.
Qed.

Lemma Distance_self (p : vector) :
  finitePosition p = true ->
  float_ltb (Distance p p) FRONTLINE_RANGE = true.
Proof.
  unfold finitePosition. intro H.
  apply andb_true_iff in H. destruct H as [H Hz].
  apply andb_true_iff in H. destruct H as [Hx Hy].
  unfold Distance, DistanceSq. cbv zeta.
  destruct (float_sub_self _ Hx) as [s1 ->].
  destruct (float_sub_self _ Hy) as [s2 ->].
  destruct (float_sub_self _ Hz) as [s3 ->].
  destruct s1, s2, s3; vm_compute; reflexivity.
Qed.

Lemma frontlineLoop_false_iff (g : Game) (ourPos : vector)
  (enemyBases : list BaseRef) :
  frontlineLoop g ourPos enemyBases = false
  <-> forall eb, In eb enemyBases ->
                 float_ltb (Distance ourPos (base_GetOrigin g eb))
                           FRONTLINE_RANGE = false.
Proof.
  split.
  - intros Hf eb Hin.
    destruct (float_ltb (Distance ourPos (base_GetOrigin g eb))
                        FRONTLINE_RANGE) eqn:E; [|reflexivity].
    assert (frontlineLoop g ourPos enemyBases = true) as Ht.
    { apply frontlineLoop_iff. exists eb. split; assumption. }
    congruence.
  - intro Hall. destruct (frontlineLoop g ourPos enemyBases) eqn:E;
      [|reflexivity].
    apply frontlineLoop_iff in E. destruct E as [eb [Hin Hlt]].
    rewrite (Hall eb Hin) in Hlt. discriminate Hlt.
Qed.

(** X18: a base is classified as rear area exactly when the game mode, its
    base manager, the faction manager, the defenders' campaign faction and
    that faction's enemy all resolve and, for every base the manager lists
    for the enemy, the test [vector.Distance < 2000] fails in the script's
    float arithmetic (as it does at a computed distance of exactly 2000, or
    one that is not a number).  The test reads the defenders' faction, never
    the faction holding the base; and a base with a position made of numbers
    that the manager itself lists for the enemy is at computed distance 0
    from itself, so it is always frontline and the guard keeps its defenders
    active whatever the timer says. *)
Theorem rear_area_iff_no_enemy_base_in_range
  (g : Game) (c : Component) (b : BaseRef) :
  (IsBaseOnFrontline g c b = false
   <-> exists gameMode baseManager factionManager ourFaction enemyFaction,
         GetGameMode g = Some gameMode
         /\ GetBaseManager gameMode = Some baseManager
         /\ GetFactionManager g = Some factionManager
         /\ castCampaignFaction g (m_Faction c) = Some ourFaction
         /\ GetEnemyFaction factionManager ourFaction = Some enemyFaction
         /\ forall eb, In eb (GetBases baseManager enemyFaction) ->
                       float_ltb (Distance (base_GetOrigin g b)
                                           (base_GetOrigin g eb))
                                 FRONTLINE_RANGE = false)
  /\ (forall holder,
        IsBaseOnFrontline
          (mkGame (GetWorld g) (GetPlayerManager g) (GetAutonomousSystem g)
                  (GetGameMode g) (GetFactionManager g) (isCampaignFaction g)
                  holder (base_GetOrigin g) (prefabValid g) (spawnSucceeds g)
                  (GetAgentsCount g)) c b
        = IsBaseOnFrontline g c b)
  /\ ((forall gameMode baseManager factionManager ourFaction enemyFaction,
         GetGameMode g = Some gameMode ->
         GetBaseManager gameMode = Some baseManager ->
         GetFactionManager g = Some factionManager ->
         castCampaignFaction g (m_Faction c) = Some ourFaction ->
         GetEnemyFaction factionManager ourFaction = Some enemyFaction ->
         In b (GetBases baseManager enemyFaction)) ->
      finitePosition (base_GetOrigin g b) = true ->
      IsBaseOnFrontline g c b = true
      /\ (m_nearBase c = Some b ->
          fst (ShouldKeepDefendersActive g c) = true)).
Proof.
  split; [|split].
  - unfold IsBaseOnFrontline. split.
    + intro H.
      destruct (GetGameMode g) as [gm|]; [|discriminate].
      destruct (GetBaseManager gm) as [bm|] eqn:Hbm; [|discriminate].
      destruct (GetFactionManager g) as [fm|]; [|discriminate].
      destruct (castCampaignFaction g (m_Faction c)) as [ours|];
        [|discriminate].
      destruct (GetEnemyFaction fm ours) as [enemy|] eqn:He; [|discriminate].
      exists gm, bm, fm, ours, enemy. repeat (split; [reflexivity || assumption|]).
      apply frontlineLoop_false_iff. exact H.
    + intros [gm [bm [fm [ours [enemy [-> [-> [-> [-> [-> H]]]]]]]]]].
      apply frontlineLoop_false_iff. exact H.
  - intro holder. unfold IsBaseOnFrontline, castCampaignFaction.
    cbn [GetGameMode GetFactionManager isCampaignFaction base_GetOrigin].
    destruct (GetGameMode g) as [gm|]; [|reflexivity].
    destruct (GetBaseManager gm) as [bm|]; [|reflexivity].
    destruct (GetFactionManager g) as [fm|]; [|reflexivity].
    destruct (m_Faction c) as [f|]; [|reflexivity].
    destruct (isCampaignFaction g f); [|reflexivity].
    destruct (GetEnemyFaction fm f) as [enemy|]; [|reflexivity].
    generalize (GetBases bm enemy). intro l.
    induction l as [|eb l IH]; [reflexivity|].
    cbn [frontlineLoop base_GetOrigin]. rewrite IH. reflexivity.
  - intros Hlisted Hfin.
    assert (IsBaseOnFrontline g c b = true) as Hfl.
    { unfold IsBaseOnFrontline in *.
      destruct (GetGameMode g) as [gm|]; [|reflexivity].
      destruct (GetBaseManager gm) as [bm|] eqn:Hbm; [|reflexivity].
      destruct (GetFactionManager g) as [fm|]; [|reflexivity].
      destruct (castCampaignFaction g (m_Faction c)) as [ours|];
        [|reflexivity].
      destruct (GetEnemyFaction fm ours) as [enemy|] eqn:He; [|reflexivity].
      apply frontlineLoop_iff. exists b.
      split; [exact (Hlisted gm bm fm ours enemy eq_refl Hbm eq_refl
                       eq_refl He)|].
      apply Distance_self, Hfin. }
    split; [exact Hfl|]. intro Hb.
    unfold ShouldKeepDefendersActive. rewrite Hb, Hfl.
    destruct (negb (IsBaseFriendly g b)); reflexivity.
Qed.

(** ** Tuning of the agents *)

Lemma skillAfter_uniform (cc : CombatRef) (k : EAISkill)
  (post : list AgentCall) :
  (forall k', In (SetAISkill cc k') post -> k' = k) ->
  forall pre,
    skillAfter (pre ++ post) cc = skillAfter pre cc
    \/ skillAfter (pre ++ post) cc = Some k.
Proof.
  unfold skillAfter. intros Hu pre. rewrite fold_left_app.
  generalize (fold_left
                (fun acc call =>
                   match call with
                   | SetAISkill cc' skill =>
                       if Nat.eqb cc' cc then Some skill else acc
                   | SetPerceptionFactor _ _ => acc
                   end) pre None).
  induction post as [|call post IH]; intro init; [left; reflexivity|].
  cbn [fold_left].
  assert (forall k', In (SetAISkill cc k') post -> k' = k) as Hu'
    by (intros k' H; apply Hu; right; exact H).
  destruct call as [cc' skill|cc' f]; [|apply IH, Hu'].
  destruct (Nat.eqb_spec cc' cc) as [->|_]; [|apply IH, Hu'].
  rewrite (Hu skill (or_introl eq_refl)).
  right. destruct (IH Hu' (Some k)) as [E|E]; exact E.
Qed.

Lemma skillAfter_hit (cc : CombatRef) (k : EAISkill)
  (post : list AgentCall) :
  (forall k', In (SetAISkill cc k') post -> k' = k) ->
  In (SetAISkill cc k) post ->
  forall pre, skillAfter (pre ++ post) cc = Some k.
Proof.
  intros Hu Hin pre. apply in_split in Hin. destruct Hin as [a [b ->]].
  assert (forall k', In (SetAISkill cc k') b -> k' = k) as Hb.
  { intros k' H. apply Hu. apply in_or_app. right. right. exact H. }
  replace (pre ++ a ++ SetAISkill cc k :: b)
    with ((pre ++ a ++ [SetAISkill cc k]) ++ b)
    by (rewrite <- !app_assoc; reflexivity).
  assert (skillAfter (pre ++ a ++ [SetAISkill cc k]) cc = Some k) as E.
  { unfold skillAfter. rewrite !app_assoc, fold_left_app. cbn [fold_left].
    rewrite Nat.eqb_refl. reflexivity. }
  destruct (skillAfter_uniform cc k b Hb (pre ++ a ++ [SetAISkill cc k]))
    as [E'|E']; congruence.
Qed.

Lemma perceptionAfter_uniform (cc : CombatRef) (k : Q)
  (post : list AgentCall) :
  (forall k', In (SetPerceptionFactor cc k') post -> k' = k) ->
  forall pre,
    perceptionAfter (pre ++ post) cc = perceptionAfter pre cc
    \/ perceptionAfter (pre ++ post) cc = Some k.
Proof.
  unfold perceptionAfter. intros Hu pre. rewrite fold_left_app.
  generalize (fold_left
                (fun acc call =>
                   match call with
                   | SetPerceptionFactor cc' f =>
                       if Nat.eqb cc' cc then Some f else acc
                   | SetAISkill _ _ => acc
                   end) pre None).
  induction post as [|call post IH]; intro init; [left; reflexivity|].
  cbn [fold_left].
  assert (forall k', In (SetPerceptionFactor cc k') post -> k' = k) as Hu'
    by (intros k' H; apply Hu; right; exact H).
  destruct call as [cc' skill|cc' f]; [apply IH, Hu'|].
  destruct (Nat.eqb_spec cc' cc) as [->|_]; [|apply IH, Hu'].
  rewrite (Hu f (or_introl eq_refl)).
  right. destruct (IH Hu' (Some k)) as [E|E]; exact E.
Qed.

Lemma perceptionAfter_hit (cc : CombatRef) (k : Q)
  (post : list AgentCall) :
  (forall k', In (SetPerceptionFactor cc k') post -> k' = k) ->
  In (SetPerceptionFactor cc k) post ->
  forall pre, perceptionAfter (pre ++ post) cc = Some k.
Proof.
  intros Hu Hin pre. apply in_split in Hin. destruct Hin as [a [b ->]].
  assert (forall k', In (SetPerceptionFactor cc k') b -> k' = k) as Hb.
  { intros k' H. apply Hu. apply in_or_app. right. right. exact H. }
  replace (pre ++ a ++ SetPerceptionFactor cc k :: b)
    with ((pre ++ a ++ [SetPerceptionFactor cc k]) ++ b)
    by (rewrite <- !app_assoc; reflexivity).
  assert (perceptionAfter (pre ++ a ++ [SetPerceptionFactor cc k]) cc
          = Some k) as E.
  { unfold perceptionAfter. rewrite !app_assoc, fold_left_app.
    cbn [fold_left]. rewrite Nat.eqb_refl. reflexivity. }
  destruct (perceptionAfter_uniform cc k b Hb
              (pre ++ a ++ [SetPerceptionFactor cc k])) as [E'|E'];
    congruence.
Qed.

Lemma untouched_after (cc : CombatRef) (post : list AgentCall) :
  Forall (fun call => touches cc call = false) post ->
  forall pre,
    skillAfter (pre ++ post) cc = skillAfter pre cc
    /\ perceptionAfter (pre ++ post) cc = perceptionAfter pre cc.
Proof.
  intros Hall pre. unfold skillAfter, perceptionAfter.
  rewrite !fold_left_app.
  generalize (fold_left
                (fun acc call =>
                   match call with
                   | SetAISkill cc' skill =>
                       if Nat.eqb cc' cc then Some skill else acc
                   | SetPerceptionFactor _ _ => acc
                   end) pre None).
  generalize (fold_left
                (fun acc call =>
                   match call with
                   | SetPerceptionFactor cc' f =>
                       if Nat.eqb cc' cc then Some f else acc
                   | SetAISkill _ _ => acc
                   end) pre None).
  induction Hall as [|call post Hc _ IH]; intros p k; [split; reflexivity|].
  cbn [fold_left]. destruct call as [cc' skill|cc' f]; simpl in Hc;
    rewrite Hc; apply IH.
Qed.

Lemma configureAgent_cases (players : Z) (agent : AIAgent) :
  configureAgent players agent
  = match combatComponentOf agent with
    | None => []
    | Some cc =>
        [SetAISkill cc (if players <? 10 then EXPERT else CYLON);
         SetPerceptionFactor cc (if players <? 10 then 3 # 2 else 2)%Q]
    end.
Proof.
  unfold configureAgent. destruct (combatComponentOf agent) as [cc|];
    [|reflexivity].
  destruct (Z.ltb_spec players 5), (Z.ltb_spec players 10);
    try reflexivity; lia.
Qed.

Lemma configureAgents_calls (players : Z) (agents : list AIAgent)
  (call : AgentCall) :
  In call (configureAgents players agents)
  <-> exists agent cc,
        In agent agents /\ combatComponentOf agent = Some cc
        /\ (call = SetAISkill cc (if players <? 10 then EXPERT else CYLON)
            \/ call = SetPerceptionFactor cc
                        (if players <? 10 then 3 # 2 else 2)%Q).
Proof.
  unfold configureAgents. rewrite in_flat_map. split.
  - intros [agent [Hin Hc]]. rewrite configureAgent_cases in Hc.
    destruct (combatComponentOf agent) as [cc|] eqn:E; [|destruct Hc].
    exists agent, cc. split; [exact Hin|]. split; [exact E|].
    destruct Hc as [<-|[<-|[]]]; auto.
  - intros [agent [cc [Hin [E Hc]]]]. exists agent. split; [exact Hin|].
    rewrite configureAgent_cases, E. destruct Hc as [->| ->];
      [left|right; left]; reflexivity.
Qed.

(** X19: the tuning loop of a reinforcement group (and of a helicopter crew)
    leaves every agent whose controlled entity, info component and combat
    component resolve with one setting that depends on the player count
    alone: EXPERT with perception 1.5 below ten players (the tiers below
    five and below ten are the same), CYLON with perception 2.0 from ten on.
    It makes two calls per such agent and touches no other combat component;
    in particular the perception it sets is never 1.0, also for a single
    player. *)
Theorem reinforcement_tuning_has_two_tiers
  (players : Z) (agents : list AIAgent) :
  let calls := configureAgents players agents in
  let skill := if players <? 10 then EXPERT else CYLON in
  let factor := (if players <? 10 then 3 # 2 else 2)%Q in
  (forall agent cc,
     In agent agents -> combatComponentOf agent = Some cc ->
     skillAfter calls cc = Some skill
     /\ perceptionAfter calls cc = Some factor)
  /\ (forall cc,
        (forall agent, In agent agents -> combatComponentOf agent <> Some cc)
        -> Forall (fun call => touches cc call = false) calls
           /\ skillAfter calls cc = None /\ perceptionAfter calls cc = None)
  /\ List.length calls
     = (2 * List.length
              (filter (fun agent =>
                         match combatComponentOf agent with
                         | Some _ => true
                         | None => false
                         end) agents))%nat
  /\ (forall cc f, In (SetPerceptionFactor cc f) calls ->
                   f = factor /\ ~ (f == 1)%Q).
Proof.
  intros calls skill factor. subst calls.
  split; [|split; [|split]].
  - intros agent cc Hin Hcc. split.
    + apply (skillAfter_hit cc skill _) with (pre := []).
      * intros k' H. apply configureAgents_calls in H.
        destruct H as [a [cc' [_ [_ [H|H]]]]]; inversion H. reflexivity.
      * apply configureAgents_calls. exists agent, cc. auto.
    + apply (perceptionAfter_hit cc factor _) with (pre := []).
      * intros k' H. apply configureAgents_calls in H.
        destruct H as [a [cc' [_ [_ [H|H]]]]]; inversion H. reflexivity.
      * apply configureAgents_calls. exists agent, cc. auto.
  - intros cc Hnone.
    assert (Forall (fun call => touches cc call = false)
              (configureAgents players agents)) as Hall.
    { apply Forall_forall. intros call H.
      apply configureAgents_calls in H.
      destruct H as [a [cc' [Hin [Hcc H]]]].
      assert (cc' <> cc) as Hne by (intros ->; exact (Hnone a Hin Hcc)).
      destruct H as [->| ->]; simpl; apply Nat.eqb_neq; exact Hne. }
    split; [exact Hall|].
    exact (untouched_after cc _ Hall []).
  - unfold configureAgents.
    induction agents as [|a agents IH]; [reflexivity|].
    cbn [flat_map filter]. rewrite length_app, IH, configureAgent_cases.
    destruct (combatComponentOf a); simpl List.length; lia.
  - intros cc f H. apply configureAgents_calls in H.
    destruct H as [a [cc' [_ [_ [H|H]]]]]; inversion H.
    split; [reflexivity|]. subst factor.
    destruct (players <? 10); intro E; discriminate E.
Qed.

(** X20: the override of [SpawnPatrol] adds nothing to what the base class
    did unless the player count is exactly 1 and a group was spawned.  For
    a single player it leaves every agent of the group whose combat
    component resolves at EXPERT with perception 1.0, whatever the base
    class had set, and leaves every other combat component as the base
    class left it. *)
Theorem solo_override_resets_perception
  (super_SpawnPatrol : list AgentCall) (players : Z)
  (m_Group : option (list AIAgent)) :
  let calls := SpawnPatrol super_SpawnPatrol players m_Group in
  (players <> 1 \/ m_Group = None -> calls = super_SpawnPatrol)
  /\ (forall agents agent cc,
        players = 1 -> m_Group = Some agents ->
        In agent agents -> combatComponentOf agent = Some cc ->
        skillAfter calls cc = Some EXPERT
        /\ perceptionAfter calls cc = Some 1%Q)
  /\ (forall agents cc,
        m_Group = Some agents ->
        (forall agent, In agent agents -> combatComponentOf agent <> Some cc)
        -> skillAfter calls cc = skillAfter super_SpawnPatrol cc
           /\ perceptionAfter calls cc
              = perceptionAfter super_SpawnPatrol cc).
Proof.
  intro calls. subst calls. unfold SpawnPatrol.
  assert (forall agents call,
            In call
              (flat_map
                 (fun agent =>
                    match combatComponentOf agent with
                    | None => []
                    | Some CombatComponent =>
                        [SetAISkill CombatComponent EXPERT;
                         SetPerceptionFactor CombatComponent 1]
                    end) agents)
            <-> exists agent cc,
                  In agent agents /\ combatComponentOf agent = Some cc
                  /\ (call = SetAISkill cc EXPERT
                      \/ call = SetPerceptionFactor cc 1)) as Hcalls.
  { intros agents call. rewrite in_flat_map. split.
    - intros [agent [Hin Hc]].
      destruct (combatComponentOf agent) as [cc|] eqn:E; [|destruct Hc].
      exists agent, cc. split; [exact Hin|]. split; [exact E|].
      destruct Hc as [<-|[<-|[]]]; auto.
    - intros [agent [cc [Hin [E Hc]]]]. exists agent. split; [exact Hin|].
      rewrite E. destruct Hc as [->| ->]; [left|right; left]; reflexivity. }
  split; [|split].
  - intros [Hp| ->].
    + destruct (Z.eqb_spec players 1) as [E|_]; [contradiction|].
      apply app_nil_r.
    + destruct (players =? 1); apply app_nil_r.
  - intros agents agent cc -> -> Hin Hcc. cbn [Z.eqb Pos.eqb]. split.
    + apply skillAfter_hit.
      * intros k' H. apply Hcalls in H.
        destruct H as [a [cc' [_ [_ [H|H]]]]]; inversion H. reflexivity.
      * apply Hcalls. exists agent, cc. auto.
    + apply perceptionAfter_hit.
      * intros k' H. apply Hcalls in H.
        destruct H as [a [cc' [_ [_ [H|H]]]]]; inversion H. reflexivity.
      * apply Hcalls. exists agent, cc. auto.
  - intros agents cc -> Hnone. apply untouched_after.
    destruct (players =? 1); [|constructor].
    apply Forall_forall. intros call H. apply Hcalls in H.
    destruct H as [a [cc' [Hin [Hcc H]]]].
    assert (cc' <> cc) as Hne by (intros ->; exact (Hnone a Hin Hcc)).
    destruct H as [->| ->]; simpl; apply Nat.eqb_neq; exact Hne.
Qed.

(** ** Boarding the helicopter *)

Lemma boardLoop_log (Vehicle : Type)
  (MoveInVehicle :
     CompartmentAccessRef -> Vehicle -> ECompartmentType -> Vehicle * bool)
  (agents : list AIAgent) :
  forall (i : nat) (h : Vehicle) (n : nat) (log : BoardingLog),
  exists (extra : BoardingLog) (h' : Vehicle),
    boardLoop Vehicle MoveInVehicle i agents (h, n, log)
    = (h', (n + List.length (filter (fun e => snd e) extra))%nat,
       log ++ extra)
    /\ Forall (fun e =>
                 (i <= fst (fst e) < i + List.length agents)%nat
                 /\ snd (fst e)
                    = if (fst (fst e) =? 0)%nat then PILOT else TURRET)
              extra
    /\ StronglySorted lt (map (fun e => fst (fst e)) extra)
    /\ List.length extra = List.length (filter canBoard agents)
    /\ (forall first rest,
          agents = first :: rest -> canBoard first = false ->
          Forall (fun e => (i < fst (fst e))%nat) extra).
Proof.
  induction agents as [|a agents IH]; intros i h n log.
  - exists [], h. cbn [boardLoop filter List.length map].
    rewrite Nat.add_0_r, app_nil_r.
    split; [reflexivity|]. split; [constructor|]. split; [constructor|].
    split; [reflexivity|]. intros first rest H. discriminate H.
  - cbn [boardLoop]. unfold boardAgent at 1.
    cbn [filter]. unfold canBoard at 1, compartmentAccessOf at 1.
    destruct (GetControlledEntity a) as [e|] eqn:Hce.
    1: destruct (FindCompartmentAccessComponent e) as [ca|] eqn:Hca.
    1: destruct (MoveInVehicle ca h (if (i =? 0)%nat then PILOT else TURRET))
         as [h1 ok].
    + destruct (IH (S i) h1 (if ok then S n else n)
                  (log ++ [(i, if (i =? 0)%nat then PILOT else TURRET, ok)]))
        as [extra [h' [E [Hall [Hs [Hlen _]]]]]].
      exists ((i, if (i =? 0)%nat then PILOT else TURRET, ok) :: extra), h'.
      split.
      { cbv beta iota zeta. refine (eq_trans E _). rewrite <- app_assoc.
        cbn [filter snd app].
        destruct ok; cbn [List.length]; f_equal; f_equal; lia. }
      split.
      { constructor.
        - cbn [fst snd List.length]. split; [lia|reflexivity].
        - eapply Forall_impl; [|exact Hall]; cbv beta.
          intros x [Hx Ht]. cbn [List.length]. split; [lia|exact Ht]. }
      split.
      { cbn [map fst]. constructor; [exact Hs|].
        apply Forall_map. eapply Forall_impl; [|exact Hall]; cbv beta.
        intros x [Hx _]. lia. }
      split; [cbn [List.length]; rewrite Hlen; reflexivity|].
      intros first rest Heq Hc. injection Heq as <- _.
      unfold canBoard, compartmentAccessOf in Hc.
      rewrite Hce, Hca in Hc. discriminate Hc.
    + destruct (IH (S i) h n log) as [extra [h' [E [Hall [Hs [Hlen _]]]]]].
      exists extra, h'. split; [exact E|].
      assert (Forall (fun e => (i < fst (fst e))%nat) extra) as Hgt.
      { eapply Forall_impl; [|exact Hall]; cbv beta.
        intros x [Hx _]. lia. }
      split.
      { eapply Forall_impl; [|exact Hall]; cbv beta.
        intros x [Hx Ht]. cbn [List.length]. split; [lia|exact Ht]. }
      split; [exact Hs|]. split; [exact Hlen|]. intros; exact Hgt.
    + destruct (IH (S i) h n log) as [extra [h' [E [Hall [Hs [Hlen _]]]]]].
      exists extra, h'. split; [exact E|].
      assert (Forall (fun e => (i < fst (fst e))%nat) extra) as Hgt.
      { eapply Forall_impl; [|exact Hall]; cbv beta.
        intros x [Hx _]. lia. }
      split.
      { eapply Forall_impl; [|exact Hall]; cbv beta.
        intros x [Hx Ht]. cbn [List.length]. split; [lia|exact Ht]. }
      split; [exact Hs|]. split; [exact Hlen|]. intros; exact Hgt.
Qed.

Lemma filter_nonempty_iff {A : Type} (f : A -> bool) (l : list A) :
  (0 <? List.length (filter f l))%nat = true
  <-> exists x, In x l /\ f x = true.
Proof.
  rewrite Nat.ltb_lt. split.
  - intro H. destruct (filter f l) as [|x rest] eqn:E;
      [simpl in H; lia|].
    exists x. apply filter_In. rewrite E. left. reflexivity.
  - intros [x Hx]. apply filter_In in Hx.
    destruct (filter f l); [destruct Hx|simpl; lia].
Qed.


(** ** The variant that rides the spawn cycle *)

Section SpawnCycleFacts.

Import SpawnCycle.

Variable DespawnPatrol : SpawnPoint -> SpawnPoint.

Lemma cycle_Trigger_blocked (g : Game) (wave : Z) (sp : SpawnPoint) :
  m_bSpawned sp = true ->
  TriggerReinforcements DespawnPatrol g wave sp = (sp, []).
Proof.
  intro H. unfold TriggerReinforcements. rewrite H.
  destruct (GetWorld g); reflexivity.
Qed.

Lemma cycle_Update_blocked (g : Game) (combatActive : bool)
  (sp : SpawnPoint) :
  m_bSpawned sp = true ->
  let r := UpdateReinforcementState DespawnPatrol g combatActive sp in
  snd r = []
  /\ m_bSpawned (fst r) = true
  /\ m_tLastReinforcementTime (fst r) = m_tLastReinforcementTime sp
  /\ (m_iReinforcementWave (fst r) = m_iReinforcementWave sp
      \/ m_iReinforcementWave (fst r) = 0).
Proof.
  intros H r. subst r. unfold UpdateReinforcementState.
  destruct (GetWorld g) as [world|]; [|cbn; auto].
  cbv zeta.
  set (sp1 := if combatActive && negb (m_bReinforcementActive sp)
              then _ else sp).
  assert (m_bSpawned sp1 = true
          /\ m_tLastReinforcementTime sp1 = m_tLastReinforcementTime sp
          /\ m_iReinforcementWave sp1 = m_iReinforcementWave sp)
    as [H1 [H2 H3]].
  { subst sp1. destruct (combatActive && negb (m_bReinforcementActive sp));
      cbn; auto. }
  clearbody sp1. rewrite <- H2, <- H3.
  destruct (negb combatActive && m_bReinforcementActive sp1);
    [cbn; auto|].
  destruct (m_bReinforcementActive sp1); [|cbn; auto].
  destruct (m_tCombatStartTime sp1); [|cbn; auto].
  destruct (inCooldown _ _); [cbn; auto|].
  rewrite !(cycle_Trigger_blocked g _ sp1 H1).
  destruct (_ && _); [cbn; auto|]. destruct (_ && _); cbn; auto.
Qed.

Lemma cycle_CheckAndReset_fields (sp : SpawnPoint) :
  let r := CheckAndResetReinforcementParams sp in
  Forall (fun call => isAlertCall call = false) (snd r)
  /\ m_bSpawned (fst r) = m_bSpawned sp
  /\ m_tLastReinforcementTime (fst r) = m_tLastReinforcementTime sp
  /\ m_iReinforcementWave (fst r) = m_iReinforcementWave sp
  /\ m_eGroupType (fst r) = m_eGroupType sp
  /\ (m_iNum (fst r) = m_iNum sp \/ m_iNum (fst r) = 2)
  /\ (m_fSpawnDisperson (fst r) = 200%Q ->
      m_fSpawnDisperson sp = 200%Q
      /\ m_bReinforcementSpawnPending (fst r)
         = m_bReinforcementSpawnPending sp).
Proof.
  unfold CheckAndResetReinforcementParams.
  destruct (negb (m_bReinforcementSpawnPending sp));
    [cbn; repeat split; auto|].
  destruct (m_bSpawned sp && _); cbn.
  - repeat split; auto; try discriminate.
  - repeat split; auto; repeat constructor.
Qed.

(** X22: while the regular patrol of the spawn point counts as spawned, the
    variant never queues a reinforcement: over any sequence of state
    updates, parameter resets and base-class steps that leave the patrol
    spawned, no alert is broadcast, the last-wave time stays as it was, and
    the wave counter stays as it was or is reset to 0.  A trigger that is
    blocked this way records nothing, so it is tried again on every later
    check with no cooldown. *)
Theorem standing_patrol_blocks_reinforcements
  (cbs : list Callback) (sp : SpawnPoint) :
  m_bSpawned sp = true ->
  Forall keepsPatrol cbs ->
  (forall step, In (BaseClass step) cbs ->
     forall x, m_tLastReinforcementTime (step x) = m_tLastReinforcementTime x
               /\ m_iReinforcementWave (step x) = m_iReinforcementWave x) ->
  let r := run DespawnPatrol cbs sp in
  Forall (fun call => isAlertCall call = false) (snd r)
  /\ m_bSpawned (fst r) = true
  /\ m_tLastReinforcementTime (fst r) = m_tLastReinforcementTime sp
  /\ (m_iReinforcementWave (fst r) = m_iReinforcementWave sp
      \/ m_iReinforcementWave (fst r) = 0).
Proof.
  intros Hs Hall Hbase r. subst r. revert sp Hs.
  induction cbs as [|cb cbs IH]; intros sp Hs.
  - cbn. repeat split; auto.
  - apply Forall_cons_iff in Hall. destruct Hall as [Hcb Hall].
    assert (forall step, In (BaseClass step) cbs ->
              forall x,
                m_tLastReinforcementTime (step x)
                = m_tLastReinforcementTime x
                /\ m_iReinforcementWave (step x) = m_iReinforcementWave x)
      as Hbase' by (intros step H; apply Hbase; right; exact H).
    cbn [run].
    assert (Forall (fun call => isAlertCall call = false)
              (snd (dispatch DespawnPatrol cb sp))
            /\ m_bSpawned (fst (dispatch DespawnPatrol cb sp)) = true
            /\ m_tLastReinforcementTime (fst (dispatch DespawnPatrol cb sp))
               = m_tLastReinforcementTime sp
            /\ (m_iReinforcementWave (fst (dispatch DespawnPatrol cb sp))
                = m_iReinforcementWave sp
                \/ m_iReinforcementWave (fst (dispatch DespawnPatrol cb sp))
                   = 0)) as [D1 [D2 [D3 D4]]].
    { destruct cb as [g combatActive| |step]; cbn [dispatch].
      - destruct (cycle_Update_blocked g combatActive sp Hs)
          as [E1 [E2 [E3 E4]]].
        rewrite E1. repeat split; auto.
      - destruct (cycle_CheckAndReset_fields sp)
          as [E1 [E2 [E3 [E4 _]]]].
        repeat split; auto. congruence.
      - cbn [fst snd]. destruct (Hbase step (or_introl eq_refl) sp)
          as [E1 E2].
        repeat split; auto. }
    destruct (dispatch DespawnPatrol cb sp) as [sp1 calls1].
    cbn [fst snd] in D1, D2, D3, D4.
    specialize (IH Hall Hbase' sp1 D2).
    destruct (run DespawnPatrol cbs sp1) as [sp2 calls2].
    cbn [fst snd] in *. destruct IH as [I1 [I2 [I3 I4]]].
    split; [apply Forall_app; split; assumption|].
    split; [exact I2|]. split; [congruence|].
    destruct I4 as [I4|I4]; [|right; exact I4].
    rewrite I4. exact D4.
Qed.

Lemma lastAlert_app (a b : list Call) :
  lastAlert (a ++ b)
  = match lastAlert b with
    | Some wave => Some wave
    | None => lastAlert a
    end.
Proof.
  unfold lastAlert. rewrite fold_left_app.
  generalize (fold_left
                (fun acc call =>
                   match call with
                   | BroadcastReinforcementAlert wave => Some wave
                   | _ => acc
                   end) a None).
  induction b as [|call b IH]; intro init; [reflexivity|].
  cbn [fold_left]. destruct call; rewrite IH; try reflexivity.
  rewrite (IH None).
  destruct (fold_left _ b None); reflexivity.
Qed.

Lemma lastAlert_none (l : list Call) :
  Forall (fun call => isAlertCall call = false) l -> lastAlert l = None.
Proof.
  induction 1 as [|call l Hc _ IH]; [reflexivity|].
  change (call :: l) with ([call] ++ l). rewrite lastAlert_app, IH.
  destruct call; [discriminate Hc|reflexivity|reflexivity].
Qed.

Lemma cycle_Trigger_params (g : Game) (wave : Z) (sp : SpawnPoint) :
  keepsParameters DespawnPatrol ->
  let r := TriggerReinforcements DespawnPatrol g wave sp in
  r = (sp, [])
  \/ (exists rest,
        snd r = BroadcastReinforcementAlert wave :: rest
        /\ Forall (fun call => isAlertCall call = false) rest
        /\ m_iNum (fst r) = 2
        /\ m_eGroupType (fst r) = Some (groupTypeOfWave wave)
        /\ m_fSpawnDisperson (fst r) = 200%Q
        /\ m_bReinforcementSpawnPending (fst r) = true).
Proof.
  intros Hk r. subst r. unfold TriggerReinforcements.
  destruct (GetWorld g) as [world|]; [|left; reflexivity].
  destruct (m_bSpawned sp); [left; reflexivity|]. right.
  cbv zeta. cbn [m_Group].
  destruct (m_Group sp) as [group|].
  - match goal with
    | |- context [DespawnPatrol ?x] =>
        destruct (Hk x) as [K1 [K2 [K3 K4]]]
    end.
    eexists. cbn [fst snd app m_iNum m_eGroupType m_fSpawnDisperson
                   m_bReinforcementSpawnPending] in *.
    split; [reflexivity|]. split; [repeat constructor|].
    rewrite K1, K2, K3, K4. unfold groupTypeOfWave.
    destruct (wave =? 1); repeat split.
  - eexists. cbn [fst snd app m_iNum m_eGroupType m_fSpawnDisperson
                   m_bReinforcementSpawnPending].
    split; [reflexivity|]. split; [repeat constructor|].
    unfold groupTypeOfWave. destruct (wave =? 1); repeat split.
Qed.

Lemma cycle_Update_params (g : Game) (combatActive : bool)
  (sp : SpawnPoint) :
  keepsParameters DespawnPatrol ->
  paramsStep sp (fst (UpdateReinforcementState DespawnPatrol g combatActive
                        sp))
    (snd (UpdateReinforcementState DespawnPatrol g combatActive sp)).
Proof.
  intro Hk.
  assert (forall x, paramsStep x x []) as Hsame.
  { intro x. split; [left; reflexivity|].
    split; [left; split; [constructor|reflexivity]|].
    intro H. right. split; [exact H|reflexivity]. }
  unfold UpdateReinforcementState.
  destruct (GetWorld g) as [world|]; [|apply Hsame].
  cbv zeta.
  set (sp1 := if combatActive && negb (m_bReinforcementActive sp)
              then _ else sp).
  assert (m_iNum sp1 = m_iNum sp
          /\ m_eGroupType sp1 = m_eGroupType sp
          /\ m_fSpawnDisperson sp1 = m_fSpawnDisperson sp
          /\ m_bReinforcementSpawnPending sp1
             = m_bReinforcementSpawnPending sp) as [H1 [H2 [H3 H4]]].
  { subst sp1. destruct (combatActive && negb (m_bReinforcementActive sp));
      cbn; auto. }
  clearbody sp1.
  assert (forall wave,
            paramsStep sp
              (fst (TriggerReinforcements DespawnPatrol g wave sp1))
              (snd (TriggerReinforcements DespawnPatrol g wave sp1)))
    as Htrig.
  { intro wave.
    destruct (cycle_Trigger_params g wave sp1 Hk)
      as [E|[rest [E1 [E2 [E3 [E4 [E5 E6]]]]]]].
    - rewrite E. cbn [fst snd]. unfold paramsStep.
      rewrite H1, H2, H3, H4. apply Hsame.
    - split; [right; exact E3|]. split.
      + right. exists wave, rest. auto.
      + intros _. left. exact E6. }
  assert (paramsStep sp sp1 []) as Hsp1.
  { unfold paramsStep. rewrite H1, H2, H3, H4. apply Hsame. }
  destruct (negb combatActive && m_bReinforcementActive sp1).
  { cbn [fst snd]. split; [right; reflexivity|].
    split; [left; split; [constructor|exact H2]|].
    cbn. discriminate. }
  destruct (m_bReinforcementActive sp1); [|exact Hsp1].
  destruct (m_tCombatStartTime sp1); [|exact Hsp1].
  destruct (inCooldown _ _); [exact Hsp1|].
  destruct (_ && _); [apply Htrig|].
  destruct (_ && _); [apply Htrig|exact Hsp1].
Qed.

Lemma cycle_dispatch_params (cb : Callback) (sp : SpawnPoint) :
  keepsParameters DespawnPatrol -> wellBehaved cb ->
  paramsStep sp (fst (dispatch DespawnPatrol cb sp))
    (snd (dispatch DespawnPatrol cb sp)).
Proof.
  intros Hk Hcb. destruct cb as [g combatActive| |step]; cbn [dispatch].
  - apply cycle_Update_params, Hk.
  - destruct (cycle_CheckAndReset_fields sp)
      as [E1 [_ [_ [_ [E5 [E6 E7]]]]]].
    split; [exact E6|]. split; [left; split; assumption|].
    intro H. right. exact (E7 H).
  - cbn [fst snd]. destruct (Hcb sp) as [K1 [K2 [K3 K4]]].
    split; [left; exact K1|].
    split; [left; split; [constructor|exact K2]|].
    intro H. right. split; congruence.
Qed.

(** X23: along any sequence of state updates, parameter resets and
    base-class steps (the base class and its [DespawnPatrol] leaving the
    managed parameters alone), a group count of 2 stays 2, so a wave never
    raises the number of groups; the group type is the one assigned for the
    wave of the last alert and is never put back, also after the reset to
    normal parameters; and the wide dispersion of 200 is in force only
    while a reinforcement spawn is pending. *)
Theorem spawn_parameters_along_runs
  (cbs : list Callback) (sp : SpawnPoint) :
  keepsParameters DespawnPatrol ->
  Forall wellBehaved cbs ->
  let r := run DespawnPatrol cbs sp in
  (m_iNum sp = 2 -> m_iNum (fst r) = 2)
  /\ m_eGroupType (fst r)
     = match lastAlert (snd r) with
       | Some wave => Some (groupTypeOfWave wave)
       | None => m_eGroupType sp
       end
  /\ ((m_fSpawnDisperson sp = 200%Q ->
       m_bReinforcementSpawnPending sp = true) ->
      m_fSpawnDisperson (fst r) = 200%Q ->
      m_bReinforcementSpawnPending (fst r) = true).
Proof.
  intros Hk Hall r. subst r. revert sp.
  induction cbs as [|cb cbs IH]; intro sp.
  - cbn. auto.
  - apply Forall_cons_iff in Hall. destruct Hall as [Hcb Hall].
    cbn [run].
    pose proof (cycle_dispatch_params cb sp Hk Hcb) as [P1 [P2 P3]].
    destruct (dispatch DespawnPatrol cb sp) as [sp1 calls1].
    cbn [fst snd] in P1, P2, P3.
    specialize (IH Hall sp1).
    destruct (run DespawnPatrol cbs sp1) as [sp2 calls2].
    cbn [fst snd] in *. destruct IH as [I1 [I2 I3]].
    split; [|split].
    + intro H. apply I1. destruct P1 as [P1|P1]; congruence.
    + rewrite I2, lastAlert_app.
      destruct (lastAlert calls2) as [wave|]; [reflexivity|].
      destruct P2 as [[Hno E]|[wave [rest [-> [Hno E]]]]].
      * rewrite (lastAlert_none _ Hno). exact E.
      * change (BroadcastReinforcementAlert wave :: rest)
          with ([BroadcastReinforcementAlert wave] ++ rest).
        rewrite lastAlert_app, (lastAlert_none _ Hno). exact E.
    + intros H0 H. apply I3; [|exact H].
      intro H1. destruct (P3 H1) as [E|[E1 E2]]; [exact E|].
      rewrite E2. exact (H0 E1).
Qed.

Lemma Qle_bool_DiffSeconds (n a b : Z) :
  Qle_bool (inject_Z n) (DiffSeconds a b) = (1000 * n <=? a - b).
Proof.
  destruct (Z.leb_spec (1000 * n) (a - b)) as [H|H].
  - apply Qle_bool_iff, DiffSeconds_ge. exact H.
  - destruct (Qle_bool (inject_Z n) (DiffSeconds a b)) eqn:E;
      [|reflexivity].
    apply Qle_bool_iff, DiffSeconds_ge in E. lia.
Qed.

(** X24: a state update of the variant under combat, for an active spawn
    point whose patrol is not spawned and that is out of the cooldown,
    queues wave 2 once the engagement has lasted 600 seconds and the counter
    is below 2 (wave 1 is then never fired), else wave 1 once it has lasted
    300 seconds and the counter is 0 or less, else nothing.  Queueing a wave
    broadcasts the alert first, asks the base class to despawn the patrol
    exactly when a group is present, schedules the parameter reset 15
    seconds later, and expires the respawn timer. *)
Theorem cycle_update_queues_highest_wave
  (g : Game) (sp : SpawnPoint) (world : ChimeraWorld) (t0 : Z) :
  GetWorld g = Some world ->
  m_bSpawned sp = false ->
  m_bReinforcementActive sp = true ->
  m_tCombatStartTime sp = Some t0 ->
  inCooldown (GetServerTimestamp world) (m_tLastReinforcementTime sp)
  = false ->
  let r := UpdateReinforcementState DespawnPatrol g true sp in
  let elapsed := GetServerTimestamp world - t0 in
  let queued :=
    if (m_iReinforcementWave sp <? 2) && (600000 <=? elapsed) then Some 2
    else if (m_iReinforcementWave sp <? 1) && (300000 <=? elapsed)
         then Some 1 else None in
  snd r
  = match queued with
    | Some wave =>
        BroadcastReinforcementAlert wave
        :: match m_Group sp with
           | Some _ => [DespawnPatrolCalled]
           | None => []
           end
        ++ [CallLaterCheckAndReset 15000]
    | None => []
    end
  /\ (queued <> None ->
      m_fRespawnTimestamp (fst r) = Some (GetServerTimestamp world))
  /\ (queued = None -> fst r = sp).
Proof.
  intros Hw Hs Ha Ht Hc r elapsed queued. subst r queued elapsed.
  unfold UpdateReinforcementState. rewrite Hw. cbv zeta.
  rewrite Ha. cbn [negb andb]. rewrite Ha, Ht, Hc.
  rewrite !Qle_bool_DiffSeconds.
  unfold REINFORCEMENT_WAVE2_THRESHOLD, REINFORCEMENT_WAVE1_THRESHOLD.
  change (1000 * 600) with 600000. change (1000 * 300) with 300000.
  unfold TriggerReinforcements. rewrite Hw, Hs. cbv zeta. cbn [m_Group].
  destruct ((m_iReinforcementWave sp <? 2)
            && (600000 <=? GetServerTimestamp world - t0)).
  - destruct (m_Group sp); cbn [fst snd app m_fRespawnTimestamp];
      repeat split; try reflexivity; discriminate.
  - destruct ((m_iReinforcementWave sp <? 1)
              && (300000 <=? GetServerTimestamp world - t0)).
    + destruct (m_Group sp); cbn [fst snd app m_fRespawnTimestamp];
        repeat split; try reflexivity; discriminate.
    + cbn [fst snd]. repeat split; try reflexivity.
      intro H. contradiction H. reflexivity.
Qed.

End SpawnCycleFacts.

(** ** Sample runs of the further properties *)

Lemma wave_fires_only_after_threshold_sample :
  true = true
  /\ m_bReinforcementActive engagedDefender = true
  /\ exists now t0,
       tickTime (sampleGame 625000 [Some attacker]) = Some now
       /\ m_tCombatStartTime engagedDefender = Some t0
       /\ 1000 * GetWaveThreshold SHIPPED_DEBUG_MODE 2 <= now - t0
       /\ 60000 <= now - t0
       /\ (SHIPPED_DEBUG_MODE = false -> 300000 <= now - t0).
Proof.
  apply (wave_fires_only_after_threshold SHIPPED_DEBUG_MODE
           (sampleGame 625000 [Some attacker]) true engagedDefender
           emptySim 2).
  vm_compute. left. reflexivity.
Defined.

Lemma wave_counter_bounded_sample :
  0 <= m_iReinforcementWave
         (fst (finalState SHIPPED_DEBUG_MODE siege
                 (sampleDefender 7 0%nat, emptySim))) <= 3.
Proof.
  apply (proj1 (wave_counter_bounded_and_terminal SHIPPED_DEBUG_MODE) siege
           (sampleDefender 7 0%nat, emptySim)).
  - vm_compute. split; discriminate.
  - vm_compute. right; right; right; left. reflexivity.
Defined.

Lemma engagement_fires_increasing_waves_sample :
  StronglySorted Z.lt
    (firedWaves SHIPPED_DEBUG_MODE siege (sampleDefender 7 0%nat, emptySim)).
Proof.
  apply (proj1 (engagement_fires_increasing_waves SHIPPED_DEBUG_MODE siege
                  (sampleDefender 7 0%nat, emptySim)
                  ltac:(repeat constructor)
                  ltac:(vm_compute; split; discriminate))).
Defined.

Lemma end_of_engagement_tracking_sample :
  combatState
    (resComponent
       (UpdateReinforcementState SHIPPED_DEBUG_MODE (sampleGame 30000 [])
          false (engagedDefender, emptySim)))
  = (Some 0, false, 0, None).
Proof.
  apply (proj1 (end_of_engagement_tracking SHIPPED_DEBUG_MODE
                  (sampleGame 30000 []) engagedDefender emptySim
                  (mkWorld 30000) eq_refl eq_refl)).
Defined.

Lemma spawn_group_succeeds_sample :
  fst (fst (SpawnReinforcementGroup (sampleGame 0 []) FIRETEAM
              (sampleDefender 7 0%nat) emptySim)) = Some 0%nat.
Proof.
  apply (proj1 (spawn_group_succeeds_iff (sampleGame 0 []) FIRETEAM
                  (sampleDefender 7 0%nat) emptySim) 0%nat).
  repeat split.
Defined.

Lemma alert_iff_something_spawned_sample :
  In (BroadcastReinforcementAlert 1)
     (resEffects
        (TriggerReinforcements SHIPPED_DEBUG_MODE
           (sampleGame 301000 [Some attacker]) 1
           (engagedDefender, emptySim))).
Proof.
  apply (proj1 (proj1 (alert_iff_something_spawned SHIPPED_DEBUG_MODE
                         (sampleGame 301000 [Some attacker]) 1
                         engagedDefender emptySim (mkWorld 301000)
                         eq_refl))).
  exists (SpawnedGroup 0%nat "Group_OPFOR.et" FIRETEAM). split.
  - vm_compute. right. left. reflexivity.
  - reflexivity.
Defined.

Lemma waves_spawn_one_prefab_sample :
  sameForce
    (TriggerReinforcements SHIPPED_DEBUG_MODE
       (sampleGame 601000 [Some attacker]) 2 (engagedDefender, emptySim))
    (TriggerReinforcements SHIPPED_DEBUG_MODE
       (sampleGame 601000 [Some attacker]) 1 (engagedDefender, emptySim)).
Proof.
  apply (proj2 (proj2 (proj2 (proj2 (proj2 (proj2
           (waves_spawn_one_prefab SHIPPED_DEBUG_MODE
              (sampleGame 601000 [Some attacker]) 1 engagedDefender
              emptySim (mkWorld 601000) eq_refl)))))) 2);
    discriminate.
Defined.

Lemma tracking_arrays_stay_duplicate_free_sample :
  Forall (fun r => trackingInv (fst r))
         (runChecks SHIPPED_DEBUG_MODE (map fst siege)
            (trackingDefender, oneGroupSim)).
Proof.
  apply (tracking_arrays_stay_duplicate_free SHIPPED_DEBUG_MODE
           (map fst siege) (trackingDefender, oneGroupSim)).
  unfold trackingInv, simFresh. simpl. split; [|split].
  - intros e [<-|[]]. lia.
  - repeat constructor. simpl. tauto.
  - intros e [<-|[]]. lia.
Defined.

Lemma check_escalates_only_under_attack_sample :
  m_bIsReinforcementCoordinator engagedDefender = true
  /\ m_nearBase engagedDefender <> None
  /\ DetectCombatAtBase (sampleGame 301000 [Some attacker]) engagedDefender
     = true.
Proof.
  apply (proj1 (check_escalates_only_under_attack SHIPPED_DEBUG_MODE
                  (sampleGame 301000 [Some attacker]) engagedDefender
                  emptySim) 1).
  vm_compute. left. reflexivity.
Defined.

Lemma guard_answers_false_exactly_after_grace_sample :
  fst (ShouldKeepDefendersActive (rearGame 0) (sampleDefender 7 0%nat)) = true
  /\ m_tInactiveSince
       (guardState [rearGame 0; rearGame 300000] (sampleDefender 7 0%nat))
     = Some 0
  /\ (fst (ShouldKeepDefendersActive (rearGame 600000)
             (guardState [rearGame 0; rearGame 300000]
                (sampleDefender 7 0%nat))) = false
      <-> 600000 <= 600000 - 0).
Proof.
  apply (guard_answers_false_exactly_after_grace (sampleDefender 7 0%nat)
           0%nat (rearGame 0) [rearGame 300000] (rearGame 600000) 0 600000).
  - reflexivity.
  - reflexivity.
  - repeat constructor.
  - reflexivity.
  - reflexivity.
Defined.

Lemma update_target_fails_open_sample :
  m_bIsNearTarget
    (UpdateTarget sampleSuper (sampleGame 0 []) (sampleDefender 7 0%nat))
  = true.
Proof.
  apply (proj1 (proj2 (proj2 (proj2
           (update_target_fails_open sampleSuper (sampleGame 0 [])
              (sampleDefender 7 0%nat))) 0%nat eq_refl eq_refl))).
  right. right. right. left. reflexivity.
Defined.

Lemma coordinator_initialisation_scheduled_once_sample :
  (List.length
     (filter (fun scheduled => scheduled)
        (runTarget sampleSuper
           [sampleGame 0 []; sampleGame 1000 []; sampleGame 2000 []]
           (newComponent 7 (Some 1%nat) "Group_OPFOR.et"))) <= 1)%nat.
Proof.
  apply (proj1 (coordinator_initialisation_scheduled_once sampleSuper
                  [sampleGame 0 []; sampleGame 1000 []; sampleGame 2000 []]
                  (newComponent 7 (Some 1%nat) "Group_OPFOR.et")
                  (fun g c => eq_refl))).
Defined.

Lemma election_locality_sample :
  elected registryGame (sampleDefender 4 2%nat) = true.
Proof.
  apply (proj1 (proj2
           (proj2 (proj2 (proj2 (proj2
              (election_early_returns_and_locality registryGame
                 (sampleDefender 4 2%nat)))))
              2%nat sampleRegistry eq_refl eq_refl ltac:(discriminate)))).
  intros sp Hsp.
  repeat (destruct Hsp as [<-|Hsp]; [reflexivity|]). destruct Hsp.
Defined.

Lemma base_listed_for_enemy_is_frontline_sample :
  IsBaseOnFrontline (rearGame 0) (sampleDefender 7 5%nat) 5%nat = true.
Proof.
  apply (proj1 (proj2 (proj2
           (rear_area_iff_no_enemy_base_in_range (rearGame 0)
              (sampleDefender 7 5%nat) 5%nat))
           ltac:(intros gm bm fm ours enemy H1 H2 H3 H4 H5;
                 inversion H1; subst gm; inversion H2; subst bm;
                 inversion H3; subst fm; vm_compute in H4; inversion H4;
                 subst ours; inversion H5; subst enemy;
                 left; reflexivity)
           eq_refl)).
Defined.

Lemma reinforcement_tuning_sample :
  skillAfter (configureAgents 1 sampleAgents) 2%nat = Some EXPERT
  /\ perceptionAfter (configureAgents 1 sampleAgents) 2%nat = Some (3 # 2).
Proof.
  apply (proj1 (reinforcement_tuning_has_two_tiers 1 sampleAgents)
           (rifleman 2%nat) 2%nat).
  - right. right. left. reflexivity.
  - reflexivity.
Defined.

Lemma solo_override_sample :
  skillAfter
    (SpawnPatrol (configureAgents 1 sampleAgents) 1 (Some sampleAgents))
    2%nat = Some EXPERT
  /\ perceptionAfter
       (SpawnPatrol (configureAgents 1 sampleAgents) 1 (Some sampleAgents))
       2%nat = Some 1%Q.
Proof.
  apply (proj1 (proj2 (solo_override_resets_perception
                         (configureAgents 1 sampleAgents) 1
                         (Some sampleAgents)))
           sampleAgents (rifleman 2%nat) 2%nat eq_refl eq_refl).
  - right. right. left. reflexivity.
  - reflexivity.
Defined.


Lemma standing_patrol_blocks_reinforcements_sample :
  Forall (fun call => SpawnCycle.isAlertCall call = false)
         (snd (SpawnCycle.run SpawnCycle.sampleDespawnPatrol
                 [SpawnCycle.OnUpdate (sampleGame 0 [Some attacker]) true;
                  SpawnCycle.OnUpdate (sampleGame 601000 [Some attacker])
                    true;
                  SpawnCycle.OnCheckAndReset]
                 (SpawnCycle.sampleSpawnCycle SpawnCycle.samplePoint))).
Proof.
  apply (proj1 (standing_patrol_blocks_reinforcements
                  SpawnCycle.sampleDespawnPatrol
                  [SpawnCycle.OnUpdate (sampleGame 0 [Some attacker]) true;
                   SpawnCycle.OnUpdate (sampleGame 601000 [Some attacker])
                     true;
                   SpawnCycle.OnCheckAndReset]
                  (SpawnCycle.sampleSpawnCycle SpawnCycle.samplePoint)
                  eq_refl
                  ltac:(repeat constructor)
                  ltac:(intros step [H|[H|[H|[]]]]; discriminate H))).
Defined.

Lemma spawn_parameters_along_runs_sample :
  SpawnCycle.m_eGroupType
    (fst (SpawnCycle.run SpawnCycle.sampleDespawnPatrol
            [SpawnCycle.OnUpdate (sampleGame 0 [Some attacker]) true;
             SpawnCycle.OnUpdate (sampleGame 301000 [Some attacker]) true;
             SpawnCycle.BaseClass SpawnCycle.sampleSpawnCycle;
             SpawnCycle.OnCheckAndReset;
             SpawnCycle.OnUpdate (sampleGame 331000 []) false]
            SpawnCycle.samplePoint))
  = Some FIRETEAM.
Proof.
  apply (proj1 (proj2 (spawn_parameters_along_runs
                         SpawnCycle.sampleDespawnPatrol
                         [SpawnCycle.OnUpdate (sampleGame 0 [Some attacker])
                            true;
                          SpawnCycle.OnUpdate
                            (sampleGame 301000 [Some attacker]) true;
                          SpawnCycle.BaseClass SpawnCycle.sampleSpawnCycle;
                          SpawnCycle.OnCheckAndReset;
                          SpawnCycle.OnUpdate (sampleGame 331000 []) false]
                         SpawnCycle.samplePoint
                         ltac:(intro sp; repeat split)
                         ltac:(repeat constructor; intro sp;
                               repeat split)))).
Defined.

Lemma cycle_update_queues_highest_wave_sample :
  snd (SpawnCycle.UpdateReinforcementState SpawnCycle.sampleDespawnPatrol
         (sampleGame 601000 [Some attacker]) true
         (fst (SpawnCycle.UpdateReinforcementState
                 SpawnCycle.sampleDespawnPatrol
                 (sampleGame 0 [Some attacker]) true
                 SpawnCycle.samplePoint)))
  = [SpawnCycle.BroadcastReinforcementAlert 2;
     SpawnCycle.CallLaterCheckAndReset 15000].
Proof.
  apply (proj1 (cycle_update_queues_highest_wave
                  SpawnCycle.sampleDespawnPatrol
                  (sampleGame 601000 [Some attacker])
                  (fst (SpawnCycle.UpdateReinforcementState
                          SpawnCycle.sampleDespawnPatrol
                          (sampleGame 0 [Some attacker]) true
                          SpawnCycle.samplePoint))
                  (mkWorld 601000) 0
                  eq_refl eq_refl eq_refl eq_refl eq_refl)).
Defined.
